(** * wpp-campaing-sender: the CSV ingestion service, the WhatsApp
      campaign engine and the routes that drive them, embedded from
      [src/services/csv.js], [src/services/whatsapp.js] and [src/app.js]. *)

From Stdlib Require Import ZArith NArith Ascii String List SpecFloat Lia.
From stdpp Require Import gmap list strings.

Local Open Scope nat_scope.

(** ** JavaScript strings

    A JavaScript string is a sequence of UTF-16 code units; [length],
    [charAt], [substring] and [startsWith] all count code units. *)

Abbreviation jsstring := (list N).

(** A literal made of ASCII characters only. *)
Definition js (s : string) : jsstring :=
  List.map N_of_ascii (list_ascii_of_string s).

Definition str_eqb (a b : jsstring) : bool := bool_decide (a = b).

(** [!s] is true exactly for the empty string. *)
Definition truthy (s : jsstring) : bool :=
  match s with [] => false | _ :: _ => true end.

(** [s.substring(start, end)]: both indices are clamped to the length and
    swapped when [start > end]. *)
Definition substring (s : jsstring) (start finish : nat) : jsstring :=
  let a := Nat.min start (length s) in
  let b := Nat.min finish (length s) in
  take (Nat.max a b - Nat.min a b) (drop (Nat.min a b) s).

(** [s.substring(start)] *)
Definition substring_from (s : jsstring) (start : nat) : jsstring :=
  substring s start (length s).

(** [s.charAt(i)]: a string of one code unit, empty out of range. *)
Definition charAt (s : jsstring) (i : nat) : jsstring :=
  match s !! i with Some c => [c] | None => [] end.

Fixpoint startsWith (s p : jsstring) : bool :=
  match p, s with
  | [], _ => true
  | _ :: _, [] => false
  | c :: p', d :: s' => (c =? d)%N && startsWith s' p'
  end.

(** The class [\d] of a regular expression without the unicode flag. *)
Definition is_digit (c : N) : bool := ((48 <=? c) && (c <=? 57))%N.

(** [s.replace(/\D/g, '')] *)
Definition strip_non_digits (s : jsstring) : jsstring := List.filter is_digit s.

(** WhiteSpace and LineTerminator code points, skipped by [parseInt] and
    removed by [trim]: TAB, LF, VT, FF, CR, SP, NBSP, U+1680,
    U+2000..U+200A, U+2028, U+2029, U+202F, U+205F, U+3000, U+FEFF. *)
Definition is_space (c : N) : bool :=
  existsb (N.eqb c)
    [9; 10; 11; 12; 13; 32; 160; 5760; 8192; 8193; 8194; 8195; 8196; 8197;
     8198; 8199; 8200; 8201; 8202; 8232; 8233; 8239; 8287; 12288; 65279]%N.

Fixpoint trimStart (s : jsstring) : jsstring :=
  match s with
  | c :: s' => if is_space c then trimStart s' else s
  | [] => []
  end.

(** [s.trim()] *)
Definition trim (s : jsstring) : jsstring := rev (trimStart (rev (trimStart s))).

(** ** Numbers

    The numbers the validator handles are [NaN] or small integers:
    [None] is [NaN].  Every comparison with [NaN] is false. *)

Abbreviation jsnum := (option Z).

Definition num_lt (x : jsnum) (k : Z) : bool :=
  match x with Some z => (z <? k)%Z | None => false end.

Definition num_gt (x : jsnum) (k : Z) : bool :=
  match x with Some z => (k <? z)%Z | None => false end.

(** [arr.includes(x)] over an array of integers (SameValueZero: [NaN]
    only equals [NaN], and the array holds none). *)
Definition includes (arr : list Z) (x : jsnum) : bool :=
  match x with Some z => existsb (Z.eqb z) arr | None => false end.

Definition digit_val (c : N) : Z := Z.of_N c - 48.

(** The longest prefix of decimal digits, read as an integer with the
    accumulator [acc]; [None] when there is no digit. *)
Fixpoint digits_prefix (s : jsstring) (acc : option Z) : option Z :=
  match s with
  | c :: s' =>
      if is_digit c
      then digits_prefix s' (Some (10 * default 0%Z acc + digit_val c)%Z)
      else acc
  | [] => acc
  end.

(** [parseInt(s, 10)]: leading white space is skipped, one sign is read,
    then the longest run of decimal digits; [NaN] when that run is empty.
    (The result is exact up to 2^53, far above the two characters the
    validator passes.) *)
Definition parseInt10 (s : jsstring) : jsnum :=
  match trimStart s with
  | c :: s' =>
      if (c =? 45)%N then Z.opp <$> digits_prefix s' None
      else if (c =? 43)%N then digits_prefix s' None
      else digits_prefix (c :: s') None
  | [] => None
  end.

(** The value of a hexadecimal digit. *)
Definition hex_val (c : N) : option Z :=
  if is_digit c then Some (Z.of_N c - 48)%Z
  else if ((97 <=? c) && (c <=? 102))%N then Some (Z.of_N c - 87)%Z
  else if ((65 <=? c) && (c <=? 70))%N then Some (Z.of_N c - 55)%Z
  else None.

Fixpoint hex_prefix (s : jsstring) (acc : option Z) : option Z :=
  match s with
  | c :: s' =>
      match hex_val c with
      | Some v => hex_prefix s' (Some (16 * default 0%Z acc + v)%Z)
      | None => acc
      end
  | [] => acc
  end.

(** The digits after the sign, for [parseInt] without a radix: "0x" or
    "0X" in front makes the rest hexadecimal. *)
Definition magnitude (s : jsstring) : jsnum :=
  match s with
  | 48%N :: x :: s' =>
      if ((x =? 120) || (x =? 88))%N then hex_prefix s' None
      else digits_prefix s None
  | _ => digits_prefix s None
  end.

(** [parseInt(s)] *)
Definition parseInt (s : jsstring) : jsnum :=
  match trimStart s with
  | c :: s' =>
      if (c =? 45)%N then Z.opp <$> magnitude s'
      else if (c =? 43)%N then magnitude s'
      else magnitude (c :: s')
  | [] => None
  end.

(** ** [CSVService] *)

Module CSVService.

(** One record of the CSV stream: header name to field text. *)
Abbreviation Row := (gmap (list N) (list N)).

Record Contact := mkContact {
  number : jsstring;
  original : jsstring;
  rowData : Row
}.

(** [a || b] on possibly undefined strings. *)
Definition or_else (a b : option jsstring) : option jsstring :=
  match a with
  | Some s => if truthy s then a else b
  | None => b
  end.

Definition cleanPhoneNumber (phoneStr : jsstring) : option jsstring :=
  if negb (truthy phoneStr) then None
  else
    let cleaned := strip_non_digits phoneStr in
    if (length cleaned =? 13) && startsWith cleaned (js "55") then Some cleaned
    else if length cleaned =? 11 then Some (js "55" ++ cleaned)
    else if length cleaned =? 10 then
      let ddd := substring cleaned 0 2 in
      let number := substring_from cleaned 2 in
      Some (js "55" ++ ddd ++ js "9" ++ number)
    else None.

(** The handler of the stream's [data] event: the contact it pushes, if
    any. *)
Definition on_data (row : Row) : option Contact :=
  match or_else (or_else (row !! js "number") (row !! js "Number"))
                (row !! js "NUMBER") with
  | Some phoneNumber =>
      if truthy phoneNumber then
        match cleanPhoneNumber phoneNumber with
        | Some cleanNumber =>
            if truthy cleanNumber
            then Some (mkContact cleanNumber phoneNumber row)
            else None
        | None => None
        end
      else None
  | None => None
  end.

(** How the reading ends.  The three listeners are attached to the
    parser, which [pipe] returns: it emits [end] after the last record
    ([StreamEnded]) or [error] ([StreamFailed]).  The read stream that
    feeds it has no listener of its own, and [pipe] forwards no error: when
    the reading of the file fails ([ReadFailed]) the parser gets neither
    event (the error of the read stream is an uncaught exception, which
    [app.js] logs). *)
Inductive StreamEnd :=
  | StreamEnded
  | StreamFailed (message : jsstring)
  | ReadFailed.

(** [parseCSV]: [file_exists] is [fs.existsSync(filePath)], [rows] the
    records the parser emits, in order, and [fin] how the reading ends.
    The promise resolves with the contacts ([Some (inr _)]), is rejected
    with a message ([Some (inl _)]), or is never settled ([None]). *)
Definition parseCSV (file_exists : bool) (rows : list Row) (fin : StreamEnd)
  : option (jsstring + list Contact) :=
  if negb file_exists
  then Some (inl (js "Arquivo CSV n" ++ [227%N] ++ js "o encontrado"))
  else
    let contacts :=
      fold_left (λ acc row,
                  match on_data row with
                  | Some c => acc ++ [c]
                  | None => acc
                  end) rows [] in
    match fin with
    | StreamEnded => Some (inr contacts)
    | StreamFailed m => Some (inl (js "Erro ao processar CSV: " ++ m))
    | ReadFailed => None
    end.

Definition validDDDs : list Z :=
  [11; 12; 13; 14; 15; 16; 17; 18; 19; 21; 22; 24; 27; 28; 31; 32; 33; 34; 35; 37; 38;
   41; 42; 43; 44; 45; 46; 47; 48; 49; 51; 53; 54; 55; 61; 62; 63; 64; 65; 66; 67; 68;
   69; 71; 73; 74; 75; 77; 79; 81; 82; 83; 84; 85; 86; 87; 88; 89; 91; 92; 93; 94; 95;
   96; 97; 98; 99]%Z.

Definition isValidBrazilianNumber (number : jsstring) : bool :=
  if negb (truthy number) then false
  else if negb (length number =? 13) then false
  else if negb (startsWith number (js "55")) then false
  else if negb (str_eqb (charAt number 4) (js "9")) then false
  else
    let ddd := parseInt10 (substring number 2 4) in
    if num_lt ddd 11 || num_gt ddd 99 then false
    else includes validDDDs ddd.

Record Validation := mkValidation {
  valid : list Contact;
  invalid : nat
}.

(** [validateContacts]: one pass, pushing each contact on [valid] or on
    [invalid]; only the length of [invalid] is returned. *)
Definition validateContacts (contacts : list Contact) : Validation :=
  let '(valid, invalid) :=
    fold_left (λ '(valid, invalid) contact,
                if isValidBrazilianNumber (number contact)
                then (valid ++ [contact], invalid)
                else (valid, invalid ++ [contact]))
              contacts ([], []) in
  mkValidation valid (length invalid).

End CSVService.

(** ** The other revision of [CSVService]

    The file holds a second text of the class.  Its [parseCSV] and
    [validateContacts] are the ones above; its [cleanPhoneNumber] has an
    empty [if] on a leading "+"; its validator tests the area code before
    the marker digit, calls [parseInt] without a radix, and lists the area
    codes by state. *)

Module CSVServiceRev2.

Definition cleanPhoneNumber (phoneStr : jsstring) : option jsstring :=
  if negb (truthy phoneStr) then None
  else
    let cleaned := strip_non_digits phoneStr in
    let _ := if startsWith phoneStr (js "+") then () else () in
    if (length cleaned =? 13) && startsWith cleaned (js "55") then Some cleaned
    else if length cleaned =? 11 then Some (js "55" ++ cleaned)
    else if length cleaned =? 10 then
      let ddd := substring cleaned 0 2 in
      let number := substring_from cleaned 2 in
      Some (js "55" ++ ddd ++ js "9" ++ number)
    else None.

Definition validDDDs : list Z :=
  [11; 12; 13; 14; 15; 16; 17; 18; 19;
   21; 22; 24;
   27; 28;
   31; 32; 33; 34; 35; 37; 38;
   41; 42; 43; 44; 45; 46;
   47; 48; 49;
   51; 53; 54; 55;
   61;
   62; 64;
   63;
   65; 66;
   67;
   68;
   69;
   71; 73; 74; 75; 77;
   79;
   81; 87;
   82;
   83;
   84;
   85; 88;
   86; 89;
   91; 93; 94;
   92; 97;
   95;
   96;
   98; 99]%Z.

Definition isValidBrazilianNumber (number : jsstring) : bool :=
  if negb (truthy number) then false
  else if negb (length number =? 13) then false
  else if negb (startsWith number (js "55")) then false
  else
    let ddd := parseInt (substring number 2 4) in
    if num_lt ddd 11 || num_gt ddd 99 then false
    else
      let fifthDigit := charAt number 4 in
      if negb (str_eqb fifthDigit (js "9")) then false
      else includes validDDDs ddd.

End CSVServiceRev2.

(** ** Double-precision arithmetic

    The percentage and the duration are computed on IEEE-754 binary64
    numbers; the operations are the ones of the standard library's
    executable specification of that format. *)

Module Float64.

Definition prec : Z := 53.
Definition emax : Z := 1024.

(** The double nearest to an integer (exact below 2^53). *)
Definition of_Z (z : Z) : spec_float := binary_normalize prec emax z 0 false.

Definition div : spec_float -> spec_float -> spec_float := SFdiv prec emax.
Definition mul : spec_float -> spec_float -> spec_float := SFmul prec emax.

(** The values [Math.round] returns: an integer, [NaN] or an infinity
    (the sign of a zero result is not kept). *)
Inductive rounded :=
  | RNaN
  | RInf (negative : bool)
  | RInt (z : Z).

(** [Math.round(x)]: the integer nearest to [x], ties towards +infinity,
    that is floor(x + 1/2) computed exactly. *)
Definition Math_round (x : spec_float) : rounded :=
  match x with
  | S754_nan => RNaN
  | S754_infinity s => RInf s
  | S754_zero _ => RInt 0
  | S754_finite s m e =>
      let sm := if s then Z.neg m else Z.pos m in
      match e with
      | Z.neg p => RInt ((2 * sm + 2 ^ Z.pos p) / 2 ^ (Z.pos p + 1))
      | _ => RInt (sm * 2 ^ e)
      end
  end.

End Float64.

(** ** Arrays as heap objects

    [shuffleArray] copies the array it is given and permutes the copy in
    place, so arrays are objects in a store, named by references. *)

Module Arrays.
Section Arrays.
Context {A : Type}.

(** The store: reference to array contents. *)
Abbreviation heap := (gmap nat (list A)).

(** [[...array]]: a new array object with the elements of [array]. *)
Definition spread (array : nat) (h : heap) : heap * nat :=
  let r := fresh (dom h) in
  (<[r := default [] (h !! array)]> h, r).

(** [[a[i], a[j]] = [a[j], a[i]]]: both elements are read, then [a[i]]
    and [a[j]] are written.  The loop only calls it with
    [0 <= j <= i < a.length]. *)
Definition swap (i j : nat) (a : list A) : list A :=
  match a !! j, a !! i with
  | Some aj, Some ai => <[j := ai]> (<[i := aj]> a)
  | _, _ => a
  end.

(** The loop [for (let i = ...; i > 0; i--)] on the array object
    [shuffled]; [rnd i] is the value of
    [Math.floor(Math.random() * (i + 1))] in the iteration of index [i]. *)
Fixpoint shuffle_loop (rnd : nat -> nat) (shuffled : nat) (i : nat) (h : heap)
  : heap :=
  match i with
  | 0 => h
  | S i' => shuffle_loop rnd shuffled i' (alter (swap i (rnd i)) shuffled h)
  end.

(** [shuffleArray(array)]: the store afterwards and the reference
    returned. *)
Definition shuffleArray (rnd : nat -> nat) (array : nat) (h : heap)
  : heap * nat :=
  let '(h1, shuffled) := spread array h in
  (shuffle_loop rnd shuffled (length (default [] (h1 !! shuffled)) - 1) h1,
   shuffled).

(** The same loop on the contents alone. *)
Fixpoint permute (rnd : nat -> nat) (i : nat) (a : list A) : list A :=
  match i with
  | 0 => a
  | S i' => permute rnd i' (swap i (rnd i) a)
  end.

(** The contents of the array [shuffleArray] returns. *)
Definition shuffled_order (rnd : nat -> nat) (a : list A) : list A :=
  permute rnd (length a - 1) a.

(** The values [Math.floor(Math.random() * (i + 1))] can take, [Math.random()]
    being in [0, 1): the indices [0..i]. *)
Definition index_choices (n : nat) (rnd : nat -> nat) : Prop :=
  ∀ i, 0 < i < n → rnd i ≤ i.

(** Every run of index choices the loop can meet on an array of [S m]
    elements, the choice of iteration [k] at position [k - 1]: each of
    them has the same probability when the draws are uniform and
    independent. *)
Fixpoint choice_runs (m : nat) : list (list nat) :=
  match m with
  | 0 => [[]]
  | S m' => v ← choice_runs m'; (λ j, v ++ [j]) <$> seq 0 (S (S m'))
  end.

Definition run_choice (v : list nat) : nat -> nat :=
  λ i, default 0 (v !! (i - 1)).

End Arrays.
End Arrays.

(** ** [WhatsAppService] *)

Module WhatsAppService.
Import CSVService Float64.

(** A promise settled, or a synchronous call returned or thrown. *)
Inductive Settled (A : Type) :=
  | Resolved (a : A)
  | Rejected (message : jsstring).
Arguments Resolved {A} a.
Arguments Rejected {A} message.

(** The message object handed to [sock.sendMessage]. *)
Inductive Content :=
  | ImageMessage (image : list N) (caption : option jsstring) (mimetype : jsstring)
  | AudioMessage (audio : list N) (mimetype : jsstring) (ptt : bool)
  | TextMessage (text : jsstring).

(** One call of [sock.sendMessage(jid, content)]. *)
Record Dispatch := mkDispatch {
  jid : jsstring;
  content : Content
}.

(** What one [sendMessage] call finds outside the service: the socket, the
    file system and [path.extname(p).toLowerCase()]. [onWhatsApp] gives the
    [exists] field of the first result ([None] when there is none). *)
Record World := mkWorld {
  onWhatsApp : jsstring -> Settled (option bool);
  existsSync : jsstring -> bool;
  readFileSync : jsstring -> Settled (list N);
  extname_lower : jsstring -> jsstring;
  sock_sendMessage : jsstring -> Content -> Settled unit
}.

(** A computation that calls [sock.sendMessage] some times and returns or
    throws. *)
Definition Send (A : Type) : Type := list Dispatch * Settled A.

Definition ret {A} (a : A) : Send A := ([], Resolved a).
Definition throw {A} (m : jsstring) : Send A := ([], Rejected m).
Definition lift {A} (r : Settled A) : Send A := ([], r).

Definition bind {A B} (m : Send A) (k : A -> Send B) : Send B :=
  match m with
  | (out, Resolved a) => let '(out', r) := k a in (out ++ out', r)
  | (out, Rejected e) => (out, Rejected e)
  end.

#[local] Instance send_bind : MBind Send := λ A B k m, bind m k.

(** [try { body } catch (error) { throw new Error(prefix + error.message) }] *)
Definition rethrow {A} (prefix : jsstring) (body : Send A) : Send A :=
  match body with
  | (out, Rejected e) => (out, Rejected (prefix ++ e))
  | done => done
  end.

(** [await this.sock.sendMessage(jid, content)] *)
Definition dispatch (w : World) (jid : jsstring) (c : Content) : Send unit :=
  ([mkDispatch jid c], sock_sendMessage w jid c).

Definition truthy_opt (s : option jsstring) : bool :=
  match s with Some s => truthy s | None => false end.

Definition image_mimetype (extension : jsstring) : jsstring :=
  if str_eqb extension (js ".png") then js "image/png"
  else if str_eqb extension (js ".gif") then js "image/gif"
  else if str_eqb extension (js ".webp") then js "image/webp"
  else js "image/jpeg".

Definition sendMessage (w : World) (contact : Contact)
    (imagePath audioPath message : option jsstring) : Send bool :=
  rethrow (js "Falha no envio: ")
    (let jid := number contact ++ js "@s.whatsapp.net" in
     result ← lift (onWhatsApp w jid);
     (if negb (default false result)
      then throw (js "N" ++ [250%N] ++ js "mero n" ++ [227%N] ++ js "o existe no WhatsApp")
      else ret ());;
     match imagePath with
     | Some p =>
         if truthy p && existsSync w p then
           imageBuffer ← lift (readFileSync w p);
           dispatch w jid
             (ImageMessage imageBuffer message (image_mimetype (extname_lower w p)))
         else ret ()
     | None => ret ()
     end;;
     match audioPath with
     | Some p =>
         if truthy p && existsSync w p then
           audioBuffer ← lift (readFileSync w p);
           dispatch w jid (AudioMessage audioBuffer (js "audio/mp4") true)
         else ret ()
     | None => ret ()
     end;;
     match message with
     | Some text =>
         if negb (truthy_opt imagePath) && negb (truthy_opt audioPath)
            && truthy text && negb (str_eqb (trim text) [])
         then dispatch w jid (TextMessage text)
         else ret ()
     | None => ret ()
     end;;
     ret true).

Record Campaign := mkCampaign {
  contacts : list Contact;
  imagePath : option jsstring;
  message : option jsstring;
  sent : nat;
  failed : nat;
  total : nat;
  startTime : Z
}.

(** The campaign events emitted on [io] (the connection handler emits
    events of its own, which are not kept here). *)
Inductive Event :=
  | CampaignStarted (total : nat) (startTime : Z)
  | CampaignProgress (sent failed total : nat) (current : jsstring)
      (error : option jsstring) (progress : rounded)
  | CampaignStopped
  | CampaignFinished (sent failed total : nat) (duration : rounded).

(** Where a call of [startBulkSend] is suspended: in
    [await this.sendMessage(...)] or in [await this.sleep(delay)], whose
    timer fires at [wake]. *)
Inductive Suspended :=
  | InSend
  | InSleep (wake : Z).

(** The frame of a suspended call of [startBulkSend]: its parameters and
    locals. *)
Record Task := mkTask {
  shuffledContacts : list Contact;
  i : nat;
  t_imagePath : option jsstring;
  t_audioPath : option jsstring;
  t_message : option jsstring;
  at_ : Suspended
}.

(** The service object ([isConnected], [isSending], [currentCampaign]) and
    what surrounds it: the clock ([now], in ms), the calls of
    [startBulkSend] in progress ([tasks], by order of call, [None] once
    returned), and the record of what was emitted on [io] (with the call
    that emitted it), which iterations began, and which messages were
    handed to the socket. *)
Record Service := mkService {
  isConnected : bool;
  isSending : bool;
  currentCampaign : option Campaign;
  now : Z;
  tasks : list (option Task);
  emitted : list (option nat * Event);
  attempted : list (nat * nat);
  dispatched : list Dispatch
}.

(** [new WhatsAppService(io)] at time [t0]. *)
Definition new (t0 : Z) : Service :=
  mkService false false None t0 [] [] [] [].

Definition set_isSending (b : bool) (s : Service) : Service :=
  mkService (isConnected s) b (currentCampaign s) (now s) (tasks s)
    (emitted s) (attempted s) (dispatched s).

Definition set_isConnected (b : bool) (s : Service) : Service :=
  mkService b (isSending s) (currentCampaign s) (now s) (tasks s)
    (emitted s) (attempted s) (dispatched s).

Definition set_currentCampaign (c : Campaign) (s : Service) : Service :=
  mkService (isConnected s) (isSending s) (Some c) (now s) (tasks s)
    (emitted s) (attempted s) (dispatched s).

Definition set_now (t : Z) (s : Service) : Service :=
  mkService (isConnected s) (isSending s) (currentCampaign s) t (tasks s)
    (emitted s) (attempted s) (dispatched s).

Definition set_tasks (ts : list (option Task)) (s : Service) : Service :=
  mkService (isConnected s) (isSending s) (currentCampaign s) (now s) ts
    (emitted s) (attempted s) (dispatched s).

(** [this.io.emit(...)], by the call [run] of [startBulkSend] or by
    another method. *)
Definition emit (run : option nat) (e : Event) (s : Service) : Service :=
  mkService (isConnected s) (isSending s) (currentCampaign s) (now s) (tasks s)
    (emitted s ++ [(run, e)]) (attempted s) (dispatched s).

Definition attempt (run index : nat) (s : Service) : Service :=
  mkService (isConnected s) (isSending s) (currentCampaign s) (now s) (tasks s)
    (emitted s) (attempted s ++ [(run, index)]) (dispatched s).

Definition hand_over (out : list Dispatch) (s : Service) : Service :=
  mkService (isConnected s) (isSending s) (currentCampaign s) (now s) (tasks s)
    (emitted s) (attempted s) (dispatched s ++ out).

Definition set_task (run : nat) (t : option Task) (s : Service) : Service :=
  set_tasks (<[run := t]> (tasks s)) s.

Definition suspend (where_ : Suspended) (t : Task) : Task :=
  mkTask (shuffledContacts t) (i t) (t_imagePath t) (t_audioPath t)
    (t_message t) where_.

(** [i++] *)
Definition next (t : Task) : Task :=
  mkTask (shuffledContacts t) (S (i t)) (t_imagePath t) (t_audioPath t)
    (t_message t) (at_ t).

(** [Math.round((sent + failed) / total * 100)] *)
Definition progress_of (sent failed total : nat) : rounded :=
  Math_round
    (mul (div (of_Z (Z.of_nat sent + Z.of_nat failed)) (of_Z (Z.of_nat total)))
         (of_Z 100)).

(** [Math.round((endTime - startTime) / 1000)] *)
Definition duration_of (endTime startTime : Z) : rounded :=
  Math_round (div (of_Z (endTime - startTime)) (of_Z 1000)).

(** The code after the loop: the flag is cleared and the terminal event
    emitted; the call returns.  ([currentCampaign] is set by then.) *)
Definition after_loop (run : nat) (s : Service) : Service :=
  let s1 := set_isSending false s in
  match currentCampaign s1 with
  | Some c =>
      set_task run None
        (emit (Some run)
           (CampaignFinished (sent c) (failed c) (total c)
              (duration_of (now s1) (startTime c))) s1)
  | None => set_task run None s1
  end.

(** The loop test [i < shuffledContacts.length && this.isSending] and, when
    it holds, the body up to the suspension in [sendMessage]. *)
Definition loop_test (run : nat) (t : Task) (s : Service) : Service :=
  if (i t <? length (shuffledContacts t)) && isSending s
  then set_task run (Some (suspend InSend t)) (attempt run (i t) s)
  else after_loop run s.

(** [this.currentCampaign.sent++] or [failed++], and the progress event. *)
Definition count (run : nat) (contact : Contact) (res : Settled bool)
    (c : Campaign) (s : Service) : Service :=
  match res with
  | Resolved _ =>
      let c' := mkCampaign (contacts c) (imagePath c) (message c)
                  (S (sent c)) (failed c) (total c) (startTime c) in
      emit (Some run)
        (CampaignProgress (sent c') (failed c') (total c') (number contact) None
           (progress_of (sent c') (failed c') (total c')))
        (set_currentCampaign c' s)
  | Rejected m =>
      let c' := mkCampaign (contacts c) (imagePath c) (message c)
                  (sent c) (S (failed c)) (total c) (startTime c) in
      emit (Some run)
        (CampaignProgress (sent c') (failed c') (total c') (number contact)
           (Some m) (progress_of (sent c') (failed c') (total c')))
        (set_currentCampaign c' s)
  end.

(** The call [run] resumes when [sendMessage] settles: [w] is what that
    attempt met, [delay] the value of
    [Math.floor(Math.random() * (60000 - 30000) + 30000)] should the loop
    sleep.  The last branches are not reached: the loop test keeps [i]
    below the length, and every call sets [currentCampaign], which is never
    cleared. *)
Definition send_settled (run : nat) (w : World) (delay : Z) (s : Service)
  : Service :=
  match tasks s !! run with
  | Some (Some t) =>
      match at_ t, shuffledContacts t !! i t, currentCampaign s with
      | InSend, Some contact, Some c =>
          let '(out, res) :=
            sendMessage w contact (t_imagePath t) (t_audioPath t) (t_message t) in
          let s1 := count run contact res c (hand_over out s) in
          if (i t <? length (shuffledContacts t) - 1) && isSending s1
          then set_task run (Some (suspend (InSleep (now s1 + delay)) t)) s1
          else loop_test run (next t) s1
      | _, _, _ => s
      end
  | _ => s
  end.

(** The call [run] resumes when the timer of its [sleep] fires. *)
Definition timer_fired (run : nat) (s : Service) : Service :=
  match tasks s !! run with
  | Some (Some t) =>
      match at_ t with
      | InSleep wake =>
          if (wake <=? now s)%Z then loop_test run (next t) s else s
      | InSend => s
      end
  | _ => s
  end.

(** [startBulkSend(contacts, imagePath, audioPath, message)], up to its
    first suspension: the state afterwards, and the error when it throws.
    [rnd] gives the index choices of the shuffle. *)
Definition startBulkSend (contacts : list Contact)
    (imagePath audioPath message : option jsstring) (rnd : nat -> nat)
    (s : Service) : Service * option jsstring :=
  if negb (isConnected s)
  then (s, Some (js "WhatsApp n" ++ [227%N] ++ js "o est" ++ [225%N] ++ js " conectado"))
  else if isSending s
  then (s, Some (js "Uma campanha j" ++ [225%N] ++ js " est" ++ [225%N] ++ js " em andamento"))
  else
    let run := length (tasks s) in
    let c := mkCampaign contacts imagePath message 0 0 (length contacts) (now s) in
    let s1 := set_currentCampaign c (set_isSending true s) in
    let s2 := emit (Some run) (CampaignStarted (total c) (startTime c)) s1 in
    let shuffledContacts := Arrays.shuffled_order rnd contacts in
    let t := mkTask shuffledContacts 0 imagePath audioPath message InSend in
    (loop_test run t (set_tasks (tasks s2 ++ [None]) s2), None).

Definition stopBulkSend (s : Service) : Service :=
  emit None CampaignStopped (set_isSending false s).

(** [disconnect()], the socket being there: the flag is cleared before
    the logout. *)
Definition disconnect (s : Service) : Service := set_isSending false s.

(** What can happen between two suspensions of the loop: calls of the
    methods, the connection handler writing [isConnected], a suspended
    call being resumed, time passing.  An action that cannot take place
    (resuming a call that is not suspended there, a timer before its time)
    leaves the service as it is. *)
Inductive Action :=
  | CallStart (contacts : list Contact)
      (imagePath audioPath message : option jsstring) (rnd : nat -> nat)
  | CallStop
  | CallDisconnect
  | ConnectionUpdate (open : bool)
  | SendSettled (run : nat) (w : World) (delay : Z)
  | TimerFired (run : nat)
  | Tick (ms : N).

Definition step (s : Service) (a : Action) : Service :=
  match a with
  | CallStart contacts imagePath audioPath message rnd =>
      fst (startBulkSend contacts imagePath audioPath message rnd s)
  | CallStop => stopBulkSend s
  | CallDisconnect => disconnect s
  | ConnectionUpdate open => set_isConnected open s
  | SendSettled run w delay => send_settled run w delay s
  | TimerFired run => timer_fired run s
  | Tick ms => set_now (now s + Z.of_N ms) s
  end.

Definition exec (s : Service) (schedule : list Action) : Service :=
  fold_left step schedule s.

End WhatsAppService.

(** ** The connection side of [WhatsAppService]

    [initialize], the handler of the socket's [connection.update] events
    and [disconnect], with the fields they use. *)

Module Session.
Import CSVService WhatsAppService.

(** What these methods emit on [io]. *)
Inductive IoEvent :=
  | ErrorEvent (message : jsstring)
  | QrCode (qr : option jsstring)
  | ConnectionStatus (status : jsstring)
  | LoggedOut.

(** One [connection.update]: [connection] and [qr] as received, and the
    status code of [lastDisconnect.error] when that is a Boom. *)
Record Update := mkUpdate {
  connection : option jsstring;
  boom : option Z;
  qr : option jsstring
}.

(** The service object with the connection fields: [sockets] counts the
    sockets made ([this.sock] is null while it is 0, the last one made
    afterwards), [timers] holds the [setTimeout(() => this.initialize(), ms)]
    set so far, with the time each is due and whether it has fired, and
    [pending] counts the calls of [initialize] that have not settled. *)
Record Session := mkSession {
  service : Service;
  sockets : nat;
  retryCount : nat;
  maxRetries : nat;
  io : list IoEvent;
  timers : list (Z * bool);
  pending : nat
}.

(** [new WhatsAppService(io)] at time [t0]. *)
Definition new (t0 : Z) : Session :=
  mkSession (WhatsAppService.new t0) 0 0 3 [] [] 0.

Definition set_service (v : Service) (s : Session) : Session :=
  mkSession v (sockets s) (retryCount s) (maxRetries s) (io s) (timers s)
    (pending s).

Definition set_sockets (n : nat) (s : Session) : Session :=
  mkSession (service s) n (retryCount s) (maxRetries s) (io s) (timers s)
    (pending s).

Definition set_retryCount (n : nat) (s : Session) : Session :=
  mkSession (service s) (sockets s) n (maxRetries s) (io s) (timers s)
    (pending s).

Definition set_pending (n : nat) (s : Session) : Session :=
  mkSession (service s) (sockets s) (retryCount s) (maxRetries s) (io s)
    (timers s) n.

Definition set_timers (ts : list (Z * bool)) (s : Session) : Session :=
  mkSession (service s) (sockets s) (retryCount s) (maxRetries s) (io s) ts
    (pending s).

(** [this.io.emit(...)] *)
Definition io_emit (e : IoEvent) (s : Session) : Session :=
  mkSession (service s) (sockets s) (retryCount s) (maxRetries s) (io s ++ [e])
    (timers s) (pending s).

(** [setTimeout(() => this.initialize(), ms)] *)
Definition setTimeout_initialize (ms : Z) (s : Session) : Session :=
  set_timers (timers s ++ [(now (service s) + ms, false)%Z]) s.

(** [if (this.retryCount < this.maxRetries) { this.retryCount++;
    setTimeout(() => this.initialize(), ms) }] *)
Definition retry (ms : Z) (s : Session) : Session :=
  if retryCount s <? maxRetries s
  then setTimeout_initialize ms (set_retryCount (S (retryCount s)) s)
  else s.

(** How a call of [initialize] ends: the [try] block completes, or it
    throws, before or after [this.sock] was assigned. *)
Inductive Initialized :=
  | SocketReady
  | InitFailed (socketMade : bool) (message : jsstring).

(** A call of [initialize] settles. *)
Definition initialize_settled (o : Initialized) (s : Session) : Session :=
  match pending s with
  | 0 => s
  | S p =>
      let s0 := set_pending p s in
      match o with
      | SocketReady => set_sockets (S (sockets s0)) s0
      | InitFailed socketMade message =>
          let s1 := if socketMade then set_sockets (S (sockets s0)) s0 else s0 in
          retry 5000
            (io_emit (ErrorEvent (js "Erro ao inicializar: " ++ message)) s1)
      end
  end.

(** The callback of the [k]-th timer: [initialize] is called. *)
Definition retry_timer (k : nat) (s : Session) : Session :=
  match timers s !! k with
  | Some (due, false) =>
      if (due <=? now (service s))%Z
      then set_pending (S (pending s)) (set_timers (<[k := (due, true)]> (timers s)) s)
      else s
  | _ => s
  end.

Definition equals (text : string) (x : option jsstring) : bool :=
  match x with Some v => str_eqb v (js text) | None => false end.

Section handler.

(** [DisconnectReason.loggedOut] *)
Variable loggedOut : Z.

(** The handler of [connection.update], from its resumption after
    [await QRCode.toDataURL(qr)] when [qr] is set (nothing is written
    before), [qrImage] being what that call gave. *)
Definition on_connection_update (update : Update) (qrImage : Settled jsstring)
    (s : Session) : Session :=
  let s1 :=
    if truthy_opt (qr update) then
      match qrImage with
      | Resolved image => io_emit (QrCode (Some image)) s
      | Rejected _ => s
      end
    else s in
  if equals "close" (connection update) then
    let s2 :=
      io_emit (ConnectionStatus (js "disconnected"))
        (set_service (set_isConnected false (service s1)) s1) in
    let shouldReconnect :=
      match boom update with
      | Some statusCode => negb (statusCode =? loggedOut)%Z
      | None => true
      end in
    let reconnect :=
      if shouldReconnect && (retryCount s2 <? maxRetries s2)
      then setTimeout_initialize 3000 (set_retryCount (S (retryCount s2)) s2)
      else s2 in
    match boom update with
    | Some reason =>
        if (reason =? loggedOut)%Z then io_emit LoggedOut s2 else reconnect
    | None => reconnect
    end
  else if equals "open" (connection update) then
    io_emit (QrCode None)
      (io_emit (ConnectionStatus (js "connected"))
         (set_retryCount 0
            (set_service (set_isConnected true (service s1)) s1)))
  else s1.

(** [disconnect()]: nothing without a socket; the logout itself is the
    socket's affair. *)
Definition disconnect (s : Session) : Session :=
  if 0 <? sockets s
  then set_service (WhatsAppService.disconnect (service s)) s
  else s.

(** What can happen to the service: the connection side, and the
    campaign side with the clock. *)
Inductive Act :=
  | CallInitialize
  | InitializeSettled (o : Initialized)
  | RetryTimer (k : nat)
  | OnConnectionUpdate (update : Update) (qrImage : Settled jsstring)
  | CallDisconnect
  | Engine (a : Action).

Definition step (s : Session) (a : Act) : Session :=
  match a with
  | CallInitialize => set_pending (S (pending s)) s
  | InitializeSettled o => initialize_settled o s
  | RetryTimer k => retry_timer k s
  | OnConnectionUpdate update qrImage => on_connection_update update qrImage s
  | CallDisconnect => disconnect s
  | Engine a => set_service (WhatsAppService.step (service s) a) s
  end.

Definition exec (s : Session) (schedule : list Act) : Session :=
  fold_left step schedule s.

End handler.
End Session.

(** ** The routes of [app.js]

    The four POST handlers and the two variables they share. *)

Module App.
Import CSVService WhatsAppService.

(** [String(n)] for a non-negative integer. *)
Fixpoint decimal_digits (fuel n : nat) (acc : jsstring) : jsstring :=
  match fuel with
  | 0 => acc
  | S fuel' =>
      let acc' := N.of_nat (48 + n mod 10) :: acc in
      if n / 10 =? 0 then acc' else decimal_digits fuel' (n / 10) acc'
  end.

Definition decimal (n : nat) : jsstring := decimal_digits (S n) n [].

(** [(size / 1024 / 1024).toFixed(2)]: both divisions are exact on a
    double, and [toFixed(2)] takes the integer [n] nearest to 100 times
    that value, the larger one of two, and writes [n / 100] with two
    decimals. *)
Definition megabytes (size : N) : jsstring :=
  let n := ((200 * size + 2 ^ 20) / 2 ^ 21)%N in
  decimal (N.to_nat (n / 100)) ++ js "."
  ++ [(48 + n mod 100 / 10)%N; (48 + n mod 10)%N].

(** [req.file], as multer leaves it. *)
Record File := mkFile {
  path : jsstring;
  filename : jsstring;
  size : N;
  mimetype : jsstring
}.

Record UploadedCSV := mkUploadedCSV {
  csv_path : jsstring;
  contacts : list Contact;
  totalContacts : nat;
  validContacts : nat;
  invalidContacts : nat
}.

Record UploadedImage := mkUploadedImage {
  image_path : jsstring;
  image_filename : jsstring;
  image_size : N;
  image_type : jsstring
}.

(** The field [message] of a request body: absent, a string, or another
    JSON value, of which only the truth value matters.  The body itself,
    [req.body], is an [option Json]: [None] when the request has none
    ([req.body] is then undefined). *)
Inductive Json :=
  | JUndefined
  | JString (text : jsstring)
  | JOther (truth : bool).

(** The object given to [res.json]. *)
Inductive Body :=
  | ErrorBody (error : jsstring)
  | CsvBody (message : jsstring) (validContacts invalidContacts : nat)
      (preview : list Contact)
  | ImageBody (message filename size : jsstring)
  | SuccessBody (message : jsstring).

Record Response := mkResponse {
  status : nat;
  body : Body
}.

Inductive Route :=
  | UploadCsv
  | UploadImage
  | StartCampaign
  | StopCampaign.

(** The module's state: the service, the two upload variables, the calls
    of [startBulkSend] that a request of [/start-campaign] awaits, and the
    responses sent so far. *)
Record State := mkState {
  whatsappService : Service;
  uploadedCSV : option UploadedCSV;
  uploadedImage : option UploadedImage;
  waiting : list nat;
  replies : list (Route * Response)
}.

Definition init (t0 : Z) : State :=
  mkState (WhatsAppService.new t0) None None [] [].

Definition set_whatsappService (v : Service) (st : State) : State :=
  mkState v (uploadedCSV st) (uploadedImage st) (waiting st) (replies st).

Definition set_uploadedCSV (v : UploadedCSV) (st : State) : State :=
  mkState (whatsappService st) (Some v) (uploadedImage st) (waiting st)
    (replies st).

Definition set_uploadedImage (v : UploadedImage) (st : State) : State :=
  mkState (whatsappService st) (uploadedCSV st) (Some v) (waiting st)
    (replies st).

Definition set_waiting (v : list nat) (st : State) : State :=
  mkState (whatsappService st) (uploadedCSV st) (uploadedImage st) v
    (replies st).

(** [res.status(code).json(body)] *)
Definition reply (route : Route) (code : nat) (b : Body) (st : State) : State :=
  mkState (whatsappService st) (uploadedCSV st) (uploadedImage st) (waiting st)
    (replies st ++ [(route, mkResponse code b)]).

(** [POST /upload-csv], from the settling of [parseCSV]; while the promise
    is not settled the handler stays in its [await], and nothing is
    answered. *)
Definition upload_csv (file : option File) (file_exists : bool)
    (rows : list Row) (fin : StreamEnd) (st : State) : State :=
  match file with
  | None => reply UploadCsv 400 (ErrorBody (js "Nenhum arquivo CSV enviado")) st
  | Some f =>
      match parseCSV file_exists rows fin with
      | Some (inr contacts) =>
          let validation := validateContacts contacts in
          let st1 :=
            set_uploadedCSV
              (mkUploadedCSV (path f) (valid validation) (length contacts)
                 (length (valid validation)) (invalid validation)) st in
          reply UploadCsv 200
            (CsvBody
               (decimal (length (valid validation)) ++ js " n" ++ [250%N]
                ++ js "meros v" ++ [225%N] ++ js "lidos de "
                ++ decimal (length contacts) ++ js " total")
               (length (valid validation)) (invalid validation)
               (take 5 (valid validation)))
            st1
      | Some (inl message) => reply UploadCsv 500 (ErrorBody message) st
      | None => st
      end
  end.

(** [POST /upload-image] *)
Definition upload_image (file : option File) (st : State) : State :=
  match file with
  | None => reply UploadImage 400 (ErrorBody (js "Nenhuma imagem enviada")) st
  | Some f =>
      reply UploadImage 200
        (ImageBody (js "Imagem carregada com sucesso") (filename f)
           (megabytes (size f) ++ js "MB"))
        (set_uploadedImage
           (mkUploadedImage (path f) (filename f) (size f) (mimetype f)) st)
  end.

(** The code after [await whatsappService.startBulkSend(...)], for the
    calls that have returned. *)
Definition started_body (st : State) : Body :=
  SuccessBody
    (js "Campanha iniciada para "
     ++ decimal (default 0 (validContacts <$> uploadedCSV st))
     ++ js " contatos v" ++ [225%N] ++ js "lidos").

Definition resume_requests (st : State) : State :=
  fold_left
    (λ st run,
       match tasks (whatsappService st) !! run with
       | Some None =>
           reply StartCampaign 200 (started_body st)
             (set_waiting (List.filter (λ r, negb (r =? run)) (waiting st)) st)
       | _ => st
       end)
    (waiting st) st.

(** The messages of the two TypeErrors the handler of [/start-campaign]
    can throw, which are the engine's: of [const { message } = req.body] on
    a request without body, and of [message.trim()] on a value that is not
    a string. *)
Record TypeErrors := mkTypeErrors {
  no_body : jsstring;
  not_a_string : jsstring
}.

Section routes.

Variable type_error : TypeErrors.

(** [POST /start-campaign], up to the first suspension of the call of
    [startBulkSend].  The whole handler is in a [try]: what it throws is
    answered 500 with the message of the error. *)
Definition start_campaign (body : option Json) (rnd : nat -> nat) (st : State)
  : State :=
  match body with
  | None => reply StartCampaign 500 (ErrorBody (no_body type_error)) st
  | Some message =>
      match uploadedCSV st, uploadedImage st with
      | None, _ =>
          reply StartCampaign 400
            (ErrorBody (js "CSV n" ++ [227%N] ++ js "o carregado")) st
      | Some _, None =>
          reply StartCampaign 400
            (ErrorBody (js "Imagem n" ++ [227%N] ++ js "o carregada")) st
      | Some csv, Some image =>
          let required :=
            reply StartCampaign 400
              (ErrorBody (js "Mensagem " ++ [233%N] ++ js " obrigat" ++ [243%N]
                          ++ js "ria")) st in
          match message with
          | JUndefined => required
          | JOther false => required
          | JOther true =>
              reply StartCampaign 500 (ErrorBody (not_a_string type_error)) st
          | JString text =>
              if negb (truthy text) || (length (trim text) =? 0) then required
              else if negb (isConnected (whatsappService st)) then
                reply StartCampaign 400
                  (ErrorBody (js "WhatsApp n" ++ [227%N] ++ js "o est"
                              ++ [225%N] ++ js " conectado")) st
              else
                let run := length (tasks (whatsappService st)) in
                match startBulkSend (contacts csv) (Some (image_path image))
                        (Some (trim text)) None rnd (whatsappService st) with
                | (_, Some error) =>
                    reply StartCampaign 500 (ErrorBody error) st
                | (service, None) =>
                    resume_requests
                      (set_waiting (waiting st ++ [run])
                         (set_whatsappService service st))
                end
          end
      end
  end.

(** [POST /stop-campaign] *)
Definition stop_campaign (st : State) : State :=
  reply StopCampaign 200 (SuccessBody (js "Campanha interrompida"))
    (set_whatsappService (stopBulkSend (whatsappService st)) st).

(** What happens to the application: a request is handled, a suspended
    call of [startBulkSend] is resumed, the connection handler writes
    [isConnected], time passes.  (The handler of SIGINT ends the
    process.) *)
Inductive Happening :=
  | PostUploadCsv (file : option File) (file_exists : bool) (rows : list Row)
      (fin : StreamEnd)
  | PostUploadImage (file : option File)
  | PostStartCampaign (body : option Json) (rnd : nat -> nat)
  | PostStopCampaign
  | Settles (run : nat) (w : World) (delay : Z)
  | Fires (run : nat)
  | Passes (ms : N)
  | Connection (open : bool).

(** The happenings that are not requests, for the engine. *)
Definition background (h : Happening) : option Action :=
  match h with
  | Settles run w delay => Some (SendSettled run w delay)
  | Fires run => Some (TimerFired run)
  | Passes ms => Some (Tick ms)
  | Connection open => Some (ConnectionUpdate open)
  | _ => None
  end.

Definition step (st : State) (h : Happening) : State :=
  match h with
  | PostUploadCsv file file_exists rows fin =>
      upload_csv file file_exists rows fin st
  | PostUploadImage file => upload_image file st
  | PostStartCampaign body rnd => start_campaign body rnd st
  | PostStopCampaign => stop_campaign st
  | _ =>
      match background h with
      | Some a =>
          resume_requests
            (set_whatsappService (WhatsAppService.step (whatsappService st) a)
               st)
      | None => st
      end
  end.

Definition exec (st : State) (schedule : list Happening) : State :=
  fold_left step schedule st.

End routes.
End App.

(** * Statements

    What the theorems below are stated with: observations of the event
    record, the invariant of a run, and the values the specification
    gives where they are compared with the code's. *)

(** The allow-list as the specification enumerates it. *)
Definition claimed_area_codes : list Z :=
  [11;12;13;14;15;16;17;18;19;21;22;24;27;28;31;32;33;34;35;37;38;41;42;43;44;
   45;46;47;48;49;51;53;54;55;61;62;63;64;65;66;67;68;69;71;73;74;75;77;79;81;
   82;83;84;85;86;87;88;89;91;92;93;94;95;96;97;98;99]%Z.

(** The index choices of the iterations up to [i]. *)
Definition choices_upto (i : nat) (rnd : nat -> nat) : Prop :=
  ∀ k, 0 < k ≤ i → rnd k ≤ k.

Section Statements.
Import CSVService WhatsAppService Float64.

Definition address_of (contact : Contact) : jsstring :=
  number contact ++ js "@s.whatsapp.net".

(** The conditions of the three [if]s of [sendMessage]. *)
Definition image_due (w : World) (imagePath : option jsstring) : bool :=
  match imagePath with Some p => truthy p && existsSync w p | None => false end.

Definition audio_due (w : World) (audioPath : option jsstring) : bool :=
  match audioPath with Some p => truthy p && existsSync w p | None => false end.

Definition text_due (imagePath audioPath message : option jsstring) : bool :=
  match message with
  | Some text =>
      negb (truthy_opt imagePath) && negb (truthy_opt audioPath)
      && truthy text && negb (str_eqb (trim text) [])
  | None => false
  end.

(** The file a path names, when reading it succeeds. *)
Definition file_of (w : World) (path : option jsstring) : list N :=
  match path with
  | Some p => match readFileSync w p with Resolved b => b | Rejected _ => [] end
  | None => []
  end.

Definition image_dispatch (w : World) (contact : Contact)
    (imagePath message : option jsstring) : Dispatch :=
  mkDispatch (address_of contact)
    (ImageMessage (file_of w imagePath) message
       (image_mimetype (extname_lower w (default [] imagePath)))).

Definition audio_dispatch (w : World) (contact : Contact)
    (audioPath : option jsstring) : Dispatch :=
  mkDispatch (address_of contact)
    (AudioMessage (file_of w audioPath) (js "audio/mp4") true).

Definition text_dispatch (contact : Contact) (message : option jsstring)
  : Dispatch :=
  mkDispatch (address_of contact) (TextMessage (default [] message)).

(** A world where the file system and the socket never fail. *)
Definition reliable (w : World) : Prop :=
  (∀ p, ∃ b, readFileSync w p = Resolved b)
  ∧ (∀ j c, sock_sendMessage w j c = Resolved ()).

(** The address check of [sendMessage] passes. *)
Definition registered (w : World) (contact : Contact) : Prop :=
  onWhatsApp w (address_of contact) = Resolved (Some true).

(** A message that is absent or made of white space only. *)
Definition blank (message : option jsstring) : Prop :=
  match message with
  | Some text => Forall (λ c, is_space c = true) text
  | None => True
  end.

Definition is_start (a : Action) : bool :=
  match a with CallStart _ _ _ _ _ => true | _ => false end.

Definition is_cancel (a : Action) : bool :=
  match a with CallStop | CallDisconnect => true | _ => false end.

Definition no_start (schedule : list Action) : bool :=
  forallb (λ a, negb (is_start a)) schedule.

Definition no_cancel (schedule : list Action) : bool :=
  forallb (λ a, negb (is_cancel a)) schedule.

(** No call of [startBulkSend] is in progress. *)
Definition idle (s : Service) : bool :=
  forallb (λ t, match t with None => true | Some _ => false end) (tasks s).

(** The counters carried by the progress events, in order. *)
Definition progress_counts (evs : list (option nat * Event)) : list (nat * nat) :=
  omap (λ e, match e.2 with
             | CampaignProgress sent failed _ _ _ _ => Some (sent, failed)
             | _ => None
             end) evs.

(** The counters and total carried by the terminal events. *)
Definition finished_counts (evs : list (option nat * Event))
  : list (nat * nat * nat) :=
  omap (λ e, match e.2 with
             | CampaignFinished sent failed total _ => Some (sent, failed, total)
             | _ => None
             end) evs.

(** Each pair of counters is the previous one with [sent] or [failed]
    incremented, from [(sent, failed)] on. *)
Fixpoint climbs (sent failed : nat) (counts : list (nat * nat)) : Prop :=
  match counts with
  | [] => True
  | (sent', failed') :: counts' =>
      ((sent' = S sent ∧ failed' = failed) ∨ (sent' = sent ∧ failed' = S failed))
      ∧ climbs sent' failed' counts'
  end.

(** The schedule of a run left alone: each attempt settles, the delay
    elapses, the timer fires. *)
Definition full_schedule (run : nat) (ws : list (World * Z)) : list Action :=
  ws ≫= λ wd, [SendSettled run wd.1 wd.2; Tick (Z.to_N wd.2); TimerFired run].

(** The call [run] is in the attempt of index [k]. *)
Definition attempting (s : Service) (run k : nat) : Prop :=
  ∃ t, tasks s !! run = Some (Some t) ∧ at_ t = InSend ∧ i t = k.

(** The campaign record after one more attempt. *)
Definition counted (res : Settled bool) (c : Campaign) : Campaign :=
  match res with
  | Resolved _ =>
      mkCampaign (contacts c) (imagePath c) (message c) (S (sent c)) (failed c)
        (total c) (startTime c)
  | Rejected _ =>
      mkCampaign (contacts c) (imagePath c) (message c) (sent c) (S (failed c))
        (total c) (startTime c)
  end.

Definition error_of (res : Settled bool) : option jsstring :=
  match res with Resolved _ => None | Rejected m => Some m end.

(** The progress event of an attempt of [run] on [contact] that ended
    as [res], [c] being the campaign record before. *)
Definition progress_event (run : nat) (contact : Contact) (res : Settled bool)
    (c : Campaign) : option nat * Event :=
  (Some run,
   CampaignProgress (sent (counted res c)) (failed (counted res c)) (total c)
     (number contact) (error_of res)
     (Math_round
        (mul (div (of_Z (Z.of_nat (sent (counted res c))
                         + Z.of_nat (failed (counted res c))))
                  (of_Z (Z.of_nat (total c))))
             (of_Z 100)))).

(** The percentage as the specification words it: 100 × (sent + failed) /
    total, rounded to the nearest integer, halves upwards. *)
Definition claimed_progress (sent failed total : nat) : Z :=
  (200 * (Z.of_nat sent + Z.of_nat failed) + Z.of_nat total)
  / (2 * Z.of_nat total).

(** [done] of [total]: the percentage reported is a nearest integer of the
    exact one, and the claimed one unless the exact one lies half-way
    between two integers. *)
Definition progress_near (total done : nat) : bool :=
  let n := Z.of_nat total in
  let k := Z.of_nat done in
  match progress_of done 0 total with
  | RInt z =>
      (2 * Z.abs (z * n - 100 * k) <=? n)%Z
      && (((200 * k) mod (2 * n) =? n)%Z
          || (z =? claimed_progress done 0 total)%Z)
  | _ => false
  end.

Definition progress_near_upto (bound : nat) : bool :=
  forallb (λ total, forallb (progress_near total) (seq 0 (S total)))
    (seq 1 bound).

Section run_invariant.
Variables (n run : nat) (log0 : list (option nat * Event)).

(** Where the loop is, against the counters. *)
Definition phase (t : Task) (c : Campaign) : Prop :=
  match at_ t with
  | InSend => sent c + failed c = i t ∧ i t < n
  | InSleep _ => sent c + failed c = S (i t) ∧ S (i t) < n
  end.

(** The call [run] is the only one in progress; [q] tells that no stop
    was requested so far. *)
Definition live (q : bool) (s : Service) (c : Campaign)
    (evs : list (option nat * Event)) : Prop :=
  ∃ t, tasks s !! run = Some (Some t)
    ∧ (∀ r t', tasks s !! r = Some (Some t') → r = run)
    ∧ length (shuffledContacts t) = n
    ∧ finished_counts evs = []
    ∧ phase t c
    ∧ (q = true → isSending s = true).

(** The call has returned. *)
Definition over (q : bool) (s : Service) (c : Campaign)
    (evs : list (option nat * Event)) : Prop :=
  (∀ r t', tasks s !! r = Some (Some t') → False)
  ∧ isSending s = false
  ∧ finished_counts evs = [(sent c, failed c, n)]
  ∧ (q = true → sent c + failed c = n).

(** The invariant of one run over [n] contacts, [log0] being what was
    emitted before it. *)
Definition run_inv (q : bool) (s : Service) : Prop :=
  ∃ evs c,
    emitted s = log0 ++ evs ∧ currentCampaign s = Some c ∧ total c = n
    ∧ climbs 0 0 (progress_counts evs)
    ∧ default (0, 0) (last (progress_counts evs)) = (sent c, failed c)
    ∧ sent c + failed c ≤ n
    ∧ (live q s c evs ∨ over q s c evs).

End run_invariant.

(** ** Sample values *)

Definition contact_of (n : string) : Contact := mkContact (js n) (js n) ∅.

Definition ana : Contact := contact_of "5511999999999".
Definition bia : Contact := contact_of "5521988888888".

(** Every number is registered, every file is there, every send succeeds. *)
Definition all_well : World :=
  mkWorld (λ _, Resolved (Some true)) (λ _, true) (λ _, Resolved [255; 216]%N)
    (λ _, js ".png") (λ _ _, Resolved ()).

(** No number is registered. *)
Definition nobody_there : World :=
  mkWorld (λ _, Resolved (Some false)) (λ _, true) (λ _, Resolved [255; 216]%N)
    (λ _, js ".png") (λ _ _, Resolved ()).

(** A fresh service whose connection is open. *)
Definition connected : Service := set_isConnected true (new 0).

(** The shuffle choices that are all [0]. *)
Definition zeros : nat -> nat := λ _, 0.

End Statements.

(** ** The normal form and the pipeline *)

Section CSVStatements.
Import CSVService.

(** The number read from the two digits at indices [k] and [k + 1]. *)
Definition two_digits (d : jsstring) (k : nat) : option Z :=
  match d !! k, d !! S k with
  | Some a, Some b => Some (10 * digit_val a + digit_val b)%Z
  | _, _ => None
  end.

(** A field of the CSV ends in the list of valid contacts. *)
Definition accepted (phoneStr : jsstring) : bool :=
  match cleanPhoneNumber phoneStr with
  | Some cleanNumber => isValidBrazilianNumber cleanNumber
  | None => false
  end.

(** The area code of a digit string is listed. *)
Definition area_listed (d : jsstring) (k : nat) : Prop :=
  ∃ z, two_digits d k = Some z ∧ z ∈ validDDDs.

(** A field that is absent or empty: [||] goes on to the next one. *)
Definition no_field (x : option jsstring) : Prop := x = None ∨ x = Some [].

(** [text] is the first of the fields [number], [Number] and [NUMBER] of
    [row] that is there and not empty. *)
Definition number_field (row : Row) (text : jsstring) : Prop :=
  text ≠ []
  ∧ (row !! js "number" = Some text
     ∨ (no_field (row !! js "number") ∧ row !! js "Number" = Some text)
     ∨ (no_field (row !! js "number") ∧ no_field (row !! js "Number")
        ∧ row !! js "NUMBER" = Some text)).

End CSVStatements.

(** ** One call of [sendMessage] *)

Section SendStatements.
Import CSVService WhatsAppService.

(** What one [sendMessage] call hands to the socket when nothing fails. *)
Definition due_dispatches (w : World) (contact : Contact)
    (imagePath audioPath message : option jsstring) : list Dispatch :=
  (if image_due w imagePath
   then [image_dispatch w contact imagePath message] else [])
  ++ (if audio_due w audioPath then [audio_dispatch w contact audioPath] else [])
  ++ (if text_due imagePath audioPath message
      then [text_dispatch contact message] else []).

(** The socket took the message. *)
Definition delivered (w : World) (d : Dispatch) : Prop :=
  sock_sendMessage w (jid d) (content d) = Resolved ().

End SendStatements.

(** ** The record of a run *)

Section RunStatements.
Import CSVService WhatsAppService Float64.

(** What the attempts of [run] that settle in a schedule meet, in order. *)
Definition settled_worlds (run : nat) (schedule : list Action) : list World :=
  omap (λ a, match a with
             | SendSettled r w _ => if decide (r = run) then Some w else None
             | _ => None
             end) schedule.

(** The outcomes of the attempts on the first contacts of [L], [ws] being
    what each of them met. *)
Definition run_results (ip ap msg : option jsstring) (ws : list World)
    (L : list Contact) : list (Contact * Settled bool) :=
  zip_with (λ w contact, (contact, snd (sendMessage w contact ip ap msg))) ws L.

(** What these attempts handed to the socket. *)
Definition run_dispatches (ip ap msg : option jsstring) (ws : list World)
    (L : list Contact) : list Dispatch :=
  concat (zip_with (λ w contact, fst (sendMessage w contact ip ap msg)) ws L).

Definition resolved {A} (r : Settled A) : bool :=
  match r with Resolved _ => true | Rejected _ => false end.

(** How many of the attempts resolved, and how many were rejected. *)
Definition sent_of (rs : list (Contact * Settled bool)) : nat :=
  length (List.filter (λ x, resolved x.2) rs).

Definition failed_of (rs : list (Contact * Settled bool)) : nat :=
  length (List.filter (λ x, negb (resolved x.2)) rs).

(** The progress events of these attempts, the counters being [sent] and
    [failed] before them. *)
Fixpoint progress_trail (run total sent failed : nat)
    (rs : list (Contact * Settled bool)) : list (option nat * Event) :=
  match rs with
  | [] => []
  | (contact, res) :: rs' =>
      let sent' := if resolved res then S sent else sent in
      let failed' := if resolved res then failed else S failed in
      (Some run,
       CampaignProgress sent' failed' total (number contact) (error_of res)
         (progress_of sent' failed' total))
      :: progress_trail run total sent' failed' rs'
  end.

(** The events but the stop notices. *)
Definition lifecycle (evs : list (option nat * Event))
  : list (option nat * Event) :=
  List.filter (λ e, match e.2 with CampaignStopped => false | _ => true end) evs.

(** A stop notice. *)
Definition is_stopped (e : option nat * Event) : bool :=
  match e.2 with CampaignStopped => true | _ => false end.

(** The iterations [0 .. k - 1] of the call [run]. *)
Definition iterations (run k : nat) : list (nat * nat) :=
  (λ i, (run, i)) <$> seq 0 k.

Section run_trace.
Variables (L : list Contact) (ip ap msg : option jsstring) (run : nat) (t0 : Z).
Variables (att0 : list (nat * nat)) (disp0 : list Dispatch).
Variable (log0 : list (option nat * Event)).

Definition opening : option nat * Event :=
  (Some run, CampaignStarted (length L) t0).

(** The call is suspended, [ws] attempts having settled. *)
Definition underway (q : bool) (ws : list World) (s : Service)
    (evs : list (option nat * Event)) : Prop :=
  ∃ t, tasks s !! run = Some (Some t)
    ∧ (∀ r t', tasks s !! r = Some (Some t') → r = run)
    ∧ shuffledContacts t = L
    ∧ t_imagePath t = ip ∧ t_audioPath t = ap ∧ t_message t = msg
    ∧ lifecycle evs
      = opening :: progress_trail run (length L) 0 0 (run_results ip ap msg ws L)
    ∧ (q = true → isSending s = true)
    ∧ match at_ t with
      | InSend =>
          i t = length ws ∧ i t < length L
          ∧ attempted s = att0 ++ iterations run (S (length ws))
      | InSleep _ =>
          S (i t) = length ws ∧ S (i t) < length L
          ∧ attempted s = att0 ++ iterations run (length ws)
      end.

(** The call has returned. *)
Definition returned (q : bool) (ws : list World) (s : Service)
    (evs : list (option nat * Event)) : Prop :=
  (∀ r t', tasks s !! r = Some (Some t') → False)
  ∧ isSending s = false
  ∧ (∃ endTime,
       lifecycle evs
       = opening :: progress_trail run (length L) 0 0 (run_results ip ap msg ws L)
         ++ [(Some run,
              CampaignFinished (sent_of (run_results ip ap msg ws L))
                (failed_of (run_results ip ap msg ws L)) (length L)
                (duration_of endTime t0))])
  ∧ attempted s = att0 ++ iterations run (length ws)
  ∧ (q = true → length ws = length L).

(** The record of one run over the shuffled list [L]: [ws] is what the
    attempts settled so far have met. *)
Definition trace_inv (q : bool) (ws : list World) (s : Service) : Prop :=
  ∃ evs c,
    emitted s = log0 ++ evs
    ∧ currentCampaign s = Some c ∧ total c = length L ∧ startTime c = t0
    ∧ sent c = sent_of (run_results ip ap msg ws L)
    ∧ failed c = failed_of (run_results ip ap msg ws L)
    ∧ dispatched s = disp0 ++ run_dispatches ip ap msg ws L
    ∧ length ws ≤ length L
    ∧ (underway q ws s evs ∨ returned q ws s evs).

End run_trace.
End RunStatements.

(** ** The connection side *)

Section SessionStatements.
Import CSVService WhatsAppService Session.

Definition closes (update : Update) : bool := equals "close" (connection update).

Definition opens (update : Update) : bool :=
  negb (equals "close" (connection update)) && equals "open" (connection update).

(** The updates of a schedule that open the connection. *)
Definition opened (schedule : list Act) : nat :=
  length (List.filter (λ a, match a with
                            | OnConnectionUpdate update _ => opens update
                            | _ => false
                            end) schedule).

(** What can make the service call [initialize] again: a call of it that
    failed, and a connection closed for another reason than a logout. *)
Definition retry_cause (loggedOut : Z) (a : Act) : bool :=
  match a with
  | InitializeSettled (InitFailed _ _) => true
  | OnConnectionUpdate update _ =>
      closes update
      && match boom update with
         | Some statusCode => negb (statusCode =? loggedOut)%Z
         | None => true
         end
  | _ => false
  end.

Definition retry_causes (loggedOut : Z) (schedule : list Act) : nat :=
  length (List.filter (retry_cause loggedOut) schedule).

(** Nothing in the schedule opens or closes the connection. *)
Definition quiet (schedule : list Act) : bool :=
  forallb (λ a, match a with
                | OnConnectionUpdate update _ =>
                    negb (closes update) && negb (opens update)
                | Engine (ConnectionUpdate _) => false
                | _ => true
                end) schedule.

(** What one step of the service is for the campaign engine. *)
Definition engine_view (s : Session) (a : Act) : list Action :=
  match a with
  | Engine e => [e]
  | OnConnectionUpdate update _ =>
      if closes update then [ConnectionUpdate false]
      else if opens update then [ConnectionUpdate true]
      else []
  | Session.CallDisconnect =>
      if 0 <? sockets s then [WhatsAppService.CallDisconnect] else []
  | _ => []
  end.

Fixpoint engine_trace (loggedOut : Z) (s : Session) (schedule : list Act)
  : list Action :=
  match schedule with
  | [] => []
  | a :: schedule' =>
      engine_view s a
      ++ engine_trace loggedOut (Session.step loggedOut s a) schedule'
  end.

(** The calls of [startBulkSend] of a schedule. *)
Definition starts (schedule : list Act) : list Action :=
  omap (λ a, match a with
             | Engine e => if is_start e then Some e else None
             | _ => None
             end) schedule.

(** The status of the last [connection-status] event. *)
Definition last_status (evs : list IoEvent) : option jsstring :=
  last (omap (λ e, match e with
                   | ConnectionStatus status => Some status
                   | _ => None
                   end) evs).

(** The schedule writes [isConnected] through the handler only. *)
Definition handled (schedule : list Act) : bool :=
  forallb (λ a, match a with
                | Engine (ConnectionUpdate _) => false
                | _ => true
                end) schedule.

(** What was last announced is what [isConnected] says. *)
Definition announced (s : Session) : Prop :=
  if isConnected (service s)
  then last_status (io s) = Some (js "connected")
  else last_status (io s) = None
       ∨ last_status (io s) = Some (js "disconnected").

End SessionStatements.

(** ** The application *)

Section AppStatements.
Import CSVService WhatsAppService App.

(** A contact whose number passes the validator. *)
Definition validated (c : Contact) : Prop :=
  isValidBrazilianNumber (number c) = true.

(** Two frames of the same call: the list and the payload do not change
    while the loop runs. *)
Definition same_job (t' t : Task) : Prop :=
  shuffledContacts t' = shuffledContacts t ∧ t_imagePath t' = t_imagePath t
  ∧ t_audioPath t' = t_audioPath t ∧ t_message t' = t_message t.

(** A message that carries no text: an image without caption, or a voice
    note. *)
Definition wordless (d : Dispatch) : Prop :=
  match content d with
  | ImageMessage _ caption _ => caption = None
  | AudioMessage _ _ _ => True
  | TextMessage _ => False
  end.

(** The calls in progress run over validated contacts, without a
    message, and so did the calls before. *)
Definition service_inv (s : Service) : Prop :=
  (∀ r t, tasks s !! r = Some (Some t) →
     Forall validated (shuffledContacts t) ∧ t_message t = None)
  ∧ (∀ d, d ∈ dispatched s →
       (∃ c, validated c ∧ jid d = address_of c) ∧ wordless d).

(** What holds of the application whatever happens. *)
Definition app_inv (st : State) : Prop :=
  (∀ csv, uploadedCSV st = Some csv → Forall validated (App.contacts csv))
  ∧ service_inv (whatsappService st).

(** The request of [/start-campaign] passes every test of the route
    and of [startBulkSend]. *)
Definition ready (st : State) (body : option Json) : Prop :=
  ∃ csv image text,
    uploadedCSV st = Some csv ∧ uploadedImage st = Some image
    ∧ body = Some (JString text) ∧ trim text ≠ []
    ∧ isConnected (whatsappService st) = true
    ∧ isSending (whatsappService st) = false.

(** The responses of [/start-campaign] among [rs]. *)
Definition start_answers (rs : list (Route * Response))
  : list (Route * Response) :=
  List.filter (λ r, match r.1 with StartCampaign => true | _ => false end) rs.

Definition no_start_request (schedule : list Happening) : bool :=
  forallb (λ h, match h with PostStartCampaign _ _ => false | _ => true end)
    schedule.

(** What a happening other than [/start-campaign] is for the engine. *)
Definition engine_of (h : Happening) : option Action :=
  match h with
  | PostStopCampaign => Some CallStop
  | _ => background h
  end.

(** The request of [/start-campaign] that awaits the call [run] has not
    been answered, the call being in progress, or has been, the call
    having returned; [new] is what was answered since the request. *)
Definition awaiting (run : nat) (st : State) (new : list (Route * Response))
  : Prop :=
  ((∃ t, tasks (whatsappService st) !! run = Some (Some t))
   ∧ waiting st = [run] ∧ start_answers new = [])
  ∨ (tasks (whatsappService st) !! run = Some None
     ∧ waiting st = []
     ∧ ∃ n, start_answers new
            = [(StartCampaign,
                mkResponse 200
                  (SuccessBody (js "Campanha iniciada para " ++ decimal n
                                ++ js " contatos v" ++ [225%N] ++ js "lidos")))]).

End AppStatements.

(** ** More sample values *)

Section Samples.
Import CSVService WhatsAppService.

(** The socket refuses voice notes. *)
Definition no_voice : World :=
  mkWorld (λ _, Resolved (Some true)) (λ _, true) (λ _, Resolved [255; 216]%N)
    (λ _, js ".png")
    (λ _ c, match c with
            | AudioMessage _ _ _ => Rejected (js "timeout")
            | _ => Resolved ()
            end).

Definition sample_row : Row := {[ js "number" := js "(11) 99999-9999" ]}.

Definition sample_contact : Contact :=
  mkContact (js "5511999999999") (js "(11) 99999-9999") sample_row.

Definition sample_csv : App.File :=
  App.mkFile (js "uploads/1-contatos.csv") (js "1-contatos.csv") 24 (js "text/csv").

Definition sample_image : App.File :=
  App.mkFile (js "uploads/2-promo.png") (js "2-promo.png") 2048 (js "image/png").

(** The messages of the two TypeErrors as V8 words them. *)
Definition v8_errors : App.TypeErrors :=
  App.mkTypeErrors
    (js "Cannot destructure property 'message' of 'req.body' as it is undefined.")
    (js "message.trim is not a function").

(** An upload of each kind, the connection opening, and a campaign. *)
Definition sample_session : list App.Happening :=
  [App.PostUploadCsv (Some sample_csv) true [sample_row] StreamEnded;
   App.PostUploadImage (Some sample_image);
   App.Connection true;
   App.PostStartCampaign (Some (App.JString (js " Oi "))) zeros].

End Samples.

(** * The CSV service *)

Module CSVFacts.
Import CSVService.

(** ** Strings *)

Lemma startsWith_take (s p : jsstring) :
  startsWith s p = true ↔ take (length p) s = p.
Proof.
  revert s; induction p as [|c p IH]; intros [|d s]; simpl; try done.
  rewrite andb_true_iff, IH, N.eqb_eq. split.
  - intros [-> ->]; done.
  - intros [= -> ->]; done.
Qed.

Lemma strip_non_digits_digits (s : jsstring) :
  Forall (λ c, is_digit c = true) (strip_non_digits s).
Proof.
  apply List.Forall_forall. intros c Hc.
  apply List.filter_In in Hc. tauto.
Qed.

Lemma substring_take_drop (s : jsstring) (a b : nat) :
  a ≤ b → b ≤ length s → substring s a b = take (b - a) (drop a s).
Proof.
  intros Hab Hb. unfold substring.
  replace (Nat.min a (length s)) with a by lia.
  replace (Nat.min b (length s)) with b by lia.
  replace (Nat.max a b) with b by lia.
  replace (Nat.min a b) with a by lia. done.
Qed.

Lemma validDDDs_claimed :
  validDDDs = claimed_area_codes ∧ length validDDDs = 67 ∧ NoDup validDDDs.
Proof.
  split; [reflexivity|]. split; [reflexivity|].
  apply (bool_decide_unpack _). vm_compute. exact I.
Qed.

Lemma includes_In (arr : list Z) (x : jsnum) :
  includes arr x = true ↔ ∃ z, x = Some z ∧ z ∈ arr.
Proof.
  destruct x as [z|]; simpl.
  - rewrite existsb_exists. split.
    + intros (y & Hy & Heq). apply Z.eqb_eq in Heq. subst y.
      exists z. split; [done|]. by apply list_elem_of_In.
    + intros (y & [= <-] & Hy). exists z. split; [by apply list_elem_of_In|].
      apply Z.eqb_refl.
  - split; [done|]. intros (z & ? & _). done.
Qed.

Lemma validDDDs_range (z : Z) : z ∈ validDDDs → (11 ≤ z ≤ 99)%Z.
Proof.
  intros Hz.
  assert (Forall (λ z, 11 ≤ z ≤ 99)%Z validDDDs) as HF.
  { unfold validDDDs. repeat (constructor; [lia|]). constructor. }
  rewrite Forall_forall in HF. by apply HF.
Qed.

(** What the validator has checked when it accepts. *)
Lemma isValidBrazilianNumber_accepts (n : jsstring) :
  isValidBrazilianNumber n = true →
  length n = 13 ∧ take 2 n = js "55" ∧ n !! 4 = Some 57%N ∧
  ∃ ddd, parseInt10 (substring n 2 4) = Some ddd ∧ ddd ∈ validDDDs.
Proof.
  unfold isValidBrazilianNumber, str_eqb, charAt.
  destruct (truthy n); simpl; [|done].
  destruct (Nat.eqb_spec (length n) 13) as [Hlen|]; simpl; [|done].
  destruct (startsWith n (js "55")) eqn:Hsw; simpl; [|done].
  apply (startsWith_take n (js "55")) in Hsw.
  destruct (n !! 4) as [c|] eqn:Hc; simpl; [|done].
  case_bool_decide as H9; simpl; [|done].
  destruct (num_lt _ 11 || num_gt _ 99); [done|].
  intros Hin. apply includes_In in Hin. injection H9 as ->. done.
Qed.

(** An accepted number has two decimal digits as its area code: no sign
    or white space is read by [parseInt]. *)
Lemma isValidBrazilianNumber_area_digits (n : jsstring) :
  isValidBrazilianNumber n = true →
  ∃ a b, n !! 2 = Some a ∧ n !! 3 = Some b
         ∧ is_digit a = true ∧ is_digit b = true
         ∧ (10 * digit_val a + digit_val b)%Z ∈ validDDDs.
Proof.
  intros (Hlen & _ & _ & ddd & Hp & Hin)%isValidBrazilianNumber_accepts.
  pose proof (validDDDs_range ddd Hin) as Hr.
  rewrite substring_take_drop in Hp by lia.
  destruct n as [|c0 [|c1 [|a [|b n]]]]; try done.
  exists a, b. split; [done|]. split; [done|].
  cbn [drop take Nat.sub] in Hp. unfold parseInt10 in Hp.
  cbn [trimStart digits_prefix] in Hp.
  assert (∀ c, is_digit c = true → (0 ≤ digit_val c ≤ 9)%Z) as Hdv.
  { intros c. unfold is_digit, digit_val.
    rewrite andb_true_iff, !N.leb_le. lia. }
  repeat match type of Hp with
         | context [if ?t then _ else _] =>
             destruct t eqn:?;
             cbn [trimStart digits_prefix fmap option_fmap option_map default]
               in Hp
         end;
  try done; apply (inj Some) in Hp; subst ddd;
  repeat match goal with
         | H : is_digit ?c = true |- _ =>
             pose proof (Hdv c H); fold (is_digit c) in H; revert H
         end; intros; try lia.
  split; [done|]. split; [done|]. done.
Qed.

Lemma magnitude_one (b : N) : magnitude [b] = digits_prefix [b] None.
Proof.
  unfold magnitude. destruct b as [|p]; [reflexivity|].
  repeat (match goal with p : positive |- _ => destruct p end;
          try reflexivity).
Qed.

Lemma magnitude_other (a : N) (s : jsstring) :
  a ≠ 48%N → magnitude (a :: s) = digits_prefix (a :: s) None.
Proof.
  intros Hne. unfold magnitude. destruct a as [|p]; [reflexivity|].
  repeat (match goal with p : positive |- _ => destruct p end;
          try reflexivity).
  by destruct Hne.
Qed.

(** On two characters [parseInt] with and without the radix 10 agree,
    but on "0x" and "0X", where one gives 0 and the other [NaN]. *)
Lemma parseInt_two (a b : N) :
  parseInt [a; b] = parseInt10 [a; b]
  ∨ (parseInt [a; b] = None ∧ parseInt10 [a; b] = Some 0%Z).
Proof.
  unfold parseInt, parseInt10. cbn [trimStart].
  destruct (is_space a) eqn:Ea; [destruct (is_space b) eqn:Eb|].
  - by left.
  - left. rewrite magnitude_one. by destruct (b =? 45)%N, (b =? 43)%N.
  - rewrite magnitude_one.
    destruct (a =? 45)%N eqn:E45; [by left|].
    destruct (a =? 43)%N eqn:E43; [by left|].
    destruct (decide (a = 48%N)) as [->|Hne].
    + unfold magnitude.
      destruct ((b =? 120) || (b =? 88))%N eqn:Ex; [|by left].
      right. split; [done|]. cbn.
      assert (is_digit b = false) as ->; [|done].
      apply orb_true_iff in Ex as [->%N.eqb_eq| ->%N.eqb_eq]; done.
    + left. by apply magnitude_other.
Qed.

(** The two revisions of the validator accept the same strings. *)
Lemma isValidBrazilianNumber_rev2 (n : jsstring) :
  CSVServiceRev2.isValidBrazilianNumber n = isValidBrazilianNumber n.
Proof.
  unfold CSVServiceRev2.isValidBrazilianNumber, isValidBrazilianNumber.
  destruct (truthy n); cbn [negb]; [|done].
  destruct (Nat.eqb_spec (length n) 13) as [Hlen|]; cbn [negb]; [|done].
  destruct (startsWith n (js "55")); cbn [negb]; [|done].
  rewrite substring_take_drop by lia.
  destruct n as [|c0 [|c1 [|a [|b n]]]]; try done.
  replace (take (4 - 2) (drop 2 (c0 :: c1 :: a :: b :: n))) with [a; b]
    by (cbn; by rewrite take_0).
  assert (∀ x, includes CSVServiceRev2.validDDDs x = includes validDDDs x) as Hl.
  { assert (CSVServiceRev2.validDDDs ≡ₚ validDDDs) as Hperm
      by (apply (bool_decide_unpack _); vm_compute; exact I).
    intros [z|]; [|done]. cbn [includes]. apply eq_true_iff_eq.
    rewrite !existsb_exists.
    split; intros (y & Hy & Hz); exists y; (split; [|done]).
    - eapply Permutation_in; [exact Hperm|done].
    - eapply Permutation_in; [symmetry; exact Hperm|done]. }
  destruct (parseInt_two a b) as [->|[-> ->]].
  - destruct (num_lt _ 11 || num_gt _ 99); [by destruct (negb _)|].
    by rewrite Hl.
  - cbn. by destruct (negb _).
Qed.

Lemma is_digit_not_space (c : N) : is_digit c = true → is_space c = false.
Proof.
  unfold is_digit. rewrite andb_true_iff, !N.leb_le. intros [H1 H2].
  unfold is_space. cbn [existsb].
  repeat match goal with
         | |- context [(c =? ?k)%N] =>
             destruct (N.eqb_spec c k) as [?|_]; [lia|cbn [orb]]
         end.
  done.
Qed.

Lemma parseInt10_two_digits (a b : N) :
  is_digit a = true → is_digit b = true →
  parseInt10 [a; b] = Some (10 * digit_val a + digit_val b)%Z.
Proof.
  intros Ha Hb. unfold parseInt10. cbn [trimStart].
  rewrite (is_digit_not_space a Ha).
  assert (a ≠ 45 ∧ a ≠ 43)%N as [H45 H43].
  { unfold is_digit in Ha. rewrite andb_true_iff, !N.leb_le in Ha. lia. }
  rewrite (proj2 (N.eqb_neq a 45) H45), (proj2 (N.eqb_neq a 43) H43).
  cbn [digits_prefix]. rewrite Ha, Hb. cbn [default]. done.
Qed.

(** C4: the validator accepts a string exactly when it has 13 characters,
    starts with "55", has '9' at index 4, and its characters at indices 2
    and 3 are two decimal digits [x] and [y] (the code units 48 + x and
    48 + y) such that 10 x + y, the integer they denote, is in the
    allow-list of 67 area codes.  (No other two characters parse to a
    listed code: what [parseInt] reads after white space or a sign, or
    before another character, is a single digit at most.) *)
Theorem isValidBrazilianNumber_iff (n : jsstring) :
  isValidBrazilianNumber n = true ↔
    length n = 13 ∧ take 2 n = js "55" ∧ n !! 4 = Some 57%N ∧
    ∃ x y : Z,
      (0 ≤ x ≤ 9)%Z ∧ (0 ≤ y ≤ 9)%Z
      ∧ n !! 2 = Some (Z.to_N (48 + x)) ∧ n !! 3 = Some (Z.to_N (48 + y))
      ∧ (10 * x + y)%Z ∈ claimed_area_codes.
Proof.
  destruct validDDDs_claimed as [<- _]. split.
  - intros H. pose proof (isValidBrazilianNumber_accepts n H)
      as (Hlen & H55 & H4 & _).
    apply isValidBrazilianNumber_area_digits in H
      as (a & b & Ha & Hb & Hda & Hdb & Hin).
    split_and!; try done.
    unfold is_digit in Hda, Hdb.
    rewrite andb_true_iff, !N.leb_le in Hda, Hdb.
    exists (digit_val a), (digit_val b). unfold digit_val in *.
    split_and!; try lia; try done.
    + rewrite Ha. f_equal. lia.
    + rewrite Hb. f_equal. lia.
  - intros (Hlen & H55 & H4 & x & y & Hx & Hy & Ha & Hb & Hin).
    unfold isValidBrazilianNumber, str_eqb, charAt.
    assert (truthy n = true) as -> by (by destruct n).
    rewrite Hlen.
    replace (startsWith n (js "55")) with true
      by (symmetry; by apply (startsWith_take n (js "55"))).
    rewrite H4, bool_decide_eq_true_2 by done.
    rewrite substring_take_drop by lia.
    assert (take (4 - 2) (drop 2 n) = [Z.to_N (48 + x); Z.to_N (48 + y)]) as ->.
    { destruct n as [|c0 [|c1 [|a [|b n]]]]; try done.
      cbn in Ha, Hb. injection Ha as ->. injection Hb as ->.
      cbn. by rewrite take_0. }
    rewrite parseInt10_two_digits
      by (unfold is_digit; rewrite andb_true_iff, !N.leb_le; lia).
    unfold digit_val.
    replace (10 * (Z.of_N (Z.to_N (48 + x)) - 48)
             + (Z.of_N (Z.to_N (48 + y)) - 48))%Z with (10 * x + y)%Z by lia.
    apply validDDDs_range in Hin as Hr.
    unfold num_lt, num_gt.
    replace (10 * x + y <? 11)%Z with false by lia.
    replace (99 <? 10 * x + y)%Z with false by lia.
    cbn [negb Nat.eqb orb].
    apply (includes_In validDDDs (Some (10 * x + y)%Z)). eauto.
Qed.

(** On sample values: 11 is listed, 20 is not, and " 1" is no area
    code. *)
Lemma isValidBrazilianNumber_iff_witness :
  isValidBrazilianNumber (js "5511987654321") = true
  ∧ isValidBrazilianNumber (js "5520987654321") = false
  ∧ isValidBrazilianNumber (js "55 1987654321") = false.
Proof.
  split; [|split].
  - apply (proj2 (isValidBrazilianNumber_iff (js "5511987654321"))).
    split; [reflexivity|]. split; [reflexivity|]. split; [reflexivity|].
    exists 1%Z, 1%Z.
    split; [lia|]. split; [lia|]. split; [reflexivity|].
    split; [reflexivity|].
    apply (bool_decide_unpack _). vm_compute. exact I.
  - apply not_true_is_false.
    intros (_ & _ & _ & x & y & Hx & Hy & Ha & Hb & Hin)
      %(proj1 (isValidBrazilianNumber_iff (js "5520987654321"))).
    cbn in Ha, Hb. injection Ha as Ha. injection Hb as Hb.
    assert (x = 2 ∧ y = 0)%Z as [-> ->] by lia.
    revert Hin. apply (bool_decide_unpack _). vm_compute. exact I.
  - apply not_true_is_false.
    intros (_ & _ & _ & x & y & Hx & Hy & Ha & Hb & Hin)
      %(proj1 (isValidBrazilianNumber_iff (js "55 1987654321"))).
    cbn in Ha. injection Ha as Ha. lia.
Defined.

(** The normalizer, by the number of digits of its argument. *)
Lemma cleanPhoneNumber_by_length (phoneStr : jsstring) :
  let d := strip_non_digits phoneStr in
  cleanPhoneNumber phoneStr
  = if decide (length d = 13 ∧ take 2 d = js "55") then Some d
    else if decide (length d = 11) then Some (js "55" ++ d)
    else if decide (length d = 10)
         then Some (js "55" ++ take 2 d ++ js "9" ++ drop 2 d)
         else None.
Proof.
  intros d. unfold cleanPhoneNumber. fold d.
  destruct (truthy phoneStr) eqn:Ht; cbn [negb].
  2: { destruct phoneStr; [|done]. subst d. simpl.
       repeat (case_decide; [by intuition|]). done. }
  assert (startsWith d (js "55") = bool_decide (take 2 d = js "55")) as ->.
  { destruct (startsWith d (js "55")) eqn:E; symmetry.
    - apply bool_decide_eq_true_2. by apply (startsWith_take d (js "55")).
    - apply bool_decide_eq_false_2. intros H.
      apply (startsWith_take d (js "55")) in H. congruence. }
  destruct (Nat.eqb_spec (length d) 13) as [H13|H13]; cbn [andb].
  - case_bool_decide as H55.
    + by rewrite decide_True.
    + rewrite decide_False by tauto. rewrite H13. done.
  - rewrite decide_False by tauto.
    destruct (Nat.eqb_spec (length d) 11) as [H11|H11];
      [by rewrite decide_True|rewrite decide_False by done].
    destruct (Nat.eqb_spec (length d) 10) as [H10|H10];
      [rewrite decide_True by done|by rewrite decide_False].
    unfold substring_from. rewrite !substring_take_drop by lia.
    rewrite H10. cbn [Nat.sub drop].
    rewrite (take_ge (drop 2 d)) by (rewrite length_drop; lia). done.
Qed.

(** C5: after stripping the non-digits, 13 digits starting with "55" are
    returned unchanged, 11 digits get "55" in front, 10 digits become "55",
    the first two digits, "9" and the last eight digits, and anything else
    gives null. *)
Theorem cleanPhoneNumber_cases (phoneStr : jsstring) :
  let d := strip_non_digits phoneStr in
  (length d = 13 → take 2 d = js "55" → cleanPhoneNumber phoneStr = Some d) ∧
  (length d = 11 → cleanPhoneNumber phoneStr = Some (js "55" ++ d)) ∧
  (length d = 10 →
     cleanPhoneNumber phoneStr
     = Some (js "55" ++ take 2 d ++ js "9" ++ drop (length d - 8) d)) ∧
  ((length d ≠ 10 ∧ length d ≠ 11 ∧ length d ≠ 13)
   ∨ (length d = 13 ∧ take 2 d ≠ js "55") →
     cleanPhoneNumber phoneStr = None).
Proof.
  intros d. rewrite cleanPhoneNumber_by_length. fold d. split_and!.
  - intros H13 H55. by rewrite decide_True.
  - intros H11. rewrite decide_False by lia. by rewrite decide_True.
  - intros H10. rewrite decide_False by lia. rewrite decide_False by lia.
    rewrite decide_True by done. by rewrite H10.
  - intros H. rewrite decide_False by tauto.
    rewrite decide_False by (intros ?; destruct H as [?|[??]]; lia).
    rewrite decide_False by (intros ?; destruct H as [?|[??]]; lia). done.
Qed.

Lemma cleanPhoneNumber_cases_witness :
  cleanPhoneNumber (js "+55 (11) 99999-9999") = Some (js "5511999999999")
  ∧ cleanPhoneNumber (js "(21) 98888-7777") = Some (js "5521988887777")
  ∧ cleanPhoneNumber (js "1131234567") = Some (js "5511931234567")
  ∧ cleanPhoneNumber (js "4411999999999") = None.
Proof.
  split; [|split; [|split]].
  - apply (proj1 (cleanPhoneNumber_cases (js "+55 (11) 99999-9999")));
      reflexivity.
  - apply (proj1 (proj2 (cleanPhoneNumber_cases (js "(21) 98888-7777"))));
      reflexivity.
  - apply (proj1 (proj2 (proj2 (cleanPhoneNumber_cases (js "1131234567")))));
      reflexivity.
  - apply (proj2 (proj2 (proj2 (cleanPhoneNumber_cases (js "4411999999999"))))).
    right. split; [reflexivity|]. vm_compute. discriminate.
Defined.

Lemma cleanPhoneNumber_canonical (phoneStr n : jsstring) :
  cleanPhoneNumber phoneStr = Some n →
  length n = 13 ∧ Forall (λ c, is_digit c = true) n.
Proof.
  unfold cleanPhoneNumber.
  pose proof (strip_non_digits_digits phoneStr) as Hd.
  set (d := strip_non_digits phoneStr) in *.
  destruct (negb (truthy phoneStr)); [done|].
  assert (Forall (λ c, is_digit c = true) (js "55")) as H55
    by (apply (bool_decide_unpack _); vm_compute; exact I).
  assert (Forall (λ c, is_digit c = true) (js "9")) as H9
    by (apply (bool_decide_unpack _); vm_compute; exact I).
  destruct (Nat.eqb_spec (length d) 13) as [H13|_]; cbn [andb].
  - destruct (startsWith d (js "55")).
    + intros <-%(inj Some). done.
    + rewrite H13. done.
  - destruct (Nat.eqb_spec (length d) 11) as [H11|_].
    + intros <-%(inj Some). split; [rewrite length_app, H11; done|].
      apply Forall_app. done.
    + destruct (Nat.eqb_spec (length d) 10) as [H10|_]; [|done].
      intros <-%(inj Some). unfold substring_from.
      rewrite !substring_take_drop by lia. rewrite H10. cbn [Nat.sub drop].
      split.
      * rewrite !length_app, !length_take, !length_drop, H10. reflexivity.
      * repeat (apply Forall_app; split);
          auto using Forall_take, Forall_drop.
Qed.

Lemma parseCSV_contacts (file_exists : bool) (rows : list Row) (fin : StreamEnd)
    (contacts : list Contact) :
  parseCSV file_exists rows fin = Some (inr contacts) →
  contacts = omap on_data rows.
Proof.
  unfold parseCSV. destruct file_exists; [|done]. cbn [negb].
  destruct fin; [|done|done]. intros [= <-].
  enough (∀ acc, fold_left (λ acc row, match on_data row with
                                       | Some c => acc ++ [c]
                                       | None => acc
                                       end) rows acc
                 = acc ++ omap on_data rows) as H by apply (H []).
  induction rows as [|row rows IH]; intros acc; cbn [fold_left omap list_omap].
  - by rewrite app_nil_r.
  - rewrite IH. destruct (on_data row); [|done]. by rewrite <- app_assoc.
Qed.

Lemma on_data_number (row : Row) (c : Contact) :
  on_data row = Some c → cleanPhoneNumber (original c) = Some (number c).
Proof.
  unfold on_data.
  destruct (or_else _ _) as [phoneNumber|]; [|done].
  destruct (truthy phoneNumber); [|done].
  destruct (cleanPhoneNumber phoneNumber) as [cleanNumber|] eqn:E; [|done].
  destruct (truthy cleanNumber); [|done].
  intros [= <-]. done.
Qed.

Lemma validateContacts_filter (contacts : list Contact) :
  valid (validateContacts contacts)
  = List.filter (λ c, isValidBrazilianNumber (number c)) contacts
  ∧ invalid (validateContacts contacts)
    = length (List.filter (λ c, negb (isValidBrazilianNumber (number c))) contacts).
Proof.
  unfold validateContacts.
  enough (∀ v0 i0,
    fold_left (λ '(valid, invalid) contact,
                if isValidBrazilianNumber (number contact)
                then (valid ++ [contact], invalid)
                else (valid, invalid ++ [contact])) contacts (v0, i0)
    = (v0 ++ List.filter (λ c, isValidBrazilianNumber (number c)) contacts,
       i0 ++ List.filter (λ c, negb (isValidBrazilianNumber (number c))) contacts))
    as H by (rewrite H; done).
  induction contacts as [|c cs IH]; intros v0 i0; cbn [fold_left List.filter].
  - by rewrite !app_nil_r.
  - destruct (isValidBrazilianNumber (number c)); rewrite IH; cbn [negb];
      by rewrite <- app_assoc.
Qed.

(** C9, amended: every contact [parseCSV] returns has a number of exactly
    13 digits; its digit at index 4 is '9' once [validateContacts] has kept
    it, or when the source text had 10 digits. *)
Theorem parseCSV_canonical (file_exists : bool) (rows : list Row)
    (fin : StreamEnd) (contacts : list Contact) :
  parseCSV file_exists rows fin = Some (inr contacts) →
  (∀ c, c ∈ contacts →
     length (number c) = 13 ∧ Forall (λ x, is_digit x = true) (number c))
  ∧ (∀ c, c ∈ valid (validateContacts contacts) → number c !! 4 = Some 57%N)
  ∧ (∀ c, c ∈ contacts → length (strip_non_digits (original c)) = 10 →
       number c !! 4 = Some 57%N).
Proof.
  intros ->%parseCSV_contacts. split; [|split].
  - intros c (row & _ & Hrow)%list_elem_of_omap.
    eapply cleanPhoneNumber_canonical, on_data_number, Hrow.
  - intros c. rewrite (proj1 (validateContacts_filter _)).
    intros (_ & Hv)%list_elem_of_In%List.filter_In.
    apply isValidBrazilianNumber_accepts in Hv. tauto.
  - intros c (row & _ & Hrow)%list_elem_of_omap H10.
    apply on_data_number in Hrow.
    rewrite cleanPhoneNumber_by_length in Hrow.
    rewrite decide_False in Hrow by lia. rewrite decide_False in Hrow by lia.
    rewrite decide_True in Hrow by done. apply (inj Some) in Hrow as <-.
    assert (length (take 2 (strip_non_digits (original c))) = 2) as Hl
      by (rewrite length_take; lia).
    destruct (take 2 (strip_non_digits (original c))) as [|a [|b [|]]]; done.
Qed.

Lemma parseCSV_canonical_witness :
  let row : Row := {[ js "number" := js "(11) 3123-4567" ]} in
  let c := mkContact (js "5511931234567") (js "(11) 3123-4567") row in
  parseCSV true [row] StreamEnded = Some (inr [c])
  ∧ length (number c) = 13 ∧ number c !! 4 = Some 57%N.
Proof.
  intros row c.
  assert (parseCSV true [row] StreamEnded = Some (inr [c])) as E
    by (vm_compute; reflexivity).
  split; [exact E|].
  destruct (parseCSV_canonical true [row] StreamEnded [c] E) as (H13 & _ & H10).
  split.
  - apply H13. apply list_elem_of_here.
  - apply H10; [apply list_elem_of_here|reflexivity].
Defined.

(** C9 fails as stated: the eleven digits 11 3123-45678 are ingested as
    5511312345678, whose digit at index 4 is '3'. *)
Lemma parseCSV_marker_counterexample :
  let row : Row := {[ js "number" := js "11 3123-45678" ]} in
  parseCSV true [row] StreamEnded
  = Some (inr [mkContact (js "5511312345678") (js "11 3123-45678") row])
  ∧ js "5511312345678" !! 4 = Some 51%N
  ∧ isValidBrazilianNumber (js "5511312345678") = false.
Proof. vm_compute. done. Qed.

End CSVFacts.

(** * The shuffle *)

Module ArraysFacts.
Import Arrays.
Section ArraysFacts.
Context {A : Type}.
Implicit Types (a b : list A) (rnd : nat → nat) (h : gmap nat (list A)).

Lemma swap_length i j a : length (swap i j a) = length a.
Proof.
  unfold swap. destruct (a !! j), (a !! i); try done.
  by rewrite !length_insert.
Qed.

Lemma swap_lookup i j a k :
  i < length a → j < length a →
  swap i j a !! k
  = if decide (k = j) then a !! i else if decide (k = i) then a !! j else a !! k.
Proof.
  intros Hi Hj. unfold swap.
  destruct (lookup_lt_is_Some_2 a j Hj) as [aj Haj].
  destruct (lookup_lt_is_Some_2 a i Hi) as [ai Hai].
  rewrite Haj, Hai.
  destruct (decide (k = j)) as [->|Hkj].
  - rewrite list_lookup_insert_eq by (by rewrite length_insert). done.
  - rewrite list_lookup_insert_ne by done.
    destruct (decide (k = i)) as [->|Hki].
    + by rewrite list_lookup_insert_eq.
    + by rewrite list_lookup_insert_ne.
Qed.

Lemma swap_Permutation i j a : swap i j a ≡ₚ a.
Proof.
  destruct (decide (i < length a ∧ j < length a)) as [[Hi Hj]|Hout].
  - apply Permutation_inj. split; [apply swap_length|].
    exists (λ k, if decide (k = j) then i else if decide (k = i) then j else k).
    split.
    + intros x y. repeat case_decide; intros; subst; congruence.
    + intros k. rewrite swap_lookup by done. by repeat case_decide.
  - unfold swap.
    destruct (a !! j) eqn:Ej; [|done]. destruct (a !! i) eqn:Ei; [|done].
    apply lookup_lt_Some in Ej, Ei. lia.
Qed.

Lemma permute_length rnd i a : length (permute rnd i a) = length a.
Proof.
  revert a; induction i as [|i IH]; intros a; [done|].
  cbn [permute]. by rewrite IH, swap_length.
Qed.

Lemma permute_Permutation rnd i a : permute rnd i a ≡ₚ a.
Proof.
  revert a; induction i as [|i IH]; intros a; [done|].
  cbn [permute]. by rewrite IH, swap_Permutation.
Qed.

Lemma permute_ext rnd rnd' i a :
  (∀ k, 0 < k ≤ i → rnd k = rnd' k) → permute rnd i a = permute rnd' i a.
Proof.
  revert a; induction i as [|i IH]; intros a Hext; [done|].
  cbn [permute]. rewrite (Hext (S i)) by lia. apply IH.
  intros k Hk. apply Hext. lia.
Qed.

(** Iteration [i] and the later ones leave the positions above [i]. *)
Lemma permute_lookup_above rnd i a k :
  choices_upto i rnd → i < length a → i < k →
  permute rnd i a !! k = a !! k.
Proof.
  revert a; induction i as [|i IH]; intros a Hrnd Hi Hk; [done|].
  cbn [permute]. rewrite IH.
  - assert (rnd (S i) ≤ S i) by (apply Hrnd; lia).
    rewrite swap_lookup by lia. repeat case_decide; try lia. done.
  - intros k' Hk'. apply Hrnd. lia.
  - rewrite swap_length. lia.
  - lia.
Qed.

(** Iteration [i] puts the chosen element at position [i] for good. *)
Lemma permute_lookup_top rnd i a :
  choices_upto (S i) rnd → S i < length a →
  permute rnd (S i) a !! S i = a !! rnd (S i).
Proof.
  intros Hrnd Hi. cbn [permute].
  assert (rnd (S i) ≤ S i) by (apply Hrnd; lia).
  rewrite permute_lookup_above.
  - rewrite swap_lookup by lia. repeat case_decide; congruence.
  - intros k Hk. apply Hrnd. lia.
  - rewrite swap_length. lia.
  - lia.
Qed.

Lemma permute_inj rnd1 rnd2 i a :
  NoDup a → i < length a →
  choices_upto i rnd1 → choices_upto i rnd2 →
  permute rnd1 i a = permute rnd2 i a →
  ∀ k, 0 < k ≤ i → rnd1 k = rnd2 k.
Proof.
  revert a; induction i as [|i IH]; intros a Hnd Hi H1 H2 Heq k Hk; [lia|].
  assert (rnd1 (S i) ≤ S i) as Hj1 by (apply H1; lia).
  assert (rnd2 (S i) ≤ S i) as Hj2 by (apply H2; lia).
  assert (rnd1 (S i) = rnd2 (S i)) as Htop.
  { pose proof (permute_lookup_top rnd1 i a H1 Hi) as E1.
    pose proof (permute_lookup_top rnd2 i a H2 Hi) as E2.
    rewrite Heq, E2 in E1.
    destruct (lookup_lt_is_Some_2 a (rnd1 (S i))) as [x Hx]; [lia|].
    rewrite Hx in E1. eapply NoDup_lookup; eauto. }
  destruct (decide (k = S i)) as [->|Hne]; [done|].
  cbn [permute] in Heq. rewrite <- Htop in Heq.
  apply (IH (swap (S i) (rnd1 (S i)) a)); try done.
  - by rewrite swap_Permutation.
  - rewrite swap_length. lia.
  - intros k' Hk'. apply H1. lia.
  - intros k' Hk'. apply H2. lia.
  - lia.
Qed.

Lemma permute_surj i a b :
  i < length a →
  drop (S i) b = drop (S i) a → take (S i) b ≡ₚ take (S i) a →
  ∃ rnd, choices_upto i rnd ∧ permute rnd i a = b.
Proof.
  revert a; induction i as [|i IH]; intros a Hi Hdrop Htake.
  - exists (λ _, 0). split; [intros k ?; lia|]. cbn [permute].
    rewrite <- (take_drop 1 b), <- (take_drop 1 a), Hdrop. f_equal.
    destruct a as [|x a]; [simpl in Hi; lia|]. cbn [take] in *.
    destruct b as [|y b]; cbn [take] in *.
    + by apply Permutation_nil_cons in Htake.
    + by apply Permutation_singleton_l in Htake.
  - assert (length b = length a) as Hlen.
    { rewrite <- (take_drop (S (S i)) b), <- (take_drop (S (S i)) a).
      rewrite !length_app. by rewrite Hdrop, Htake. }
    destruct (lookup_lt_is_Some_2 b (S i)) as [x Hx]; [lia|].
    assert (∃ j, j ≤ S i ∧ a !! j = Some x) as (j & Hj & Haj).
    { assert (x ∈ take (S (S i)) a) as Hin.
      { rewrite <- Htake. apply list_elem_of_lookup. exists (S i).
        rewrite lookup_take_lt by lia. done. }
      apply list_elem_of_lookup in Hin as [j Hin].
      apply lookup_take_Some in Hin as [? ?]. exists j. split; [lia|done]. }
    set (a' := swap (S i) j a).
    assert (a' !! S i = Some x) as Ha'x.
    { unfold a'. rewrite swap_lookup by lia. repeat case_decide; try done.
      by subst. }
    assert (drop (S (S i)) a' = drop (S (S i)) a) as Hd'.
    { apply list_eq. intros k. rewrite !lookup_drop. unfold a'.
      rewrite swap_lookup by lia. repeat case_decide; try lia. done. }
    destruct (IH a') as (rnd' & Hrnd' & Hperm).
    + unfold a'. rewrite swap_length. lia.
    + rewrite (drop_S b x (S i)) by done. rewrite (drop_S a' x (S i)) by done.
      by rewrite Hd', Hdrop.
    + apply (Permutation_app_inv_r [x]).
      rewrite <- (take_S_r b (S i) x) by done.
      rewrite <- (take_S_r a' (S i) x) by done.
      rewrite Htake. symmetry.
      apply (Permutation_app_inv_r (drop (S (S i)) a)).
      rewrite <- Hd' at 1. rewrite !take_drop. apply swap_Permutation.
    + exists (λ k, if decide (k = S i) then j else rnd' k). split.
      * intros k Hk. case_decide; [lia|]. apply Hrnd'. lia.
      * cbn [permute]. rewrite decide_True by done. fold a'.
        rewrite <- Hperm. apply permute_ext.
        intros k Hk. rewrite decide_False by lia. done.
Qed.

Lemma shuffle_loop_insert rnd r i a h :
  shuffle_loop rnd r i (<[r := a]> h) = <[r := permute rnd i a]> h.
Proof.
  revert a; induction i as [|i IH]; intros a; [done|].
  cbn [shuffle_loop permute]. by rewrite alter_insert_eq, IH.
Qed.

Lemma shuffleArray_store rnd array h :
  shuffleArray rnd array h
  = (<[fresh (dom h) := shuffled_order rnd (default [] (h !! array))]> h,
     fresh (dom h)).
Proof.
  unfold shuffleArray, spread. rewrite lookup_insert_eq. cbn [default].
  by rewrite shuffle_loop_insert.
Qed.

Lemma index_choices_upto n rnd :
  index_choices n rnd ↔ choices_upto (n - 1) rnd.
Proof.
  unfold index_choices, choices_upto.
  split; intros H k Hk; apply H; lia.
Qed.

Lemma shuffled_order_surj a b :
  b ≡ₚ a → ∃ rnd, index_choices (length a) rnd ∧ shuffled_order rnd a = b.
Proof.
  intros Hperm. unfold shuffled_order.
  destruct a as [|x a].
  { apply Permutation_nil_r in Hperm as ->. exists (λ _, 0).
    split; [intros k ?; simpl in *; lia|done]. }
  assert (length b = length (x :: a)) as Hlen by (by rewrite Hperm).
  destruct (permute_surj (length (x :: a) - 1) (x :: a) b) as (rnd & ? & ?).
  - simpl. lia.
  - rewrite !drop_ge; [done|simpl; lia|rewrite Hlen; simpl; lia].
  - rewrite !take_ge; [done|simpl; lia|rewrite Hlen; simpl; lia].
  - exists rnd. split; [by apply index_choices_upto|done].
Qed.

Lemma shuffled_order_inj rnd1 rnd2 a :
  NoDup a → index_choices (length a) rnd1 → index_choices (length a) rnd2 →
  shuffled_order rnd1 a = shuffled_order rnd2 a →
  ∀ i, 0 < i < length a → rnd1 i = rnd2 i.
Proof.
  intros Hnd H1%index_choices_upto H2%index_choices_upto Heq i Hi.
  apply (permute_inj rnd1 rnd2 (length a - 1) a); try done; lia.
Qed.

Lemma choice_runs_length m : length (choice_runs m) = fact (S m).
Proof.
  induction m as [|m IH]; [done|].
  cbn [choice_runs].
  assert (∀ l : list (list nat),
    length (v ← l; (λ j, v ++ [j]) <$> seq 0 (S (S m))) = S (S m) * length l)
    as Hb.
  { induction l as [|v l IHl]; [simpl; lia|].
    change (length (((λ j, v ++ [j]) <$> seq 0 (S (S m)))
                    ++ (v' ← l; (λ j, v' ++ [j]) <$> seq 0 (S (S m))))
            = S (S m) * length (v :: l)).
    rewrite length_app, IHl, length_fmap, length_seq. simpl. lia. }
  rewrite Hb, IH. change (fact (S (S m))) with (S (S m) * fact (S m)). done.
Qed.

Lemma choice_runs_elem m v :
  v ∈ choice_runs m ↔ length v = m ∧ ∀ k j, v !! k = Some j → j ≤ S k.
Proof.
  revert v; induction m as [|m IH]; intros v.
  - cbn [choice_runs]. rewrite list_elem_of_singleton. split.
    + intros ->. split; [done|]. intros k j. by rewrite lookup_nil.
    + intros [Hl _]. by destruct v.
  - cbn [choice_runs]. rewrite list_elem_of_bind. split.
    + intros (v' & (j & -> & Hj)%list_elem_of_fmap & [Hl Hv']%IH).
      apply elem_of_seq in Hj. split; [rewrite length_app; simpl; lia|].
      intros k j'. destruct (decide (k < length v')) as [Hk|Hk].
      * rewrite lookup_app_l by done. apply Hv'.
      * rewrite lookup_app_r by lia.
        destruct (k - length v') as [|d] eqn:Ed; simpl; [|done].
        intros [= <-]. lia.
    + intros [Hl Hv]. induction v as [|j v' _] using rev_ind; [done|].
      rewrite length_app in Hl. simpl in Hl.
      exists v'. split.
      * apply list_elem_of_fmap. exists j. split; [done|].
        apply elem_of_seq. split; [lia|].
        assert (j ≤ S (length v')) as Hj; [|lia].
        apply (Hv (length v')). by rewrite lookup_app_r, Nat.sub_diag by lia.
      * apply IH. split; [lia|]. intros k j' Hk. apply Hv.
        rewrite lookup_app_l; [done|]. by eapply lookup_lt_Some.
Qed.

Lemma choice_runs_NoDup m : NoDup (choice_runs m).
Proof.
  induction m as [|m IH]; [apply NoDup_singleton|].
  cbn [choice_runs]. apply NoDup_bind; [| |done].
  - intros v1 v2 y _ _ (j1 & -> & _)%list_elem_of_fmap
      (j2 & Heq & _)%list_elem_of_fmap.
    by apply app_inj_tail in Heq as [? _].
  - intros v _. apply NoDup_fmap_2_strong; [|apply NoDup_seq].
    intros j1 j2 _ _ Heq. by apply app_inj_tail in Heq as [_ ?].
Qed.

Lemma run_choice_fmap rnd m i :
  0 < i ≤ m → run_choice (rnd <$> seq 1 m) i = rnd i.
Proof.
  intros Hi. unfold run_choice.
  rewrite list_lookup_fmap, lookup_seq_lt by lia. simpl. f_equal. lia.
Qed.

Lemma run_choice_index_choices n v :
  v ∈ choice_runs (n - 1) → index_choices n (run_choice v).
Proof.
  intros [Hl Hv]%choice_runs_elem i Hi. unfold run_choice.
  destruct (lookup_lt_is_Some_2 v (i - 1)) as [j Hj]; [lia|].
  rewrite Hj. simpl. apply Hv in Hj. lia.
Qed.

Section counting.
Context `{!EqDecision A}.

(** Among the runs of choices, exactly one leads to a given
    arrangement of an array without repetitions. *)
Lemma shuffled_order_one_run a b :
  NoDup a → b ≡ₚ a →
  length (filter (λ v, shuffled_order (run_choice v) a = b)
            (choice_runs (length a - 1))) = 1.
Proof.
  intros Hnd Hperm.
  destruct (shuffled_order_surj a b Hperm) as (rnd & Hrnd & Hb).
  set (m := length a - 1).
  set (v0 := rnd <$> seq 1 m).
  set (L := filter _ _).
  assert (v0 ∈ choice_runs m) as Hv0.
  { apply choice_runs_elem.
    split; [unfold v0; by rewrite length_fmap, length_seq|].
    intros k j. unfold v0. rewrite list_lookup_fmap.
    destruct (seq 1 m !! k) as [i|] eqn:Ei; [|done].
    apply lookup_seq in Ei as [-> Hk]. simpl. intros [= <-].
    apply Hrnd. unfold m in Hk. lia. }
  assert (shuffled_order (run_choice v0) a = b) as Hv0b.
  { rewrite <- Hb. apply permute_ext. intros k Hk.
    apply run_choice_fmap. done. }
  assert (v0 ∈ L) as HinL by (by apply list_elem_of_filter).
  assert (∀ v, v ∈ L → v = v0) as Hall.
  { intros v [Hvb Hv]%list_elem_of_filter.
    pose proof (run_choice_index_choices (length a) v Hv) as Hc.
    pose proof (run_choice_index_choices (length a) v0 Hv0) as Hc0.
    pose proof (shuffled_order_inj _ _ a Hnd Hc Hc0) as Hagree.
    rewrite Hvb, Hv0b in Hagree. specialize (Hagree eq_refl).
    apply choice_runs_elem in Hv as [Hl _].
    apply choice_runs_elem in Hv0 as [Hl0 _].
    apply list_eq. intros k.
    destruct (decide (k < m)) as [Hk|Hk].
    - specialize (Hagree (S k)). unfold run_choice in Hagree.
      replace (S k - 1) with k in Hagree by lia.
      destruct (lookup_lt_is_Some_2 v k) as [j Hj]; [lia|].
      destruct (lookup_lt_is_Some_2 v0 k) as [j0 Hj0]; [lia|].
      rewrite Hj, Hj0 in *. simpl in Hagree. f_equal. apply Hagree.
      unfold m in Hk. lia.
    - rewrite !lookup_ge_None_2 by lia. done. }
  assert (NoDup L) as HndL by apply NoDup_filter, choice_runs_NoDup.
  destruct L as [|v1 [|v2 L']]; [by apply elem_of_nil in HinL|done|].
  exfalso. apply NoDup_cons in HndL as [Hnotin _]. apply Hnotin.
  rewrite (Hall v1), (Hall v2) by (repeat constructor). constructor.
Qed.
End counting.

End ArraysFacts.

Lemma swap_fmap {A B} (f : A → B) i j (a : list A) :
  swap i j (f <$> a) = f <$> swap i j a.
Proof.
  unfold swap. rewrite !list_lookup_fmap.
  destruct (a !! j), (a !! i); cbn; try done.
  by rewrite !list_fmap_insert.
Qed.

Lemma permute_fmap {A B} (f : A → B) rnd i (a : list A) :
  permute rnd i (f <$> a) = f <$> permute rnd i a.
Proof.
  revert a; induction i as [|i IH]; intros a; [done|].
  cbn [permute]. by rewrite swap_fmap, IH.
Qed.

(** The arrangement does not depend on what the elements are. *)
Lemma shuffled_order_fmap {A B} (f : A → B) rnd (a : list A) :
  shuffled_order rnd (f <$> a) = f <$> shuffled_order rnd a.
Proof. unfold shuffled_order. by rewrite length_fmap, permute_fmap. Qed.

(** C8: whatever the index choices, [shuffleArray] returns a new array
    that is a permutation of its argument and leaves every array of the
    store, its argument included, as it was; and of the equally likely
    [n!] runs of choices exactly one leads to each arrangement of an array
    of [n] distinct elements, so every arrangement has probability
    [1/n!]; the arrangement of any array is the image of the arrangement
    of its distinct indices. *)
Theorem shuffleArray_uniform_permutation {A : Type} `{!EqDecision A} :
  (∀ rnd array (h : gmap nat (list A)) a,
     h !! array = Some a → index_choices (length a) rnd →
     let h' := fst (shuffleArray rnd array h) in
     let shuffled := snd (shuffleArray rnd array h) in
     (∀ r b, h !! r = Some b → h' !! r = Some b)
     ∧ h !! shuffled = None
     ∧ h' !! shuffled = Some (shuffled_order rnd a)
     ∧ shuffled_order rnd a ≡ₚ a)
  ∧ (∀ a b : list A,
       NoDup a → b ≡ₚ a →
       length (choice_runs (length a - 1)) = fact (length a)
       ∧ length (filter (λ v, shuffled_order (run_choice v) a = b)
                   (choice_runs (length a - 1))) = 1)
  ∧ (∀ rnd (a : list A) (d : A),
       shuffled_order rnd a
       = (λ k, default d (a !! k)) <$> shuffled_order rnd (seq 0 (length a))).
Proof.
  split; [|split].
  - intros rnd array h a Ha Hrnd. rewrite shuffleArray_store, Ha.
    cbn [fst snd default].
    assert (h !! fresh (dom h) = None) as Hfresh
      by apply not_elem_of_dom, is_fresh.
    split_and!.
    + intros r b Hr. rewrite lookup_insert_ne; [done|]. congruence.
    + done.
    + by rewrite lookup_insert_eq.
    + apply permute_Permutation.
  - intros a b Hnd Hperm. split; [|by apply shuffled_order_one_run].
    rewrite choice_runs_length. destruct a; [done|]. simpl.
    by rewrite Nat.sub_0_r.
  - intros rnd a d. rewrite <- shuffled_order_fmap. f_equal.
    apply list_eq. intros k. rewrite list_lookup_fmap.
    destruct (decide (k < length a)) as [Hk|Hk].
    + rewrite lookup_seq_lt by done. cbn.
      by destruct (lookup_lt_is_Some_2 a k Hk) as [x ->].
    + rewrite lookup_seq_ge by lia. cbn. apply lookup_ge_None_2. lia.
Qed.

Lemma shuffleArray_uniform_permutation_witness :
  let h : gmap nat (list nat) := {[ 7 := [10; 20; 30] ]} in
  fst (shuffleArray zeros 7 h) !! 7 = Some [10; 20; 30]
  ∧ shuffled_order zeros [10; 20; 30] ≡ₚ [10; 20; 30]
  ∧ length (filter (λ v, shuffled_order (run_choice v) [10; 20; 30]
                         = [30; 10; 20])
              (choice_runs 2)) = 1.
Proof.
  intros h.
  destruct (shuffleArray_uniform_permutation (A := nat)) as (Hperm & Huni & _).
  assert (h !! 7 = Some [10; 20; 30]) as Hh by reflexivity.
  assert (index_choices 3 zeros) as Hz by (intros i _; unfold zeros; lia).
  destruct (Hperm zeros 7 h [10; 20; 30] Hh Hz) as (Hkeep & _ & _ & Hp).
  split; [by apply Hkeep|]. split; [exact Hp|].
  assert (NoDup [10; 20; 30]) as Hnd
    by (apply (bool_decide_unpack _); vm_compute; exact I).
  assert ([30; 10; 20] ≡ₚ [10; 20; 30]) as Hb
    by (apply (bool_decide_unpack _); vm_compute; exact I).
  exact (proj2 (Huni [10; 20; 30] [30; 10; 20] Hnd Hb)).
Defined.

End ArraysFacts.

(** * [sendMessage] *)

Module SendFacts.
Import CSVService WhatsAppService.

Lemma trimStart_spaces (s : jsstring) :
  Forall (λ c, is_space c = true) s → trimStart s = [].
Proof. induction 1 as [|c s Hc _ IH]; [done|]. simpl. by rewrite Hc. Qed.

Lemma trimStart_nil_spaces (s : jsstring) :
  trimStart s = [] → Forall (λ c, is_space c = true) s.
Proof.
  induction s as [|c s IH]; [done|]. cbn [trimStart].
  destruct (is_space c) eqn:E; [|done]. intros H. constructor; auto.
Qed.

Lemma trimStart_head (s : jsstring) (c : N) (u : jsstring) :
  trimStart s = c :: u → is_space c = false.
Proof.
  induction s as [|d s IH]; [done|]. cbn [trimStart].
  destruct (is_space d) eqn:E; [done|]. by intros [= <- _].
Qed.

Lemma trim_blank (s : jsstring) :
  trim s = [] ↔ Forall (λ c, is_space c = true) s.
Proof.
  unfold trim. split.
  - intros H. apply trimStart_nil_spaces.
    destruct (trimStart s) as [|c u] eqn:E; [done|].
    apply trimStart_head in E as Hc.
    assert (trimStart (rev (c :: u)) = []) as H'.
    { destruct (trimStart (rev (c :: u))) as [|x l]; [done|].
      cbn [rev] in H. by destruct (rev l). }
    apply trimStart_nil_spaces in H'. rewrite Forall_forall in H'.
    rewrite H' in Hc; [done|].
    apply list_elem_of_In, in_rev. rewrite rev_involutive. by left.
  - intros H. rewrite (trimStart_spaces s) by done. done.
Qed.

Lemma text_due_blank (imagePath audioPath message : option jsstring) :
  blank message → text_due imagePath audioPath message = false.
Proof.
  unfold blank, text_due. destruct message as [text|]; [|done].
  intros H%trim_blank. rewrite H. unfold str_eqb.
  rewrite bool_decide_eq_true_2 by done. by rewrite !andb_false_r.
Qed.

Lemma sendMessage_unregistered (w : World) (contact : Contact)
    (imagePath audioPath message : option jsstring) :
  ¬ registered w contact →
  ∃ m, sendMessage w contact imagePath audioPath message = ([], Rejected m).
Proof.
  unfold registered, address_of. intros Hreg.
  unfold sendMessage, mbind, send_bind, bind, lift, throw, rethrow.
  destruct (onWhatsApp w _) as [[[|]|]|m]; try done; eauto.
Qed.

Lemma text_due_alone (w : World) (imagePath audioPath message : option jsstring) :
  text_due imagePath audioPath message = true →
  image_due w imagePath = false ∧ audio_due w audioPath = false.
Proof.
  unfold text_due, image_due, audio_due, truthy_opt.
  destruct message as [text|]; [|done].
  destruct imagePath as [ip|], audioPath as [ap|];
    try destruct (truthy ip); try destruct (truthy ap); done.
Qed.

Lemma sendMessage_at_most_two (w : World) (contact : Contact)
    (imagePath audioPath message : option jsstring) :
  length (fst (sendMessage w contact imagePath audioPath message)) ≤ 2.
Proof.
  unfold sendMessage, mbind, send_bind, bind, lift, dispatch, ret, throw,
    rethrow.
  generalize (number contact ++ js "@s.whatsapp.net"). intros J.
  destruct imagePath as [ip|], audioPath as [ap|], message as [text|];
    cbn [truthy_opt];
    try destruct (truthy ip); try destruct (truthy ap);
    try destruct (truthy text); cbn [andb negb];
  repeat (match goal with
          | |- context [if ?b then _ else _] => destruct b
          | |- context [match ?x with Resolved _ => _ | Rejected _ => _ end] =>
              destruct x
          | |- context [match ?x with Some _ => _ | None => _ end] =>
              destruct x
          end; cbn [fst snd length app truthy_opt andb negb default]);
  lia.
Qed.

(** C6, amended: once the address check has passed, and the file system
    and the socket do not fail, [sendMessage] hands to the socket one image
    with the message as caption when the image path names a file, then one
    voice note without caption when the audio path names a file, and one
    text when neither path is given and the message is not blank: none, one
    or two calls.  The text excludes both attachments; image and audio do
    not exclude each other. *)
Theorem sendMessage_dispatches (w : World) (contact : Contact)
    (imagePath audioPath message : option jsstring) :
  registered w contact → reliable w →
  sendMessage w contact imagePath audioPath message
  = ((if image_due w imagePath
      then [image_dispatch w contact imagePath message] else [])
     ++ (if audio_due w audioPath
         then [audio_dispatch w contact audioPath] else [])
     ++ (if text_due imagePath audioPath message
         then [text_dispatch contact message] else []),
     Resolved true)
  ∧ (text_due imagePath audioPath message = true →
     image_due w imagePath = false ∧ audio_due w audioPath = false)
  ∧ length (fst (sendMessage w contact imagePath audioPath message)) ≤ 2.
Proof.
  intros Hreg Hrel.
  split; [|split; [apply text_due_alone|apply sendMessage_at_most_two]].
  revert Hreg Hrel.
  unfold registered, reliable, address_of. intros Hreg [Hread Hsend].
  unfold sendMessage, mbind, send_bind, bind, lift, dispatch, ret, rethrow.
  rewrite Hreg. cbn [default negb].
  unfold image_due, audio_due, text_due, image_dispatch, audio_dispatch,
    text_dispatch, file_of, address_of.
  destruct imagePath as [ip|]; cbn [truthy_opt default];
    [destruct (truthy ip); cbn [andb negb];
     [destruct (existsSync w ip);
      [destruct (Hread ip) as [ib ->]; rewrite Hsend|]|]|];
  (destruct audioPath as [ap|]; cbn [truthy_opt default];
    [destruct (truthy ap); cbn [andb negb];
     [destruct (existsSync w ap);
      [destruct (Hread ap) as [ab ->]; rewrite Hsend|]|]|]);
  (destruct message as [text|]; cbn [default];
    [destruct (truthy text); cbn [andb negb];
     [destruct (str_eqb (trim text) []); cbn [andb negb]; rewrite ?Hsend|]|]);
  reflexivity.
Qed.

(** No payload: nothing is handed to the socket. *)
Lemma sendMessage_no_payload (w : World) (contact : Contact)
    (imagePath audioPath message : option jsstring) :
  truthy_opt imagePath = false → truthy_opt audioPath = false →
  blank message →
  fst (sendMessage w contact imagePath audioPath message) = []
  ∧ (registered w contact →
     sendMessage w contact imagePath audioPath message = ([], Resolved true)).
Proof.
  intros Hi Ha Hb.
  pose proof (text_due_blank imagePath audioPath message Hb) as Ht.
  unfold text_due in Ht. unfold registered, address_of.
  unfold sendMessage, mbind, send_bind, bind, lift, dispatch, ret, throw,
    rethrow.
  assert (match imagePath with
          | Some p => truthy p && existsSync w p | None => false end = false)
    as Ei by (destruct imagePath; simpl in *; [by rewrite Hi|done]).
  assert (match audioPath with
          | Some p => truthy p && existsSync w p | None => false end = false)
    as Ea by (destruct audioPath; simpl in *; [by rewrite Ha|done]).
  destruct (onWhatsApp w _) as [[[|]|]|m]; cbn [default negb fst];
    try (split; [done|intros; congruence]).
  destruct imagePath as [ip|], audioPath as [ap|], message as [text|];
    rewrite ?Ei, ?Ea, ?Ht; done.
Qed.

Lemma sendMessage_dispatches_witness :
  sendMessage all_well ana (Some (js "promo.png")) None (Some (js "Oi"))
  = ([image_dispatch all_well ana (Some (js "promo.png")) (Some (js "Oi"))],
     Resolved true).
Proof.
  assert (registered all_well ana) as Hreg by reflexivity.
  assert (reliable all_well) as Hrel
    by (split; [intros p; eexists; reflexivity|intros j c; reflexivity]).
  destruct (sendMessage_dispatches all_well ana (Some (js "promo.png")) None
              (Some (js "Oi")) Hreg Hrel) as (H & _ & _).
  rewrite H. reflexivity.
Defined.

(** C6 fails as stated: with an image and an audio file the socket is
    called twice for one contact, and with an image path that names no
    file it is not called at all. *)
Lemma image_and_audio_counterexample :
  registered all_well ana
  ∧ fst (sendMessage all_well ana (Some (js "promo.png")) (Some (js "voz.ogg"))
           (Some (js "Oi")))
    = [image_dispatch all_well ana (Some (js "promo.png")) (Some (js "Oi"));
       audio_dispatch all_well ana (Some (js "voz.ogg"))]
  ∧ sendMessage
      (mkWorld (λ _, Resolved (Some true)) (λ _, false)
         (λ _, Rejected (js "ENOENT")) (λ _, js ".png") (λ _ _, Resolved ()))
      ana (Some (js "promo.png")) None (Some (js "Oi"))
    = ([], Resolved true).
Proof. vm_compute. done. Qed.

End SendFacts.

(** * The campaign engine *)

Module EngineFacts.
Import CSVService WhatsAppService Float64.

Lemma shuffled_order_length {A} rnd (a : list A) :
  length (Arrays.shuffled_order rnd a) = length a.
Proof. apply ArraysFacts.permute_length. Qed.

Lemma climbs_snoc sent failed counts sent' failed' :
  climbs sent failed counts →
  (let '(s, f) := default (sent, failed) (last counts) in
   (sent' = S s ∧ failed' = f) ∨ (sent' = s ∧ failed' = S f)) →
  climbs sent failed (counts ++ [(sent', failed')]).
Proof.
  revert sent failed; induction counts as [|[s f] counts IH];
    intros sent failed; cbn [climbs app].
  - intros _ H. done.
  - intros [H1 H2] H3. split; [done|]. apply IH; [done|].
    destruct counts as [|p counts]; [exact H3|]. rewrite last_cons_cons in H3.
    destruct (last (p :: counts)) as [q|] eqn:E; [exact H3|].
    rewrite last_cons in E. by destruct (last counts).
Qed.

Lemma climbs_lookup sent failed counts k s1 f1 s2 f2 :
  climbs sent failed counts →
  counts !! k = Some (s1, f1) → counts !! S k = Some (s2, f2) →
  s1 ≤ s2 ∧ f1 ≤ f2 ∧ s2 + f2 = S (s1 + f1).
Proof.
  revert sent failed k; induction counts as [|[s f] counts IH];
    intros sent failed k; [done|].
  cbn [climbs]. intros [_ Hc]. destruct k as [|k]; cbn [lookup list_lookup].
  - intros [= -> ->]. destruct counts as [|[s' f'] counts]; [done|].
    cbn [climbs] in Hc. cbn. intros [= -> ->]. lia.
  - by apply (IH s f).
Qed.

Lemma progress_counts_app evs1 evs2 :
  progress_counts (evs1 ++ evs2) = progress_counts evs1 ++ progress_counts evs2.
Proof. apply omap_app. Qed.

Lemma finished_counts_app evs1 evs2 :
  finished_counts (evs1 ++ evs2) = finished_counts evs1 ++ finished_counts evs2.
Proof. apply omap_app. Qed.

Lemma idle_lookup (s : Service) :
  idle s = true ↔ ∀ r t, tasks s !! r = Some (Some t) → False.
Proof.
  unfold idle. rewrite forallb_forall. split.
  - intros H r t Hr. specialize (H (Some t)). cbn in H.
    assert (In (Some t) (tasks s)) as Hin
      by (apply list_elem_of_In, list_elem_of_lookup; eauto).
    apply H in Hin. done.
  - intros H [t|] Hin; [|done].
    apply list_elem_of_In, list_elem_of_lookup in Hin as [r Hr]. by destruct (H r t).
Qed.

(** ** A call resumed *)

Lemma counted_total res c : total (counted res c) = total c.
Proof. by destruct res. Qed.

Lemma count_spec run contact res c (s : Service) :
  count run contact res c s
  = emit (Some run) (snd (progress_event run contact res c))
      (set_currentCampaign (counted res c) s).
Proof. by destruct res. Qed.

Lemma send_settled_spec (s : Service) run t contact c w d :
  tasks s !! run = Some (Some t) → at_ t = InSend →
  shuffledContacts t !! i t = Some contact → currentCampaign s = Some c →
  let sm := sendMessage w contact (t_imagePath t) (t_audioPath t) (t_message t) in
  let s1 := emit (Some run) (snd (progress_event run contact (snd sm) c))
              (set_currentCampaign (counted (snd sm) c) (hand_over (fst sm) s)) in
  send_settled run w d s
  = if (i t <? length (shuffledContacts t) - 1) && isSending s
    then set_task run (Some (suspend (InSleep (now s + d)) t)) s1
    else loop_test run (next t) s1.
Proof.
  intros Hrun Hat Hct Hc. unfold send_settled.
  rewrite Hrun, Hat, Hct, Hc. cbn zeta.
  destruct (sendMessage w contact _ _ _) as [out res]. cbn [fst snd].
  by rewrite count_spec.
Qed.

Lemma loop_test_emitted run t (s : Service) :
  ∃ tail, emitted (loop_test run t s) = emitted s ++ tail
          ∧ progress_counts tail = [].
Proof.
  unfold loop_test, after_loop.
  destruct ((i t <? _) && isSending s); [exists []; by rewrite app_nil_r|].
  simpl. destruct (currentCampaign s); simpl; eauto.
  exists []. by rewrite app_nil_r.
Qed.

Lemma loop_test_currentCampaign run t (s : Service) :
  currentCampaign (loop_test run t s) = currentCampaign s.
Proof.
  unfold loop_test, after_loop.
  destruct ((i t <? _) && isSending s); [done|].
  simpl. destruct (currentCampaign s) eqn:E; simpl; by rewrite E.
Qed.

(** ** One run *)

Section run.
Variables (n run : nat) (log0 : list (option nat * Event)).

Lemma loop_test_inv q (s : Service) (t : Task) evs c :
  emitted s = log0 ++ evs → currentCampaign s = Some c → total c = n →
  climbs 0 0 (progress_counts evs) →
  default (0, 0) (last (progress_counts evs)) = (sent c, failed c) →
  run < length (tasks s) →
  (∀ r t', tasks s !! r = Some (Some t') → r = run) →
  length (shuffledContacts t) = n →
  finished_counts evs = [] →
  sent c + failed c = i t → i t ≤ n →
  (q = true → isSending s = true) →
  run_inv n run log0 q (loop_test run t s).
Proof.
  intros Hlog Hc Htot Hcl Hlast Hrun Halone Hlen Hfin Hsum Hle Hq.
  unfold loop_test. rewrite Hlen.
  destruct ((i t <? n) && isSending s) eqn:Etest.
  - apply andb_true_iff in Etest as [Hi%Nat.ltb_lt Hs].
    exists evs, c. split_and!; try done; [lia|]. left.
    exists (suspend InSend t). split_and!; try done.
    + simpl. by apply list_lookup_insert_eq.
    + intros r t'. simpl. destruct (decide (r = run)) as [->|Hne]; [done|].
      rewrite list_lookup_insert_ne by done. apply Halone.
  - unfold after_loop. simpl. rewrite Hc.
    exists (evs ++ [(Some run, CampaignFinished (sent c) (failed c) (total c)
                       (duration_of (now s) (startTime c)))]), c.
    split_and!; try done.
    + simpl. by rewrite Hlog, app_assoc.
    + by rewrite progress_counts_app, app_nil_r.
    + by rewrite progress_counts_app, app_nil_r.
    + lia.
    + right. split_and!; try done.
      * intros r t'. simpl. destruct (decide (r = run)) as [->|Hne].
        -- by rewrite list_lookup_insert_eq.
        -- rewrite list_lookup_insert_ne by done. intros H.
           by apply Halone in H.
      * rewrite finished_counts_app, Hfin, Htot. done.
      * intros ->. rewrite Hq in Etest by done. rewrite andb_true_r in Etest.
        apply Nat.ltb_ge in Etest. lia.
Qed.

Lemma run_inv_weaken q (s : Service) :
  run_inv n run log0 q s → run_inv n run log0 false s.
Proof.
  intros (evs & c & ? & ? & ? & ? & ? & ? & [Hl|Ho]);
    exists evs, c; split_and!; try done.
  - left. destruct Hl as (t & ? & ? & ? & ? & ? & _). exists t. done.
  - right. destruct Ho as (? & ? & ? & _). done.
Qed.

Lemma run_inv_step q (s : Service) (a : Action) :
  is_start a = false → run_inv n run log0 q s →
  run_inv n run log0 (q && negb (is_cancel a)) (step s a).
Proof.
  intros Ha Hinv. destruct a as [| | | open | r w d | r | ms];
    try done; cbn [step is_cancel negb]; rewrite ?andb_true_r, ?andb_false_r.
  - (* stop *)
    apply run_inv_weaken in Hinv.
    destruct Hinv as (evs & c & Hlog & Hc & Htot & Hcl & Hlast & Hle & Hst).
    exists (evs ++ [(None, CampaignStopped)]), c. simpl.
    split_and!; try done.
    + by rewrite Hlog, app_assoc.
    + by rewrite progress_counts_app, app_nil_r.
    + by rewrite progress_counts_app, app_nil_r.
    + destruct Hst as [(t & ? & ? & ? & ? & ? & _)|(? & ? & ? & _)].
      * left. exists t. split_and!; try done.
        by rewrite finished_counts_app, app_nil_r.
      * right. split_and!; try done.
        by rewrite finished_counts_app, app_nil_r.
  - (* disconnect *)
    apply run_inv_weaken in Hinv.
    destruct Hinv as (evs & c & Hlog & Hc & Htot & Hcl & Hlast & Hle & Hst).
    exists evs, c. simpl. split_and!; try done.
    destruct Hst as [(t & ? & ? & ? & ? & ? & _)|(? & ? & ? & _)].
    + left. exists t. done.
    + right. done.
  - (* connection update *)
    destruct Hinv as (evs & c & Hlog & Hc & Htot & Hcl & Hlast & Hle & Hst).
    exists evs, c. simpl. split_and!; try done.
  - (* sendMessage settles *)
    destruct Hinv as (evs & c & Hlog & Hc & Htot & Hcl & Hlast & Hle & Hst).
    unfold send_settled.
    destruct (tasks s !! r) as [[t|]|] eqn:Er;
      [|by exists evs, c|by exists evs, c].
    destruct Hst as [(t0 & Hrun & Halone & Hlen & Hfin & Hph & Hq)|Ho];
      [|destruct Ho as (Hdead & _); by destruct (Hdead r t)].
    apply Halone in Er as Hr. subst r. rewrite Hrun in Er.
    injection Er as <-.
    assert (run < length (tasks s)) as Hlt by (by eapply lookup_lt_Some).
    unfold phase in Hph.
    destruct (at_ t0) eqn:Eat;
      [|exists evs, c; split_and!; try done; left; exists t0;
        unfold phase; rewrite Eat; done].
    destruct Hph as [Hsum Hi].
    destruct (lookup_lt_is_Some_2 (shuffledContacts t0) (i t0)) as [contact Hct];
      [lia|].
    rewrite Hct, Hc.
    destruct (sendMessage w contact _ _ _) as [out res].
    set (c' := match res with
               | Resolved _ => mkCampaign (contacts c) (imagePath c) (message c)
                                 (S (sent c)) (failed c) (total c) (startTime c)
               | Rejected _ => mkCampaign (contacts c) (imagePath c) (message c)
                                 (sent c) (S (failed c)) (total c) (startTime c)
               end).
    set (ev := CampaignProgress (sent c') (failed c') (total c') (number contact)
                 (match res with Resolved _ => None | Rejected m => Some m end)
                 (progress_of (sent c') (failed c') (total c'))).
    set (s1 := count run contact res c (hand_over out s)).
    assert (emitted s1 = log0 ++ (evs ++ [(Some run, ev)])
            ∧ currentCampaign s1 = Some c' ∧ tasks s1 = tasks s
            ∧ isSending s1 = isSending s ∧ total c' = n
            ∧ sent c' + failed c' = S (i t0)
            ∧ ((sent c' = S (sent c) ∧ failed c' = failed c)
               ∨ (sent c' = sent c ∧ failed c' = S (failed c))))
      as (Hlog1 & Hc1 & Htasks1 & Hsend1 & Htot1 & Hsum1 & Hstep1).
    { unfold s1, ev, c', count. destruct res; simpl;
        rewrite Hlog, <- app_assoc; split_and!; try done; lia || auto. }
    assert (climbs 0 0 (progress_counts (evs ++ [(Some run, ev)]))) as Hcl1.
    { rewrite progress_counts_app. apply climbs_snoc; [done|].
      rewrite Hlast. done. }
    assert (default (0, 0) (last (progress_counts (evs ++ [(Some run, ev)])))
            = (sent c', failed c')) as Hlast1.
    { rewrite progress_counts_app. cbn. by rewrite last_snoc. }
    assert (finished_counts (evs ++ [(Some run, ev)]) = []) as Hfin1
      by (by rewrite finished_counts_app, Hfin).
    clearbody s1 c' ev.
    destruct ((i t0 <? length (shuffledContacts t0) - 1) && isSending s1)
      eqn:Esleep.
    + apply andb_true_iff in Esleep as [Hi1%Nat.ltb_lt Hs1].
      exists (evs ++ [(Some run, ev)]), c'.
      split; [done|]. split; [done|]. split; [done|]. split; [done|].
      split; [done|]. split; [lia|].
      left. exists (suspend (InSleep (now s1 + d)) t0).
      split; [simpl; rewrite Htasks1; by apply list_lookup_insert_eq|].
      split.
      { intros r t'. simpl. rewrite Htasks1.
        destruct (decide (r = run)) as [->|Hne]; [done|].
        rewrite list_lookup_insert_ne by done. apply Halone. }
      split; [done|]. split; [done|].
      split; [unfold phase; simpl; lia|]. intros _. done.
    + apply (loop_test_inv q s1 (next t0) (evs ++ [(Some run, ev)]) c');
        rewrite ?Htasks1, ?Hsend1; try done; simpl; lia.
  - (* timer *)
    destruct Hinv as (evs & c & Hlog & Hc & Htot & Hcl & Hlast & Hle & Hst).
    unfold timer_fired.
    destruct (tasks s !! r) as [[t|]|] eqn:Er;
      [|by exists evs, c|by exists evs, c].
    destruct Hst as [(t0 & Hrun & Halone & Hlen & Hfin & Hph & Hq)|Ho];
      [|destruct Ho as (Hdead & _); by destruct (Hdead r t)].
    apply Halone in Er as Hr. subst r. rewrite Hrun in Er.
    injection Er as <-.
    assert (run < length (tasks s)) as Hlt by (by eapply lookup_lt_Some).
    unfold phase in Hph.
    destruct (at_ t0) eqn:Eat;
      [exists evs, c; split_and!; try done; left; exists t0;
        unfold phase; rewrite Eat; done|].
    destruct Hph as [Hsum Hi].
    destruct (wake <=? now s)%Z;
      [|exists evs, c; split_and!; try done; left; exists t0;
        unfold phase; rewrite Eat; done].
    apply (loop_test_inv q s (next t0) evs c); try done. simpl. lia.
  - (* tick *)
    destruct Hinv as (evs & c & Hlog & Hc & Htot & Hcl & Hlast & Hle & Hst).
    exists evs, c. simpl. split_and!; try done.
Qed.

Lemma run_inv_exec q (s : Service) (schedule : list Action) :
  no_start schedule = true → run_inv n run log0 q s →
  run_inv n run log0 (q && no_cancel schedule) (exec s schedule).
Proof.
  revert q s; induction schedule as [|a schedule IH]; intros q s Hns Hinv.
  - by rewrite andb_true_r.
  - cbn in Hns. apply andb_true_iff in Hns as [Ha%negb_true_iff Hns].
    cbn [exec fold_left no_cancel forallb]. rewrite andb_assoc.
    apply IH; [done|]. by apply run_inv_step.
Qed.

End run.

Lemma startBulkSend_run_inv contacts ip ap msg rnd (s0 : Service) :
  isConnected s0 = true → isSending s0 = false → idle s0 = true →
  run_inv (length contacts) (length (tasks s0)) (emitted s0) true
    (fst (startBulkSend contacts ip ap msg rnd s0)).
Proof.
  intros Hconn Hsend Hidle'. unfold startBulkSend.
  pose proof (proj1 (idle_lookup s0) Hidle') as Hidle.
  rewrite Hconn, Hsend. cbn [negb fst].
  set (run := length (tasks s0)).
  set (c := mkCampaign contacts ip msg 0 0 (length contacts) (now s0)).
  apply (loop_test_inv _ _ _ true _ _
           [(Some run, CampaignStarted (length contacts) (now s0))] c);
    try done.
  - simpl. rewrite length_app. simpl. lia.
  - intros r t'. simpl. intros H.
    destruct (decide (r < length (tasks s0))) as [Hr|Hr].
    + rewrite lookup_app_l in H by done. by destruct (Hidle r t').
    + rewrite lookup_app_r in H by lia.
      destruct (r - length (tasks s0)); done.
  - simpl. apply shuffled_order_length.
  - simpl. lia.
Qed.

(** C1, amended: in a run that starts when no earlier call of
    [startBulkSend] is still in progress, and during which [startBulkSend]
    is not called again, [sent] and [failed] never decrease from one
    progress event to the next (exactly one of them grows by one); there is
    at most one terminal event, its total is the length of the contact
    list, and its [sent + failed] is at most the total, and equal to it
    when neither [stopBulkSend] nor [disconnect] was called. *)
Theorem run_counters contacts ip ap msg rnd (s0 : Service)
    (schedule : list Action) :
  isConnected s0 = true → isSending s0 = false → idle s0 = true →
  no_start schedule = true →
  let s := exec (fst (startBulkSend contacts ip ap msg rnd s0)) schedule in
  ∃ evs, emitted s = emitted s0 ++ evs
    ∧ (∀ k s1 f1 s2 f2,
         progress_counts evs !! k = Some (s1, f1) →
         progress_counts evs !! S k = Some (s2, f2) →
         s1 ≤ s2 ∧ f1 ≤ f2 ∧ s2 + f2 = S (s1 + f1))
    ∧ length (finished_counts evs) ≤ 1
    ∧ (∀ sent failed total,
         (sent, failed, total) ∈ finished_counts evs →
         total = length contacts ∧ sent + failed ≤ total
         ∧ (no_cancel schedule = true → sent + failed = total)).
Proof.
  intros Hconn Hsend Hidle Hns s.
  pose proof (startBulkSend_run_inv contacts ip ap msg rnd s0 Hconn Hsend Hidle)
    as Hinv.
  apply (run_inv_exec _ _ _ _ _ schedule Hns) in Hinv. fold s in Hinv.
  destruct Hinv as (evs & c & Hlog & Hc & Htot & Hcl & Hlast & Hle & Hst).
  exists evs. split; [done|].
  split; [intros k s1 f1 s2 f2; by apply (climbs_lookup 0 0)|].
  destruct Hst as [(t & _ & _ & _ & -> & _)|(_ & _ & -> & Hq)].
  - split; [simpl; lia|]. intros ??? []%elem_of_nil.
  - split; [simpl; lia|]. intros sent failed total [= -> -> ->]%list_elem_of_singleton.
    split; [done|]. split; [done|]. intros Hnc. apply Hq. by rewrite Hnc.
Qed.

(** ** A run left alone reaches its terminal event *)

Lemma timer_fired_next (s : Service) run t wake :
  tasks s !! run = Some (Some t) → at_ t = InSleep wake →
  (wake ≤ now s)%Z → isSending s = true →
  S (i t) < length (shuffledContacts t) →
  tasks (timer_fired run s) !! run = Some (Some (suspend InSend (next t)))
  ∧ attempted (timer_fired run s) = attempted s ++ [(run, S (i t))].
Proof.
  intros Hrun Hat Hw Hs Hi. unfold timer_fired.
  rewrite Hrun, Hat. destruct (Z.leb_spec wake (now s)); [|lia].
  unfold loop_test. cbn [i next shuffledContacts].
  rewrite Hs, andb_true_r.
  destruct (Nat.ltb_spec (S (i t)) (length (shuffledContacts t))); [|lia].
  simpl. split; [|done]. apply list_lookup_insert_eq. by eapply lookup_lt_Some.
Qed.

Lemma round_advances n run log0 (s : Service) k w d :
  run_inv n run log0 true s → attempting s run k →
  let s' := exec s [SendSettled run w d; Tick (Z.to_N d); TimerFired run] in
  (S k < n → attempting s' run (S k)) ∧ (n ≤ S k → tasks s' !! run = Some None).
Proof.
  intros (evs & c & _ & Hc & _ & _ & _ & _ & Hst) (t & Hrun & Hat & <-) s'.
  destruct Hst as [(t0 & Hrun0 & _ & Hlen & _ & Hph & Hq)|(Hdead & _)];
    [|by destruct (Hdead run t)].
  rewrite Hrun in Hrun0. injection Hrun0 as <-.
  unfold phase in Hph. rewrite Hat in Hph. destruct Hph as [_ Hi].
  specialize (Hq eq_refl).
  assert (run < length (tasks s)) as Hlt by (by eapply lookup_lt_Some).
  destruct (lookup_lt_is_Some_2 (shuffledContacts t) (i t)) as [contact Hct];
    [lia|].
  unfold s'. cbn [exec fold_left]. set (sa := step s (SendSettled run w d)).
  set (sb := step sa (Tick (Z.to_N d))).
  pose proof (send_settled_spec s run t contact c w d Hrun Hat Hct Hc) as Ha.
  cbn zeta in Ha. rewrite Hq, andb_true_r, Hlen in Ha. fold (step s (SendSettled run w d)) in Ha.
  fold sa in Ha.
  destruct (Nat.ltb_spec (i t) (n - 1)) as [Hlast|Hlast].
  - split; [intros _|lia].
    assert (tasks sb !! run = Some (Some (suspend (InSleep (now s + d)) t))
            ∧ isSending sb = true ∧ (now s + d ≤ now sb)%Z) as (Hb1 & Hb2 & Hb3).
    { unfold sb. rewrite Ha. simpl. split_and!; [|done|lia].
      by apply list_lookup_insert_eq. }
    destruct (timer_fired_next sb run _ _ Hb1 eq_refl Hb3 Hb2) as [Hnext _];
      [simpl; lia|].
    eexists. split; [exact Hnext|done].
  - split; [lia|intros _].
    assert (tasks sa !! run = Some None) as Hnone.
    { rewrite Ha. unfold loop_test. cbn [i next shuffledContacts]. rewrite Hlen.
      destruct (Nat.ltb_spec (S (i t)) n); [lia|]. cbn [andb].
      unfold after_loop. simpl.
      by apply list_lookup_insert_eq. }
    cbn [step]. unfold timer_fired. unfold sb. cbn [step tasks set_now].
    by rewrite Hnone.
Qed.

Lemma full_schedule_plain run ws :
  no_start (full_schedule run ws) = true
  ∧ no_cancel (full_schedule run ws) = true.
Proof.
  unfold no_start, no_cancel. rewrite !forallb_forall.
  split; intros a (wd & Ha & _)%list_elem_of_In%list_elem_of_bind;
    apply elem_of_cons in Ha as [->|Ha]; [done| |done|];
    apply elem_of_cons in Ha as [->|Ha]; [done| |done|];
    apply elem_of_cons in Ha as [->|Ha]; [done| |done|];
    by apply elem_of_nil in Ha.
Qed.

Lemma full_schedule_returns n run log0 (s : Service) k ws :
  run_inv n run log0 true s → attempting s run k →
  k < n → length ws = n - k →
  tasks (exec s (full_schedule run ws)) !! run = Some None.
Proof.
  revert s k; induction ws as [|[w d] ws IH]; intros s k Hinv Hatt Hk Hlen;
    [simpl in Hlen; lia|].
  change (full_schedule run ((w, d) :: ws))
    with ([SendSettled run w d; Tick (Z.to_N d); TimerFired run]
          ++ full_schedule run ws).
  unfold exec. rewrite fold_left_app.
  fold (exec s [SendSettled run w d; Tick (Z.to_N d); TimerFired run]).
  set (s' := exec s _).
  fold (exec s' (full_schedule run ws)).
  assert (run_inv n run log0 true s') as Hinv'.
  { apply (run_inv_exec n run log0 true s
             [SendSettled run w d; Tick (Z.to_N d); TimerFired run]);
      done. }
  destruct (round_advances n run log0 s k w d Hinv Hatt) as [Hmore Hend].
  fold s' in Hmore, Hend. simpl in Hlen.
  destruct (decide (S k < n)) as [Hlt|Hge].
  - apply (IH s' (S k)); try done; [by apply Hmore|lia].
  - assert (ws = []) as -> by (destruct ws; [done|simpl in Hlen; lia]).
    apply Hend. lia.
Qed.

(** Whatever the outcomes and the delays, the run left alone emits its
    terminal event, with every contact counted. *)
Lemma run_completes contacts ip ap msg rnd (s0 : Service)
    (ws : list (World * Z)) :
  isConnected s0 = true → isSending s0 = false → idle s0 = true →
  length ws = length contacts →
  let run := length (tasks s0) in
  let s := exec (fst (startBulkSend contacts ip ap msg rnd s0))
             (full_schedule run ws) in
  ∃ evs sent failed,
    emitted s = emitted s0 ++ evs
    ∧ finished_counts evs = [(sent, failed, length contacts)]
    ∧ sent + failed = length contacts
    ∧ isSending s = false.
Proof.
  intros Hconn Hsend Hidle Hlen run s.
  pose proof (startBulkSend_run_inv contacts ip ap msg rnd s0 Hconn Hsend Hidle)
    as Hinv. fold run in Hinv.
  destruct (full_schedule_plain run ws) as [Hns Hnc].
  pose proof (run_inv_exec _ _ _ _ _ _ Hns Hinv) as Hend.
  rewrite Hnc in Hend. fold s in Hend.
  destruct Hend as (evs & c & Hlog & Hc & Htot & _ & _ & _ & Hst).
  destruct Hst as [(t & Hrun & _)|(_ & Hs & Hfin & Hq)].
  - exfalso. destruct contacts as [|c0 cs].
    + destruct ws; [|done]. unfold s, startBulkSend in Hrun.
      rewrite Hconn, Hsend in Hrun. cbn in Hrun.
      rewrite list_lookup_insert_eq in Hrun by (rewrite length_app; simpl; lia).
      done.
    + assert (tasks s !! run = Some None) as Hnone; [|congruence].
      apply (full_schedule_returns (length (c0 :: cs)) run (emitted s0) _ 0);
        [done| |simpl; lia|lia].
      unfold startBulkSend. rewrite Hconn, Hsend. cbn [negb fst].
      unfold loop_test. cbn [i shuffledContacts isSending set_tasks emit
        set_currentCampaign set_isSending].
      rewrite shuffled_order_length. cbn [length Nat.ltb Nat.leb andb].
      eexists. split;
        [simpl; apply list_lookup_insert_eq; rewrite length_app; simpl; lia|].
      done.
  - exists evs, (sent c), (failed c). split_and!; try done. by apply Hq.
Qed.

(** C2, amended: a call made while [isConnected] is false, or while
    [isSending] is true, throws before anything else: the service is left
    as it was and nothing is emitted.  Every other call is accepted,
    whatever the list and whatever calls are still suspended: it replaces
    the campaign record by a fresh one, counters at zero, and emits the
    started event, the earlier calls staying where they are.  With an empty
    list the terminal event follows at once, both events with total 0, and
    the call returns; with contacts the first attempt begins. *)
Theorem startBulkSend_preconditions contacts ip ap msg rnd (s : Service) :
  (isConnected s = false →
   startBulkSend contacts ip ap msg rnd s
   = (s, Some (js "WhatsApp n" ++ [227%N] ++ js "o est" ++ [225%N]
               ++ js " conectado")))
  ∧ (isConnected s = true → isSending s = true →
     startBulkSend contacts ip ap msg rnd s
     = (s, Some (js "Uma campanha j" ++ [225%N] ++ js " est" ++ [225%N]
                 ++ js " em andamento")))
  ∧ (isConnected s = true → isSending s = false →
     let s' := fst (startBulkSend contacts ip ap msg rnd s) in
     let run := length (tasks s) in
     snd (startBulkSend contacts ip ap msg rnd s) = None
     ∧ currentCampaign s'
       = Some (mkCampaign contacts ip msg 0 0 (length contacts) (now s))
     ∧ (∃ tail,
          emitted s'
          = emitted s
            ++ (Some run, CampaignStarted (length contacts) (now s)) :: tail)
     ∧ (∀ r, r < run → tasks s' !! r = tasks s !! r)
     ∧ (contacts = [] →
        emitted s'
        = emitted s ++ [(Some run, CampaignStarted 0 (now s));
                        (Some run, CampaignFinished 0 0 0 (RInt 0))]
        ∧ isSending s' = false
        ∧ tasks s' = tasks s ++ [None])
     ∧ (contacts ≠ [] → isSending s' = true ∧ attempting s' run 0)).
Proof.
  split_and!.
  - intros H. unfold startBulkSend. by rewrite H.
  - intros H1 H2. unfold startBulkSend. by rewrite H1, H2.
  - intros H1 H2. unfold startBulkSend. rewrite H1, H2.
    cbn [negb fst snd]. cbn zeta. split_and!.
    + done.
    + by rewrite loop_test_currentCampaign.
    + match goal with
      | |- context [loop_test ?r ?t ?s1] =>
          destruct (loop_test_emitted r t s1) as (tail & -> & _)
      end.
      exists tail. simpl. by rewrite <- app_assoc.
    + intros r Hr. unfold loop_test, after_loop.
      destruct (_ && _); simpl;
        rewrite list_lookup_insert_ne by lia; by rewrite lookup_app_l.
    + intros ->. cbn -[js]. unfold duration_of. rewrite Z.sub_diag.
      split_and!; try done.
      * by rewrite <- app_assoc.
      * apply list_insert_id. by rewrite lookup_app_r, Nat.sub_diag.
    + intros Hne. unfold loop_test.
      cbn [i shuffledContacts isSending set_tasks emit set_currentCampaign
           set_isSending].
      rewrite shuffled_order_length.
      destruct contacts as [|c0 cs]; [done|].
      cbn [length Nat.ltb Nat.leb andb]. split; [done|].
      eexists. split;
        [simpl; apply list_lookup_insert_eq; rewrite length_app; simpl; lia|].
      done.
Qed.

(** ** Cancellation *)

Lemma step_stays_stopped (s : Service) (a : Action) :
  is_start a = false → isSending s = false →
  isSending (step s a) = false ∧ attempted (step s a) = attempted s.
Proof.
  intros Ha Hs. destruct a as [| | | open | r w d | r | ms]; try done.
  - cbn [step]. unfold send_settled.
    destruct (tasks s !! r) as [[t|]|]; [|done|done].
    destruct (at_ t); [|done].
    destruct (shuffledContacts t !! i t) as [contact|]; [|done].
    destruct (currentCampaign s) as [c|] eqn:Ec; [|done].
    destruct (sendMessage _ _ _ _ _) as [out res].
    rewrite count_spec. cbn [isSending emit set_currentCampaign hand_over].
    rewrite Hs, andb_false_r. unfold loop_test.
    cbn [isSending emit set_currentCampaign hand_over].
    rewrite Hs, andb_false_r. unfold after_loop. simpl. done.
  - cbn [step]. unfold timer_fired.
    destruct (tasks s !! r) as [[t|]|]; [|done|done].
    destruct (at_ t); [done|]. destruct (_ <=? _)%Z; [|done].
    unfold loop_test. rewrite Hs, andb_false_r. unfold after_loop. simpl.
    by destruct (currentCampaign s).
Qed.

Lemma exec_stays_stopped (s : Service) (schedule : list Action) :
  no_start schedule = true → isSending s = false →
  attempted (exec s schedule) = attempted s.
Proof.
  revert s; induction schedule as [|a schedule IH]; intros s Hns Hs; [done|].
  cbn in Hns. apply andb_true_iff in Hns as [Ha%negb_true_iff Hns].
  destruct (step_stays_stopped s a Ha Hs) as [Hs' Hatt].
  cbn [exec fold_left]. rewrite <- Hatt. by apply IH.
Qed.

Lemma now_step (s : Service) (a : Action) : (now s ≤ now (step s a))%Z.
Proof.
  destruct a as [cs ip ap msg rnd| | | open | r w d | r | ms]; cbn [step];
    try (simpl; lia).
  - unfold startBulkSend. destruct (isConnected s); [|simpl; lia].
    destruct (isSending s); [simpl; lia|]. cbn [negb fst].
    unfold loop_test, after_loop. destruct (_ && _); simpl; lia.
  - unfold send_settled.
    destruct (tasks s !! r) as [[t|]|]; try lia.
    destruct (at_ t); try lia.
    destruct (shuffledContacts t !! i t) as [contact|]; try lia.
    destruct (currentCampaign s) as [c|] eqn:Ec; try lia.
    destruct (sendMessage _ _ _ _ _) as [out res].
    rewrite count_spec. destruct (_ && _); [simpl; lia|].
    unfold loop_test, after_loop. destruct (_ && _); simpl; lia.
  - unfold timer_fired.
    destruct (tasks s !! r) as [[t|]|]; try lia.
    destruct (at_ t); try lia. destruct (_ <=? _)%Z; try lia.
    unfold loop_test, after_loop. destruct (_ && _); [simpl; lia|].
    simpl. destruct (currentCampaign s); simpl; lia.
Qed.

Lemma now_exec (s : Service) (schedule : list Action) :
  (now s ≤ now (exec s schedule))%Z.
Proof.
  revert s; induction schedule as [|a schedule IH]; intros s; [done|].
  cbn [exec fold_left]. etrans; [apply now_step|apply IH].
Qed.

(** What a call of [startBulkSend] that is resumed does to the other
    calls: nothing. *)
Lemma loop_test_tasks run t (s : Service) r :
  r ≠ run → tasks (loop_test run t s) !! r = tasks s !! r.
Proof.
  intros Hne. unfold loop_test, after_loop.
  destruct (_ && _); simpl; [by rewrite list_lookup_insert_ne|].
  destruct (currentCampaign s); simpl; by rewrite list_lookup_insert_ne.
Qed.

Lemma step_sleeping (s : Service) (a : Action) run t wake :
  tasks s !! run = Some (Some t) → at_ t = InSleep wake →
  (now (step s a) < wake)%Z →
  tasks (step s a) !! run = Some (Some t).
Proof.
  intros Hrun Hat Hnow.
  assert (run < length (tasks s)) as Hlt by (by eapply lookup_lt_Some).
  destruct a as [cs ip ap msg rnd| | | open | r w d | r | ms]; cbn [step] in *;
    try done.
  - unfold startBulkSend. destruct (isConnected s); [|done].
    destruct (isSending s); [done|]. cbn [negb fst].
    rewrite loop_test_tasks by lia. simpl. by rewrite lookup_app_l.
  - destruct (decide (r = run)) as [->|Hne].
    + unfold send_settled. by rewrite Hrun, Hat.
    + unfold send_settled.
      destruct (tasks s !! r) as [[t'|]|]; try done.
      destruct (at_ t'); try done.
      destruct (shuffledContacts t' !! i t') as [contact|]; try done.
      destruct (currentCampaign s) as [c|] eqn:Ec; try done.
      destruct (sendMessage _ _ _ _ _) as [out res].
      rewrite count_spec. destruct (_ && _).
      * simpl. by rewrite list_lookup_insert_ne.
      * by rewrite loop_test_tasks.
  - destruct (decide (r = run)) as [->|Hne].
    + unfold timer_fired in *. rewrite Hrun, Hat in *.
      destruct (Z.leb_spec wake (now s)) as [Hle|]; [|done].
      exfalso. pose proof (now_step s (TimerFired run)) as Hm.
      cbn [step] in Hm. unfold timer_fired in Hm. rewrite Hrun, Hat in Hm.
      destruct (Z.leb_spec wake (now s)); lia.
    + unfold timer_fired.
      destruct (tasks s !! r) as [[t'|]|]; try done.
      destruct (at_ t'); try done. destruct (_ <=? _)%Z; try done.
      by rewrite loop_test_tasks.
Qed.

Lemma exec_sleeping (s : Service) (schedule : list Action) run t wake :
  tasks s !! run = Some (Some t) → at_ t = InSleep wake →
  (now (exec s schedule) < wake)%Z →
  tasks (exec s schedule) !! run = Some (Some t).
Proof.
  revert s; induction schedule as [|a schedule IH]; intros s Hrun Hat Hnow;
    [done|].
  cbn [exec fold_left] in *. apply IH; [|done|done].
  apply (step_sleeping s a run t wake); [done|done|].
  pose proof (now_exec (step s a) schedule). unfold exec in *. lia.
Qed.

(** C3, amended: [stopBulkSend] clears [isSending], emits the stopped event
    at once and touches nothing else, whether or not a campaign is running;
    as long as [startBulkSend] is not called again no further contact is
    attempted; the send in flight is left to settle, and the run then ends
    without sleeping; a delay already in progress is waited out in full. *)
Theorem stopBulkSend_effect (s : Service) :
  isSending (stopBulkSend s) = false
  ∧ emitted (stopBulkSend s) = emitted s ++ [(None, CampaignStopped)]
  ∧ (isConnected (stopBulkSend s) = isConnected s
     ∧ currentCampaign (stopBulkSend s) = currentCampaign s
     ∧ tasks (stopBulkSend s) = tasks s ∧ now (stopBulkSend s) = now s
     ∧ attempted (stopBulkSend s) = attempted s
     ∧ dispatched (stopBulkSend s) = dispatched s)
  ∧ (isSending s = false → stopBulkSend s = emit None CampaignStopped s)
  ∧ (∀ schedule, no_start schedule = true →
       attempted (exec (stopBulkSend s) schedule) = attempted s)
  ∧ (∀ run t contact c w d,
       tasks s !! run = Some (Some t) → at_ t = InSend →
       shuffledContacts t !! i t = Some contact → currentCampaign s = Some c →
       let s' := send_settled run w d (stopBulkSend s) in
       tasks s' !! run = Some None
       ∧ ∃ sent failed duration,
           last (emitted s')
           = Some (Some run, CampaignFinished sent failed (total c) duration))
  ∧ (∀ run t wake schedule,
       tasks s !! run = Some (Some t) → at_ t = InSleep wake →
       (now (exec (stopBulkSend s) schedule) < wake)%Z →
       tasks (exec (stopBulkSend s) schedule) !! run = Some (Some t)).
Proof.
  split_and!; try done.
  - intros Hs. unfold stopBulkSend. f_equal. destruct s. simpl in Hs.
    by subst.
  - intros schedule Hns. by rewrite exec_stays_stopped.
  - intros run t contact c w d Hrun Hat Hct Hc s'. unfold s'.
    rewrite (send_settled_spec _ run t contact c) by done.
    cbn [isSending stopBulkSend emit set_isSending]. rewrite andb_false_r.
    unfold loop_test.
    cbn [isSending stopBulkSend emit set_isSending set_currentCampaign hand_over].
    rewrite andb_false_r. unfold after_loop. simpl. split.
    + apply list_lookup_insert_eq. by eapply lookup_lt_Some.
    + eexists _, _, _. by rewrite last_snoc, counted_total.
  - intros run t wake schedule Hrun Hat Hnow. by apply (exec_sleeping _ _ _ _ wake).
Qed.

Lemma loop_test_dispatched run t (s : Service) :
  dispatched (loop_test run t s) = dispatched s.
Proof.
  unfold loop_test, after_loop.
  destruct ((i t <? _) && isSending s); [done|].
  simpl. by destruct (currentCampaign s).
Qed.

Lemma send_settled_outcome (s : Service) run t contact c w d :
  tasks s !! run = Some (Some t) → at_ t = InSend →
  shuffledContacts t !! i t = Some contact → currentCampaign s = Some c →
  let sm := sendMessage w contact (t_imagePath t) (t_audioPath t) (t_message t) in
  let s' := send_settled run w d s in
  currentCampaign s' = Some (counted (snd sm) c)
  ∧ (∃ tail, emitted s'
             = emitted s ++ progress_event run contact (snd sm) c :: tail
             ∧ progress_counts tail = [])
  ∧ dispatched s' = dispatched s ++ fst sm.
Proof.
  intros Hrun Hat Hct Hc sm s'. unfold s'.
  rewrite (send_settled_spec _ run t contact c) by done. fold sm.
  set (s1 := emit _ _ _).
  destruct ((i t <? length (shuffledContacts t) - 1) && isSending s).
  - split_and!; [done| |done]. exists []. done.
  - split_and!.
    + by rewrite loop_test_currentCampaign.
    + destruct (loop_test_emitted run (next t) s1) as (tail & -> & Htail).
      exists tail. split; [|done]. simpl. by rewrite <- app_assoc.
    + by rewrite loop_test_dispatched.
Qed.

(** ** The percentage *)

Lemma forallb_seq_spec (f : nat → bool) (start len : nat) :
  forallb f (seq start len) = true → ∀ k, start ≤ k < start + len → f k = true.
Proof.
  rewrite forallb_forall. intros H k Hk. apply H, in_seq. lia.
Qed.

Lemma progress_near_upto_spec (bound total done : nat) :
  progress_near_upto bound = true →
  0 < total ≤ bound → done ≤ total → progress_near total done = true.
Proof.
  unfold progress_near_upto. intros H Ht Hd.
  apply (forallb_seq_spec (progress_near total) 0 (S total)); [|lia].
  apply (forallb_seq_spec _ 1 bound H). lia.
Qed.

Lemma progress_near_100 : progress_near_upto 100 = true.
Proof. vm_compute. reflexivity. Qed.

(** Up to 100 contacts the percentage of the progress event is a nearest
    integer of the exact one, and differs from the exact one rounded with
    halves upwards only when the exact one ends in .5. *)
Lemma progress_of_near (total done : nat) :
  0 < total ≤ 100 → done ≤ total → progress_near total done = true.
Proof. apply progress_near_upto_spec, progress_near_100. Qed.

Lemma progress_of_sum (sent failed total : nat) :
  progress_of sent failed total = progress_of (sent + failed) 0 total.
Proof. unfold progress_of. by rewrite Nat2Z.inj_add, Z.add_0_r. Qed.




(** C10, amended: with no image path, no audio path and a blank message,
    [sendMessage] never calls the socket; when the address check passes it
    returns true, so the contact is counted in [sent] and the progress event
    carries no error. *)
Theorem empty_payload_counts_as_sent (w : World) (contact : Contact)
    (ip ap msg : option jsstring) :
  truthy_opt ip = false → truthy_opt ap = false → blank msg →
  fst (sendMessage w contact ip ap msg) = []
  ∧ (registered w contact →
     snd (sendMessage w contact ip ap msg) = Resolved true
     ∧ ∀ (s : Service) run t c d,
         tasks s !! run = Some (Some t) → at_ t = InSend →
         shuffledContacts t !! i t = Some contact →
         currentCampaign s = Some c →
         t_imagePath t = ip → t_audioPath t = ap → t_message t = msg →
         let s' := send_settled run w d s in
         dispatched s' = dispatched s
         ∧ currentCampaign s'
           = Some (mkCampaign (contacts c) (imagePath c) (message c)
                     (S (sent c)) (failed c) (total c) (startTime c))
         ∧ ∃ tail,
             emitted s'
             = emitted s
               ++ (Some run,
                   CampaignProgress (S (sent c)) (failed c) (total c)
                     (number contact) None
                     (progress_of (S (sent c)) (failed c) (total c))) :: tail
             ∧ progress_counts tail = []).
Proof.
  intros Hi Ha Hb.
  destruct (SendFacts.sendMessage_no_payload w contact ip ap msg Hi Ha Hb)
    as [Hnone Hok].
  split; [done|]. intros Hreg. specialize (Hok Hreg).
  split; [by rewrite Hok|].
  intros s run t c d Hrun Hat Hct Hc <- <- <- s'.
  destruct (send_settled_outcome s run t contact c w d Hrun Hat Hct Hc)
    as (H1 & H2 & H3).
  rewrite Hok in H1, H2, H3. cbn [fst snd] in *. unfold s'.
  split; [by rewrite H3, app_nil_r|]. split; [done|]. done.
Qed.

(** ** Runs on sample values *)

Lemma run_counters_witness :
  let schedule := [SendSettled 0 all_well 30000; Tick 30000; TimerFired 0;
                   SendSettled 0 nobody_there 45000] in
  let s := exec (fst (startBulkSend [ana; bia] None None (Some (js "Oi"))
                        zeros connected)) schedule in
  finished_counts (emitted s) = [(1, 1, 2)]
  ∧ ∃ evs, emitted s = emitted connected ++ evs
      ∧ (∀ k s1 f1 s2 f2,
           progress_counts evs !! k = Some (s1, f1) →
           progress_counts evs !! S k = Some (s2, f2) →
           s1 ≤ s2 ∧ f1 ≤ f2 ∧ s2 + f2 = S (s1 + f1))
      ∧ length (finished_counts evs) ≤ 1
      ∧ (∀ sent failed total,
           (sent, failed, total) ∈ finished_counts evs →
           total = length [ana; bia] ∧ sent + failed ≤ total
           ∧ (no_cancel schedule = true → sent + failed = total)).
Proof.
  intros schedule s. split; [vm_compute; reflexivity|].
  apply (run_counters [ana; bia] None None (Some (js "Oi")) zeros connected
           schedule); reflexivity.
Defined.

(** C1 fails as stated: stopped while its first send is in flight, a run
    over two contacts ends with [sent + failed = 1] and [total = 2]. *)
Lemma stopped_run_counterexample :
  let s := exec connected
             [CallStart [ana; bia] None None (Some (js "Oi")) zeros;
              CallStop; SendSettled 0 all_well 30000] in
  emitted s
  = [(Some 0, CampaignStarted 2 0);
     (None, CampaignStopped);
     (Some 0, CampaignProgress 1 0 2 (number bia) None (RInt 50));
     (Some 0, CampaignFinished 1 0 2 (RInt 0))]
  ∧ 1 + 0 ≠ 2.
Proof. split; [vm_compute; reflexivity|lia]. Qed.

(** On sample values; the last call comes after [stopBulkSend], while
    the first call sleeps with one contact counted: it is accepted, and the
    record of the first run is gone. *)
Lemma startBulkSend_preconditions_witness :
  let busy := fst (startBulkSend [ana] None None (Some (js "Oi")) zeros
                     connected) in
  let stopped := exec connected
                   [CallStart [ana; bia] None None (Some (js "Oi")) zeros;
                    SendSettled 0 all_well 30000; CallStop] in
  let again := startBulkSend [ana] None None (Some (js "Oi")) zeros stopped in
  fst (startBulkSend [ana] None None (Some (js "Oi")) zeros (new 0)) = new 0
  ∧ fst (startBulkSend [bia] None None (Some (js "Oi")) zeros busy) = busy
  ∧ isSending (fst (startBulkSend [] None None (Some (js "Oi")) zeros connected))
    = false
  ∧ (tasks stopped !! 0
     = Some (Some (mkTask [bia; ana] 0 None None (Some (js "Oi"))
                     (InSleep 30000)))
     ∧ currentCampaign stopped
       = Some (mkCampaign [ana; bia] None (Some (js "Oi")) 1 0 2 0)
     ∧ finished_counts (emitted stopped) = []
     ∧ snd again = None
     ∧ currentCampaign (fst again)
       = Some (mkCampaign [ana] None (Some (js "Oi")) 0 0 1 0)
     ∧ tasks (fst again) !! 0 = tasks stopped !! 0
     ∧ isSending (fst again) = true).
Proof.
  intros busy stopped again. split_and!.
  - destruct (startBulkSend_preconditions [ana] None None (Some (js "Oi")) zeros
                (new 0)) as (H & _ & _).
    rewrite H; reflexivity.
  - destruct (startBulkSend_preconditions [bia] None None (Some (js "Oi")) zeros
                busy) as (_ & H & _).
    rewrite H; reflexivity.
  - destruct (startBulkSend_preconditions [] None None (Some (js "Oi")) zeros
                connected) as (_ & _ & H).
    destruct (H eq_refl eq_refl) as (_ & _ & _ & _ & H0 & _).
    destruct (H0 eq_refl) as (_ & H1 & _). exact H1.
  - reflexivity.
  - reflexivity.
  - reflexivity.
  - destruct (startBulkSend_preconditions [ana] None None (Some (js "Oi")) zeros
                stopped) as (_ & _ & H).
    destruct (H eq_refl eq_refl) as (H0 & _). exact H0.
  - destruct (startBulkSend_preconditions [ana] None None (Some (js "Oi")) zeros
                stopped) as (_ & _ & H).
    destruct (H eq_refl eq_refl) as (_ & H0 & _). exact H0.
  - destruct (startBulkSend_preconditions [ana] None None (Some (js "Oi")) zeros
                stopped) as (_ & _ & H).
    destruct (H eq_refl eq_refl) as (_ & _ & _ & H0 & _).
    apply (H0 0). vm_compute. lia.
  - destruct (startBulkSend_preconditions [ana] None None (Some (js "Oi")) zeros
                stopped) as (_ & _ & H).
    destruct (H eq_refl eq_refl) as (_ & _ & _ & _ & _ & H0).
    apply H0. discriminate.
Defined.

(** C2 fails as stated: on a connected, idle service a call with no contact
    is accepted; it replaces the campaign record and emits two events. *)
Lemma empty_list_accepted_counterexample :
  let r := startBulkSend [] None None (Some (js "Oi")) zeros connected in
  snd r = None
  ∧ emitted (fst r)
    = [(Some 0, CampaignStarted 0 0); (Some 0, CampaignFinished 0 0 0 (RInt 0))]
  ∧ currentCampaign connected = None
  ∧ currentCampaign (fst r)
    = Some (mkCampaign [] None (Some (js "Oi")) 0 0 0 0).
Proof. vm_compute. done. Qed.

(** The service while the first call sleeps between its two contacts. *)
Lemma stopBulkSend_effect_witness :
  let started := fst (startBulkSend [ana; bia] None None (Some (js "Oi")) zeros
                        connected) in
  let asleep := send_settled 0 all_well 30000 started in
  isSending (stopBulkSend asleep) = false
  ∧ attempted (exec (stopBulkSend asleep) [Tick 30000; TimerFired 0])
    = attempted asleep
  ∧ tasks (send_settled 0 all_well 30000 (stopBulkSend started)) !! 0
    = Some None
  ∧ tasks (exec (stopBulkSend asleep) [Tick 29999; TimerFired 0]) !! 0
    = Some (Some (mkTask [bia; ana] 0 None None (Some (js "Oi"))
                    (InSleep 30000))).
Proof.
  intros started asleep.
  destruct (stopBulkSend_effect asleep) as (H1 & _ & _ & _ & H4 & _ & H6).
  destruct (stopBulkSend_effect started) as (_ & _ & _ & _ & _ & H5 & _).
  split; [exact H1|]. split; [apply H4; reflexivity|]. split.
  - refine (proj1 (H5 0 (mkTask [bia; ana] 0 None None (Some (js "Oi")) InSend)
                     bia
                     (mkCampaign [ana; bia] None (Some (js "Oi")) 0 0 2 0)
                     all_well 30000%Z _ _ _ _)); reflexivity.
  - apply (H6 0 _ 30000%Z); [reflexivity|reflexivity|vm_compute; reflexivity].
Defined.

(** C3 fails as stated: stopped one second into a delay of thirty, the call
    is still waiting for its timer, which cannot fire before the thirty
    seconds are over; the terminal event comes only then. *)
Lemma stop_during_sleep_counterexample :
  let asleep := exec connected
                  [CallStart [ana; bia] None None (Some (js "Oi")) zeros;
                   SendSettled 0 all_well 30000] in
  let stopped := exec asleep [Tick 1000; CallStop; TimerFired 0] in
  tasks asleep !! 0
  = Some (Some (mkTask [bia; ana] 0 None None (Some (js "Oi")) (InSleep 30000)))
  ∧ tasks stopped !! 0 = tasks asleep !! 0
  ∧ now stopped = 1000%Z
  ∧ finished_counts (emitted stopped) = []
  ∧ finished_counts (emitted (exec stopped [Tick 28999; TimerFired 0])) = []
  ∧ finished_counts (emitted (exec stopped [Tick 29000; TimerFired 0]))
    = [(1, 0, 2)].
Proof. vm_compute. done. Qed.



Lemma empty_payload_counts_as_sent_witness :
  let started := fst (startBulkSend [ana] None None (Some (js "  ")) zeros
                        connected) in
  let s' := send_settled 0 all_well 30000 started in
  fst (sendMessage all_well ana None None (Some (js "  "))) = []
  ∧ dispatched s' = dispatched started
  ∧ currentCampaign s'
    = Some (mkCampaign [ana] None (Some (js "  ")) 1 0 1 0).
Proof.
  intros started s'.
  assert (blank (Some (js "  "))) as Hb by (by repeat constructor).
  destruct (empty_payload_counts_as_sent all_well ana None None
              (Some (js "  ")) eq_refl eq_refl Hb) as [H1 H2].
  split; [exact H1|].
  destruct (H2 eq_refl) as [_ H3].
  destruct (H3 started 0 (mkTask [ana] 0 None None (Some (js "  ")) InSend)
              (mkCampaign [ana] None (Some (js "  ")) 0 0 1 0) 30000%Z
              eq_refl eq_refl eq_refl eq_refl eq_refl eq_refl eq_refl)
    as (H4 & H5 & _).
  split; [exact H4|exact H5].
Defined.

(** C10 fails as stated: with the same empty payload, a contact whose
    number is not registered is counted in [failed], and the progress event
    carries the error. *)
Lemma unregistered_empty_payload_counterexample :
  let s := exec connected
             [CallStart [ana] None None None zeros;
              SendSettled 0 nobody_there 30000] in
  sendMessage nobody_there ana None None None
  = ([], Rejected (js "Falha no envio: N" ++ [250%N] ++ js "mero n" ++ [227%N]
                   ++ js "o existe no WhatsApp"))
  ∧ emitted s
    = [(Some 0, CampaignStarted 1 0);
       (Some 0,
        CampaignProgress 0 1 1 (number ana)
          (Some (js "Falha no envio: N" ++ [250%N] ++ js "mero n" ++ [227%N]
                 ++ js "o existe no WhatsApp"))
          (RInt 100));
       (Some 0, CampaignFinished 0 1 1 (RInt 0))].
Proof. vm_compute. done. Qed.

(** ** Overlapping calls

    The theorems above leave out a second [startBulkSend] during a run.
    After [stopBulkSend] the flag is clear, so a new call is accepted while
    the first one is still suspended; it sets the flag again, and the first
    call, once resumed, goes on with its own list on the new campaign
    record. *)
Lemma restart_resumes_first_call :
  let s := exec connected
             [CallStart [ana; bia] None None (Some (js "Oi")) zeros;
              SendSettled 0 all_well 30000;
              CallStop;
              CallStart [ana] None None (Some (js "Oi")) zeros;
              Tick 30000;
              TimerFired 0] in
  attempted s = [(0, 0); (1, 0); (0, 1)]
  ∧ isSending s = true
  ∧ idle s = false.
Proof. vm_compute. done. Qed.

(** The two calls then count on the same record, and each emits a
    terminal event with it: the second run, over one contact, ends with
    one sent of one, and the first call then reports two sent of one. *)
Lemma restart_finishes_twice :
  let s := exec connected
             [CallStart [ana; bia] None None (Some (js "Oi")) zeros;
              SendSettled 0 all_well 30000;
              CallStop;
              CallStart [ana] None None (Some (js "Oi")) zeros;
              Tick 30000;
              TimerFired 0;
              SendSettled 1 all_well 30000;
              SendSettled 0 all_well 30000] in
  finished_counts (emitted s) = [(1, 0, 1); (2, 0, 1)]
  ∧ progress_counts (emitted s) = [(1, 0); (1, 0); (2, 0)].
Proof. vm_compute. done. Qed.

End EngineFacts.

(** * The CSV service: normal forms and the pipeline *)

Module CSVLaws.
Import CSVService CSVFacts.

Lemma strip_non_digits_id (s : jsstring) :
  Forall (λ c, is_digit c = true) s → strip_non_digits s = s.
Proof.
  induction 1 as [|c s Hc _ IH]; [done|].
  unfold strip_non_digits in *. cbn [List.filter]. by rewrite Hc, IH.
Qed.

Lemma cleanPhoneNumber_prefix (s c : jsstring) :
  cleanPhoneNumber s = Some c → take 2 c = js "55".
Proof.
  rewrite cleanPhoneNumber_by_length.
  repeat case_decide; try done; intros <-%(inj Some); try done.
  tauto.
Qed.

(** X1: [cleanPhoneNumber] reads the digits of its argument only, and
    what it returns is a fixed point: made of digits, and returned
    unchanged when given again. *)
Theorem cleanPhoneNumber_normal_form :
  (∀ s s', strip_non_digits s = strip_non_digits s' →
     cleanPhoneNumber s = cleanPhoneNumber s')
  ∧ (∀ s c, cleanPhoneNumber s = Some c →
       strip_non_digits c = c ∧ cleanPhoneNumber c = Some c).
Proof.
  split.
  - intros s s' Heq. rewrite !cleanPhoneNumber_by_length. by rewrite Heq.
  - intros s c Hc.
    destruct (cleanPhoneNumber_canonical s c Hc) as [Hlen Hdig].
    apply cleanPhoneNumber_prefix in Hc as H55.
    apply strip_non_digits_id in Hdig as Hid. split; [done|].
    rewrite cleanPhoneNumber_by_length, Hid. by rewrite decide_True.
Qed.

Lemma isValidBrazilianNumber_spec (n : jsstring) :
  isValidBrazilianNumber n = true ↔
    length n = 13 ∧ take 2 n = js "55" ∧ n !! 4 = Some 57%N ∧
    ∃ ddd, parseInt10 (substring n 2 4) = Some ddd ∧ ddd ∈ validDDDs.
Proof.
  split; [apply isValidBrazilianNumber_accepts|].
  intros (Hlen & H55 & H4 & ddd & Hp & Hin).
  unfold isValidBrazilianNumber, str_eqb, charAt.
  assert (truthy n = true) as -> by (by destruct n).
  rewrite Hlen.
  replace (startsWith n (js "55")) with true
    by (symmetry; by apply (startsWith_take n (js "55"))).
  rewrite H4, bool_decide_eq_true_2 by done.
  rewrite Hp. apply validDDDs_range in Hin as Hr.
  unfold num_lt, num_gt.
  replace (ddd <? 11)%Z with false by lia.
  replace (99 <? ddd)%Z with false by lia.
  cbn [negb Nat.eqb orb].
  apply (includes_In validDDDs (Some ddd)). eauto.
Qed.

Lemma two_digits_parseInt10 (d : jsstring) (k : nat) :
  Forall (λ c, is_digit c = true) d → S k < length d →
  parseInt10 (take 2 (drop k d)) = two_digits d k.
Proof.
  intros Hd Hk. unfold two_digits.
  destruct (lookup_lt_is_Some_2 d k) as [a Ha]; [lia|].
  destruct (lookup_lt_is_Some_2 d (S k)) as [b Hb]; [lia|].
  rewrite Ha, Hb.
  rewrite (drop_S d a k Ha). cbn [take].
  rewrite (drop_S d b (S k) Hb). cbn [take]. rewrite take_0.
  rewrite Forall_lookup in Hd.
  apply parseInt10_two_digits; [by apply (Hd k)|by apply (Hd (S k))].
Qed.

(** X2: a field of the CSV ends in the list of valid contacts exactly when
    its digits are 10 with a listed area code in front, or 11 with a listed
    area code in front and '9' as third digit, or 13 that start with 55,
    with a listed area code next and '9' as fifth digit. *)
Theorem accepted_iff (phoneStr : jsstring) :
  let d := strip_non_digits phoneStr in
  accepted phoneStr = true ↔
    (length d = 10 ∧ area_listed d 0)
    ∨ (length d = 11 ∧ d !! 2 = Some 57%N ∧ area_listed d 0)
    ∨ (length d = 13 ∧ take 2 d = js "55" ∧ d !! 4 = Some 57%N
       ∧ area_listed d 2).
Proof.
  intros d. unfold accepted, area_listed.
  rewrite cleanPhoneNumber_by_length. fold d.
  pose proof (strip_non_digits_digits phoneStr) as Hd. fold d in Hd.
  destruct (decide (length d = 13 ∧ take 2 d = js "55")) as [[H13 H55]|Hno13].
  { rewrite isValidBrazilianNumber_spec.
    rewrite substring_take_drop by lia. cbn [Nat.sub].
    rewrite two_digits_parseInt10 by (done || lia).
    split.
    - intros (_ & _ & H4 & Hz). right. right. done.
    - intros [[? _]|[[? _]|(_ & _ & H4 & Hz)]]; [lia|lia|done]. }
  destruct (decide (length d = 11)) as [H11|Hno11].
  { rewrite isValidBrazilianNumber_spec.
    rewrite substring_take_drop by (rewrite ?length_app, ?H11; simpl; lia).
    cbn [Nat.sub]. change (drop 2 (js "55" ++ d)) with d.
    change ((js "55" ++ d) !! 4) with (d !! 2).
    replace (take 2 d) with (take 2 (drop 0 d)) by done.
    rewrite two_digits_parseInt10 by (done || lia).
    split.
    - intros (_ & _ & H4 & Hz). right. left. done.
    - intros [[? _]|[(_ & H4 & Hz)|(? & _)]]; [lia| |lia].
      split_and!; try done. rewrite length_app, H11. done. }
  destruct (decide (length d = 10)) as [H10|Hno10].
  { rewrite isValidBrazilianNumber_spec.
    destruct d as [|a [|b d']]; [done|done|].
    assert (parseInt10 (substring (js "55" ++ take 2 (a :: b :: d') ++ js "9"
                                     ++ drop 2 (a :: b :: d')) 2 4)
            = two_digits (a :: b :: d') 0) as ->.
    { rewrite <- two_digits_parseInt10 by (done || simpl; lia).
      rewrite substring_take_drop
        by (rewrite ?length_app, ?length_take, ?length_drop; simpl in *; lia).
      f_equal. }
    split.
    - intros (_ & _ & _ & Hz). left. done.
    - intros [[_ Hz]|[(? & _)|(? & _)]]; [|simpl in *; lia|simpl in *; lia].
      split_and!; try done.
      rewrite !length_app, length_take, length_drop. simpl in *. lia. }
  split; [done|]. intros [[? _]|[[? _]|(? & ? & _)]]; tauto.
Qed.

Lemma filter_split_length {A} (f : A → bool) (l : list A) :
  length (List.filter f l) + length (List.filter (λ x, negb (f x)) l)
  = length l.
Proof.
  induction l as [|x l IH]; [done|]. cbn [List.filter].
  destruct (f x); simpl; lia.
Qed.

(** X3: [validateContacts] keeps the contacts that pass the validator, in
    their order, and counts the others: the two numbers add up to the
    length of its argument; of a list it has returned it rejects nothing. *)
Theorem validateContacts_partition (contacts : list Contact) :
  let v := validateContacts contacts in
  valid v = List.filter (λ c, isValidBrazilianNumber (number c)) contacts
  ∧ length (valid v) + invalid v = length contacts
  ∧ validateContacts (valid v) = mkValidation (valid v) 0.
Proof.
  intros v. destruct (validateContacts_filter contacts) as [Hv Hi].
  fold v in Hv, Hi. split; [done|]. split.
  - rewrite Hv, Hi. apply filter_split_length.
  - destruct (validateContacts_filter (valid v)) as [Hv' Hi'].
    assert (List.filter (λ c, isValidBrazilianNumber (number c)) (valid v) = valid v)
      as Hid.
    { rewrite Hv. clear. induction contacts as [|c cs IH]; [done|].
      cbn [List.filter].
      destruct (isValidBrazilianNumber (number c)) eqn:E; [|done].
      cbn [List.filter]. by rewrite E, IH. }
    assert (List.filter (λ c, negb (isValidBrazilianNumber (number c))) (valid v) = [])
      as Hnil.
    { rewrite Hv. clear. induction contacts as [|c cs IH]; [done|].
      cbn [List.filter].
      destruct (isValidBrazilianNumber (number c)) eqn:E; [|done].
      cbn [List.filter]. by rewrite E. }
    rewrite Hid in Hv'. rewrite Hnil in Hi'.
    destruct (validateContacts (valid v)) as [v' i']. simpl in *. by subst.
Qed.

Lemma or_else_spec (a b : option jsstring) (text : jsstring) :
  or_else a b = Some text → truthy text = true →
  (a = Some text ∨ (no_field a ∧ b = Some text)).
Proof.
  unfold or_else, no_field. destruct a as [[|x a]|]; cbn [truthy]; eauto.
Qed.

Lemma or_else_no_field (a b : option jsstring) :
  no_field (or_else a b) ↔ no_field a ∧ no_field b.
Proof.
  unfold or_else, no_field. destruct a as [[|x a]|]; cbn [truthy];
    intuition congruence.
Qed.

Lemma on_data_row (row : Row) (c : Contact) :
  on_data row = Some c →
  rowData c = row ∧ number_field row (original c)
  ∧ cleanPhoneNumber (original c) = Some (number c).
Proof.
  intros H. split; [|split; [|by apply (on_data_number row)]]; revert H;
    unfold on_data.
  - destruct (or_else _ _) as [phoneNumber|]; [|done].
    destruct (truthy phoneNumber); [|done].
    destruct (cleanPhoneNumber phoneNumber) as [cleanNumber|]; [|done].
    destruct (truthy cleanNumber); [|done]. by intros [= <-].
  - destruct (or_else _ _) as [phoneNumber|] eqn:E; [|done].
    destruct (truthy phoneNumber) eqn:Et; [|done].
    destruct (cleanPhoneNumber phoneNumber) as [cleanNumber|]; [|done].
    destruct (truthy cleanNumber); [|done]. intros [= <-]. cbn [original].
    split; [by destruct phoneNumber|].
    apply or_else_spec in E; [|done].
    destruct E as [E|[Hn E]].
    + apply or_else_spec in E; [|done].
      destruct E as [E|[Hn E]]; [by left|right; by left].
    + apply or_else_no_field in Hn as [Hn Hn']. right. right. done.
Qed.

Lemma number_field_or_else (row : Row) (text : jsstring) :
  number_field row text →
  or_else (or_else (row !! js "number") (row !! js "Number"))
    (row !! js "NUMBER") = Some text
  ∧ truthy text = true.
Proof.
  intros [Hne H]. destruct text as [|x text]; [done|]. split; [|done].
  unfold or_else, no_field in *.
  destruct H as [E|[[Hn E]|(Hn & Hn' & E)]]; rewrite E.
  - done.
  - by destruct Hn as [->| ->].
  - by destruct Hn as [->| ->], Hn' as [->| ->].
Qed.

Lemma number_field_on_data (row : Row) (text n : jsstring) :
  number_field row text → cleanPhoneNumber text = Some n →
  on_data row = Some (mkContact n text row).
Proof.
  intros [E Ht]%number_field_or_else Hn. unfold on_data.
  rewrite E, Ht, Hn.
  apply cleanPhoneNumber_canonical in Hn as [Hlen _].
  by destruct n.
Qed.

(** X4: the promise of [parseCSV] resolves only when the file is there
    and the parser ends its stream; it is rejected when the file is
    missing or the parser fails, and never settled when the reading of the
    file fails.  When it resolves, there is at most one contact per record,
    in the order of the file: each has its record, as original the first of
    the fields number, Number and NUMBER that is not empty, and as number
    the normal form of that text; and every record with such a field whose
    text has a normal form gives its contact. *)
Theorem parseCSV_rows (file_exists : bool) (rows : list Row) (fin : StreamEnd) :
  match parseCSV file_exists rows fin with
  | Some (inr contacts) =>
      file_exists = true ∧ fin = StreamEnded
      ∧ rowData <$> contacts `sublist_of` rows
      ∧ (∀ c, c ∈ contacts →
           number_field (rowData c) (original c)
           ∧ cleanPhoneNumber (original c) = Some (number c))
      ∧ (∀ row text n,
           row ∈ rows → number_field row text →
           cleanPhoneNumber text = Some n →
           mkContact n text row ∈ contacts)
  | Some (inl error) =>
      (file_exists = false
       ∧ error = js "Arquivo CSV n" ++ [227%N] ++ js "o encontrado")
      ∨ (file_exists = true
         ∧ ∃ m, fin = StreamFailed m
                ∧ error = js "Erro ao processar CSV: " ++ m)
  | None => file_exists = true ∧ fin = ReadFailed
  end.
Proof.
  destruct (parseCSV file_exists rows fin) as [[error|contacts]|] eqn:E.
  - unfold parseCSV in E. destruct file_exists; cbn [negb] in E.
    + destruct fin as [|m|]; try done. injection E as <-. right. eauto.
    + injection E as <-. by left.
  - assert (file_exists = true ∧ fin = StreamEnded) as [-> ->].
    { unfold parseCSV in E. destruct file_exists; [|done]. by destruct fin. }
    split; [done|]. split; [done|].
    apply parseCSV_contacts in E as ->. split_and!.
    + induction rows as [|row rows IH]; [done|]. cbn [omap list_omap].
      destruct (on_data row) as [c|] eqn:Ec.
      * apply on_data_row in Ec as [<- _]. cbn [fmap list_fmap].
        by apply sublist_skip.
      * by apply sublist_cons.
    + intros c (row & _ & Hrow)%list_elem_of_omap.
      apply on_data_row in Hrow as (-> & ? & ?). done.
    + intros row text n Hrow Hfield Hn. apply list_elem_of_omap.
      exists row. split; [done|]. by apply number_field_on_data.
  - unfold parseCSV in E. destruct file_exists; [|done]. by destruct fin.
Qed.

(** X5: the two revisions of the class that the file holds normalise
    and validate alike. *)
Theorem revisions_agree (s : jsstring) :
  CSVServiceRev2.cleanPhoneNumber s = cleanPhoneNumber s
  ∧ CSVServiceRev2.isValidBrazilianNumber s = isValidBrazilianNumber s.
Proof.
  split; [|apply isValidBrazilianNumber_rev2].
  unfold CSVServiceRev2.cleanPhoneNumber, cleanPhoneNumber.
  by destruct (startsWith s (js "+")).
Qed.

(** ** On sample values *)

Lemma cleanPhoneNumber_normal_form_witness :
  cleanPhoneNumber (js "(11) 98765-4321") = cleanPhoneNumber (js "11987654321")
  ∧ cleanPhoneNumber (js "5511987654321") = Some (js "5511987654321").
Proof.
  destruct CSVLaws.cleanPhoneNumber_normal_form as [H1 H2]. split.
  - apply H1. reflexivity.
  - apply (H2 (js "11 98765 4321")). reflexivity.
Defined.

Lemma parseCSV_rows_witness :
  let rows : list Row := [sample_row; {[ js "Number" := js "abc" ]}] in
  ∃ contacts, parseCSV true rows StreamEnded = Some (inr contacts)
    ∧ rowData <$> contacts `sublist_of` rows
    ∧ sample_contact ∈ contacts.
Proof.
  intros rows.
  pose proof (CSVLaws.parseCSV_rows true rows StreamEnded) as H.
  destruct (parseCSV true rows StreamEnded) as [[error|contacts]|].
  - destruct H as [[H _]|(_ & m & H & _)]; discriminate H.
  - destruct H as (_ & _ & Hsub & _ & Hall).
    exists contacts. split; [reflexivity|]. split; [exact Hsub|].
    apply (Hall sample_row (js "(11) 99999-9999") (js "5511999999999")).
    + apply list_elem_of_here.
    + split; [discriminate|]. left. reflexivity.
    + reflexivity.
  - destruct H as [_ H]. discriminate H.
Defined.

End CSVLaws.

(** * [sendMessage] when something fails *)

Module SendLaws.
Import CSVService WhatsAppService SendFacts.

(** Whatever fails, what was handed to the socket is for the contact:
    the image with the message as its caption, the voice note, or the
    message as a text when no path is given. *)
Lemma sendMessage_elem (w : World) (contact : Contact)
    (imagePath audioPath message : option jsstring) (d : Dispatch) :
  d ∈ fst (sendMessage w contact imagePath audioPath message) →
  jid d = address_of contact
  ∧ match content d with
    | ImageMessage _ caption _ =>
        caption = message ∧ truthy_opt imagePath = true
    | AudioMessage _ _ _ => truthy_opt audioPath = true
    | TextMessage text =>
        message = Some text ∧ truthy_opt imagePath = false
        ∧ truthy_opt audioPath = false
    end.
Proof.
  unfold address_of.
  unfold sendMessage, mbind, send_bind, bind, lift, dispatch, ret, throw,
    rethrow.
  generalize (number contact ++ js "@s.whatsapp.net"). intros J.
  destruct (onWhatsApp w J) as [[[|]|]|m0]; cbn [default negb fst snd];
    try (by intros ?%elem_of_nil).
  destruct imagePath as [ip|], audioPath as [ap|], message as [text|];
    cbn [truthy_opt default];
    try destruct (truthy ip); try destruct (truthy ap);
    try destruct (truthy text); cbn [andb negb];
    try destruct (str_eqb (trim text) []); cbn [andb negb];
    repeat (match goal with
            | |- context [if existsSync w ?p then _ else _] =>
                destruct (existsSync w p)
            | |- context [match readFileSync w ?p with _ => _ end] =>
                destruct (readFileSync w p)
            | |- context [match sock_sendMessage w ?j ?c with _ => _ end] =>
                destruct (sock_sendMessage w j c) as [[]|]
            end; cbn [fst snd app]);
    intros Hd;
    repeat (apply elem_of_cons in Hd as [->|Hd]; [done|]);
    by apply elem_of_nil in Hd.
Qed.

(** X6: whatever fails, [sendMessage] hands to the socket a beginning of
    what is due, and only after the address check has passed; it stops at
    the first message the socket refuses; it resolves, with true, only when
    the check passed and all that is due was taken, and every rejection
    carries the prefix "Falha no envio: ". *)
Theorem sendMessage_outcome (w : World) (contact : Contact)
    (imagePath audioPath message : option jsstring) :
  let out := fst (sendMessage w contact imagePath audioPath message) in
  let res := snd (sendMessage w contact imagePath audioPath message) in
  out `prefix_of` due_dispatches w contact imagePath audioPath message
  ∧ (out ≠ [] → registered w contact)
  ∧ (∀ k d, out !! k = Some d → S k < length out → delivered w d)
  ∧ match res with
    | Resolved b =>
        b = true ∧ registered w contact
        ∧ out = due_dispatches w contact imagePath audioPath message
        ∧ ∀ d, d ∈ out → delivered w d
    | Rejected e => ∃ m, e = js "Falha no envio: " ++ m
    end.
Proof.
  unfold due_dispatches, delivered, registered, image_due, audio_due, text_due,
    image_dispatch, audio_dispatch, text_dispatch, file_of, address_of.
  unfold sendMessage, mbind, send_bind, bind, lift, dispatch, ret, throw,
    rethrow.
  generalize (number contact ++ js "@s.whatsapp.net"). intros J.
  destruct (onWhatsApp w J) as [[[|]|]|m0]; cbn [default negb fst snd];
    try (split_and!; [by eexists|done|by intros [|?] ?|by eexists]).
  destruct imagePath as [ip|], audioPath as [ap|], message as [text|];
    cbn [truthy_opt default];
    try destruct (truthy ip); try destruct (truthy ap);
    try destruct (truthy text); cbn [andb negb];
    try destruct (str_eqb (trim text) []); cbn [andb negb];
    repeat (match goal with
            | |- context [if existsSync w ?p then _ else _] =>
                destruct (existsSync w p)
            | |- context [match readFileSync w ?p with _ => _ end] =>
                destruct (readFileSync w p)
            | |- context [match sock_sendMessage w ?j ?c with _ => _ end] =>
                let E := fresh "E" in destruct (sock_sendMessage w j c) as [[]|] eqn:E
            end; cbn [fst snd app]);
    (split_and!;
     [by eexists
     |done
     |intros [|[|[|k]]] d Hk Hlt; simpl in Hk, Hlt; try lia; try done;
      injection Hk as <-; done
     |first
        [by eexists
        |split_and!; try done;
         intros d Hd; repeat (apply elem_of_cons in Hd as [->|Hd]; [done|]);
         by apply elem_of_nil in Hd]]).
Qed.

(** ** On sample values *)

Lemma sendMessage_outcome_witness :
  let image := Some (js "promo.png") in
  let audio := Some (js "voz.ogg") in
  let out := fst (sendMessage no_voice ana image audio (Some (js "Oi"))) in
  out = [image_dispatch no_voice ana image (Some (js "Oi"));
         audio_dispatch no_voice ana audio]
  ∧ snd (sendMessage no_voice ana image audio (Some (js "Oi")))
    = Rejected (js "Falha no envio: timeout")
  ∧ delivered no_voice (image_dispatch no_voice ana image (Some (js "Oi"))).
Proof.
  intros image audio out.
  destruct (SendLaws.sendMessage_outcome no_voice ana image audio (Some (js "Oi")))
    as (_ & _ & Hfirst & _).
  split; [vm_compute; reflexivity|]. split; [vm_compute; reflexivity|].
  apply (Hfirst 0); [vm_compute; reflexivity|vm_compute; lia].
Defined.

End SendLaws.

(** * The record of a run *)

Module RunFacts.
Import CSVService WhatsAppService Float64 EngineFacts.

Lemma zip_with_snoc {A B C} (f : A → B → C) (xs : list A) (x : A)
    (ys : list B) (y : B) :
  ys !! length xs = Some y →
  zip_with f (xs ++ [x]) ys = zip_with f xs ys ++ [f x y].
Proof.
  revert ys; induction xs as [|a xs IH]; intros [|b ys] Hy; try done.
  - cbn in Hy. injection Hy as ->. by destruct ys.
  - cbn in Hy. cbn [app zip_with]. by rewrite IH.
Qed.

Lemma run_results_snoc ip ap msg ws w L contact :
  L !! length ws = Some contact →
  run_results ip ap msg (ws ++ [w]) L
  = run_results ip ap msg ws L
    ++ [(contact, snd (sendMessage w contact ip ap msg))].
Proof. intros H. unfold run_results. by rewrite (zip_with_snoc _ _ _ _ contact). Qed.

Lemma run_dispatches_snoc ip ap msg ws w L contact :
  L !! length ws = Some contact →
  run_dispatches ip ap msg (ws ++ [w]) L
  = run_dispatches ip ap msg ws L ++ fst (sendMessage w contact ip ap msg).
Proof.
  intros H. unfold run_dispatches.
  rewrite (zip_with_snoc _ _ _ _ contact) by done.
  rewrite concat_app. cbn [concat]. by rewrite app_nil_r.
Qed.

Lemma run_results_length ip ap msg ws L :
  length ws ≤ length L → length (run_results ip ap msg ws L) = length ws.
Proof. intros H. unfold run_results. rewrite length_zip_with. lia. Qed.

Lemma sent_of_snoc rs contact res :
  sent_of (rs ++ [(contact, res)])
  = if resolved res then S (sent_of rs) else sent_of rs.
Proof.
  unfold sent_of. rewrite List.filter_app, length_app. cbn.
  destruct (resolved res); simpl; lia.
Qed.

Lemma failed_of_snoc rs contact res :
  failed_of (rs ++ [(contact, res)])
  = if resolved res then failed_of rs else S (failed_of rs).
Proof.
  unfold failed_of. rewrite List.filter_app, length_app. cbn.
  destruct (resolved res); simpl; lia.
Qed.

Lemma tally_length rs : sent_of rs + failed_of rs = length rs.
Proof.
  unfold sent_of, failed_of. induction rs as [|[c r] rs IH]; [done|].
  cbn. destruct (resolved r); simpl; lia.
Qed.

Lemma progress_trail_snoc run total sent failed rs contact res :
  progress_trail run total sent failed (rs ++ [(contact, res)])
  = progress_trail run total sent failed rs
    ++ [(Some run,
         CampaignProgress
           (sent + sent_of (rs ++ [(contact, res)]))
           (failed + failed_of (rs ++ [(contact, res)])) total
           (number contact) (error_of res)
           (progress_of (sent + sent_of (rs ++ [(contact, res)]))
              (failed + failed_of (rs ++ [(contact, res)])) total))].
Proof.
  revert sent failed; induction rs as [|[c r] rs IH]; intros sent failed.
  - cbn. unfold sent_of, failed_of. cbn. destruct (resolved res); cbn;
      by rewrite ?Nat.add_0_r, ?Nat.add_1_r.
  - cbn [app progress_trail]. rewrite IH. f_equal.
    unfold sent_of, failed_of. cbn [List.filter snd].
    destruct (resolved r); cbn [negb length];
      by rewrite ?Nat.add_succ_r, ?Nat.add_succ_l.
Qed.

Lemma lifecycle_app evs1 evs2 :
  lifecycle (evs1 ++ evs2) = lifecycle evs1 ++ lifecycle evs2.
Proof. apply List.filter_app. Qed.

Lemma iterations_S run k : iterations run (S k) = iterations run k ++ [(run, k)].
Proof. unfold iterations. by rewrite seq_S, fmap_app. Qed.

Section trace.
Variables (L : list Contact) (ip ap msg : option jsstring) (run : nat) (t0 : Z).
Variables (att0 : list (nat * nat)) (disp0 : list Dispatch).
Variable (log0 : list (option nat * Event)).

Lemma loop_test_trace q ws (s : Service) (t : Task) evs c :
  emitted s = log0 ++ evs →
  currentCampaign s = Some c → total c = length L → startTime c = t0 →
  sent c = sent_of (run_results ip ap msg ws L) →
  failed c = failed_of (run_results ip ap msg ws L) →
  dispatched s = disp0 ++ run_dispatches ip ap msg ws L →
  run < length (tasks s) →
  (∀ r t', tasks s !! r = Some (Some t') → r = run) →
  shuffledContacts t = L → t_imagePath t = ip → t_audioPath t = ap →
  t_message t = msg →
  lifecycle evs
  = opening L run t0
    :: progress_trail run (length L) 0 0 (run_results ip ap msg ws L) →
  i t = length ws → i t ≤ length L →
  attempted s = att0 ++ iterations run (length ws) →
  (q = true → isSending s = true) →
  trace_inv L ip ap msg run t0 att0 disp0 log0 q ws (loop_test run t s).
Proof.
  intros Hlog Hc Htot Ht0 Hsent Hfailed Hdisp Hrun Halone HL Hip Hap Hmsg Hlife
    Hi Hle Hatt Hq.
  unfold loop_test. rewrite HL.
  destruct ((i t <? length L) && isSending s) eqn:Etest.
  - apply andb_true_iff in Etest as [Hlt%Nat.ltb_lt Hs].
    exists evs, c. split_and!; try done; [lia|]. left.
    exists (suspend InSend t). split_and!; try done.
    + simpl. by apply list_lookup_insert_eq.
    + intros r t'. simpl. destruct (decide (r = run)) as [->|Hne]; [done|].
      rewrite list_lookup_insert_ne by done. apply Halone.
    + cbn [at_ suspend]. split_and!; try done. simpl.
      by rewrite Hatt, iterations_S, Hi, app_assoc.
  - unfold after_loop. simpl. rewrite Hc.
    exists (evs ++ [(Some run, CampaignFinished (sent c) (failed c) (total c)
                       (duration_of (now s) (startTime c)))]), c.
    split_and!; try done; [simpl; by rewrite Hlog, app_assoc|lia|].
    right. split_and!; try done.
    + intros r t'. simpl. destruct (decide (r = run)) as [->|Hne].
      * by rewrite list_lookup_insert_eq.
      * rewrite list_lookup_insert_ne by done. intros H. by apply Halone in H.
    + exists (now s). rewrite lifecycle_app, Hlife. cbn.
      by rewrite Hsent, Hfailed, Htot, Ht0.
    + intros ->. rewrite Hq in Etest by done. rewrite andb_true_r in Etest.
      apply Nat.ltb_ge in Etest. lia.
Qed.

Lemma trace_inv_weaken q ws (s : Service) :
  trace_inv L ip ap msg run t0 att0 disp0 log0 q ws s →
  trace_inv L ip ap msg run t0 att0 disp0 log0 false ws s.
Proof.
  intros (evs & c & ? & ? & ? & ? & ? & ? & ? & ? & [Hl|Ho]);
    exists evs, c; split_and!; try done.
  - left. destruct Hl as (t & ? & ? & ? & ? & ? & ? & ? & _ & ?).
    exists t. split_and!; done.
  - right. destruct Ho as (? & ? & ? & ? & _). split_and!; done.
Qed.

Lemma trace_inv_step q ws (s : Service) (a : Action) :
  is_start a = false →
  trace_inv L ip ap msg run t0 att0 disp0 log0 q ws s →
  ∃ ws', trace_inv L ip ap msg run t0 att0 disp0 log0
           (q && negb (is_cancel a)) (ws ++ ws') (step s a)
         ∧ ws' `sublist_of` settled_worlds run [a].
Proof.
  intros Ha Hinv.
  assert (∀ q' s', trace_inv L ip ap msg run t0 att0 disp0 log0 q' ws s' →
    ∃ ws', trace_inv L ip ap msg run t0 att0 disp0 log0 q' (ws ++ ws') s'
           ∧ ws' `sublist_of` settled_worlds run [a]) as Hsame.
  { intros q' s' H. exists []. rewrite app_nil_r. split; [done|].
    apply sublist_nil_l. }
  destruct a as [| | | open | r w d | r | ms];
    try done; cbn [is_cancel negb]; rewrite ?andb_true_r, ?andb_false_r.
  - (* stop *)
    apply Hsame. cbn [step].
    apply trace_inv_weaken in Hinv.
    destruct Hinv as (evs & c & Hlog & Hc & Htot & Ht0 & Hsent & Hfailed & Hdisp
                      & Hle & Hst).
    exists (evs ++ [(None, CampaignStopped)]), c. simpl.
    split_and!; try done; [by rewrite Hlog, app_assoc|].
    destruct Hst as [(t & ? & ? & ? & ? & ? & ? & ? & _ & ?)|(? & ? & ? & ? & _)].
    + left. exists t. split_and!; try done.
      by rewrite lifecycle_app, app_nil_r.
    + right. split_and!; try done.
      by rewrite lifecycle_app, app_nil_r.
  - (* disconnect *)
    apply Hsame. cbn [step].
    apply trace_inv_weaken in Hinv.
    destruct Hinv as (evs & c & Hlog & Hc & Htot & Ht0 & Hsent & Hfailed & Hdisp
                      & Hle & Hst).
    exists evs, c. simpl. split_and!; try done.
    destruct Hst as [(t & ? & ? & ? & ? & ? & ? & ? & _ & ?)|(? & ? & ? & ? & _)].
    + left. exists t. split_and!; done.
    + right. done.
  - (* connection update *)
    apply Hsame. cbn [step].
    destruct Hinv as (evs & c & Hlog & Hc & Htot & Ht0 & Hsent & Hfailed & Hdisp
                      & Hle & Hst).
    exists evs, c. simpl. split_and!; try done.
  - (* sendMessage settles *)
    cbn [step].
    destruct Hinv as (evs & c & Hlog & Hc & Htot & Ht0 & Hsent & Hfailed & Hdisp
                      & Hle & Hst).
    assert (trace_inv L ip ap msg run t0 att0 disp0 log0 q ws s) as Hinv
      by (exists evs, c; split_and!; done).
    unfold send_settled.
    destruct (tasks s !! r) as [[t|]|] eqn:Er;
      [|by apply Hsame|by apply Hsame].
    destruct Hst as [(t1 & Hrun & Halone & HL & Hip & Hap & Hmsg & Hlife & Hq
                      & Hph)|Ho];
      [|destruct Ho as (Hdead & _); by destruct (Hdead r t)].
    apply Halone in Er as Hr. subst r. rewrite Hrun in Er.
    injection Er as <-.
    assert (run < length (tasks s)) as Hlt by (by eapply lookup_lt_Some).
    destruct (at_ t1) eqn:Eat;
      [|by apply Hsame].
    destruct Hph as (Hi & Hilt & Hatt).
    destruct (lookup_lt_is_Some_2 L (i t1)) as [contact Hct]; [lia|].
    rewrite HL, Hct, Hc, Hip, Hap, Hmsg.
    exists [w]. split;
      [|cbn; rewrite decide_True by done; apply sublist_skip, sublist_nil].
    rewrite Hi in Hct.
    destruct (sendMessage w contact ip ap msg) as [out res] eqn:Esm.
    pose proof (run_results_snoc ip ap msg ws w L contact Hct) as Hrs.
    pose proof (run_dispatches_snoc ip ap msg ws w L contact Hct) as Hds.
    rewrite Esm in Hrs, Hds. cbn [fst snd] in Hrs, Hds.
    set (c' := counted res c).
    set (s1 := count run contact res c (hand_over out s)).
    assert (emitted s1 = log0 ++ (evs ++ [progress_event run contact res c])
            ∧ currentCampaign s1 = Some c' ∧ tasks s1 = tasks s
            ∧ isSending s1 = isSending s ∧ now s1 = now s
            ∧ attempted s1 = attempted s
            ∧ dispatched s1 = dispatched s ++ out)
      as (Hlog1 & Hc1 & Htasks1 & Hsend1 & Hnow1 & Hatt1 & Hdisp1).
    { unfold s1. rewrite count_spec. simpl. by rewrite Hlog, <- app_assoc. }
    assert (total c' = length L ∧ startTime c' = t0
            ∧ sent c' = sent_of (run_results ip ap msg (ws ++ [w]) L)
            ∧ failed c' = failed_of (run_results ip ap msg (ws ++ [w]) L))
      as (Htot1 & Ht01 & Hsent1 & Hfailed1).
    { rewrite Hrs, sent_of_snoc, failed_of_snoc. unfold c'.
      destruct res; simpl; rewrite ?Hsent, ?Hfailed; done. }
    assert (lifecycle (evs ++ [progress_event run contact res c])
            = opening L run t0
              :: progress_trail run (length L) 0 0
                   (run_results ip ap msg (ws ++ [w]) L)) as Hlife1.
    { rewrite lifecycle_app, Hlife, Hrs, progress_trail_snoc. cbn [app].
      do 2 f_equal. unfold progress_event. fold c'. cbn [lifecycle List.filter snd].
      rewrite <- Hrs, <- Hsent1, <- Hfailed1, Htot. done. }
    assert (length (ws ++ [w]) = S (length ws)) as Hlen1
      by (rewrite length_app; simpl; lia).
    clearbody s1 c'.
    destruct ((i t1 <? length L - 1) && isSending s1) eqn:Esleep.
    + apply andb_true_iff in Esleep as [Hi1%Nat.ltb_lt Hs1].
      exists (evs ++ [progress_event run contact res c]), c'.
      cbn [dispatched emitted currentCampaign set_task set_tasks].
      split_and!; try done; [by rewrite Hdisp1, Hdisp, Hds, app_assoc|lia|].
      left. exists (suspend (InSleep (now s1 + d)) t1).
      split_and!; try done.
      * simpl. rewrite Htasks1. by apply list_lookup_insert_eq.
      * intros r t'. simpl. rewrite Htasks1.
        destruct (decide (r = run)) as [->|Hne]; [done|].
        rewrite list_lookup_insert_ne by done. apply Halone.
      * cbn [at_ suspend i]. rewrite Hlen1. split_and!; [lia|lia|].
        simpl. by rewrite Hatt1, Hatt.
    + apply (loop_test_trace q (ws ++ [w]) s1 (next t1)
               (evs ++ [progress_event run contact res c]) c');
        rewrite ?Htasks1, ?Hsend1, ?Hlen1; try done.
      * by rewrite Hdisp1, Hdisp, Hds, app_assoc.
      * simpl. by rewrite Hi.
      * by rewrite Hatt1, Hatt.
  - (* timer *)
    apply Hsame. cbn [step].
    destruct Hinv as (evs & c & Hlog & Hc & Htot & Ht0 & Hsent & Hfailed & Hdisp
                      & Hle & Hst).
    assert (trace_inv L ip ap msg run t0 att0 disp0 log0 q ws s) as Hinv
      by (exists evs, c; split_and!; done).
    unfold timer_fired.
    destruct (tasks s !! r) as [[t|]|] eqn:Er; [|done|done].
    destruct Hst as [(t1 & Hrun & Halone & HL & Hip & Hap & Hmsg & Hlife & Hq
                      & Hph)|Ho];
      [|destruct Ho as (Hdead & _); by destruct (Hdead r t)].
    apply Halone in Er as Hr. subst r. rewrite Hrun in Er.
    injection Er as <-.
    assert (run < length (tasks s)) as Hlt by (by eapply lookup_lt_Some).
    destruct (at_ t1) eqn:Eat; [done|].
    destruct Hph as (Hi & Hilt & Hatt).
    destruct (wake <=? now s)%Z; [|done].
    apply (loop_test_trace q ws s (next t1) evs c); try done; simpl; lia.
  - (* tick *)
    apply Hsame. cbn [step].
    destruct Hinv as (evs & c & Hlog & Hc & Htot & Ht0 & Hsent & Hfailed & Hdisp
                      & Hle & Hst).
    exists evs, c. simpl. split_and!; try done.
Qed.

Lemma settled_worlds_cons a schedule :
  settled_worlds run (a :: schedule)
  = settled_worlds run [a] ++ settled_worlds run schedule.
Proof. unfold settled_worlds. cbn [omap list_omap]. by destruct a; try case_decide. Qed.

Lemma trace_inv_exec q ws (s : Service) (schedule : list Action) :
  no_start schedule = true →
  trace_inv L ip ap msg run t0 att0 disp0 log0 q ws s →
  ∃ ws', trace_inv L ip ap msg run t0 att0 disp0 log0
           (q && no_cancel schedule) (ws ++ ws') (exec s schedule)
         ∧ ws' `sublist_of` settled_worlds run schedule.
Proof.
  revert q ws s; induction schedule as [|a schedule IH]; intros q ws s Hns Hinv.
  - exists []. rewrite app_nil_r, andb_true_r. done.
  - cbn in Hns. apply andb_true_iff in Hns as [Ha%negb_true_iff Hns].
    destruct (trace_inv_step q ws s a Ha Hinv) as (ws1 & Hinv1 & Hsub1).
    destruct (IH _ _ _ Hns Hinv1) as (ws2 & Hinv2 & Hsub2).
    exists (ws1 ++ ws2). split.
    + cbn [exec fold_left no_cancel forallb].
      rewrite andb_assoc, app_assoc. exact Hinv2.
    + rewrite settled_worlds_cons. by apply sublist_app.
Qed.

End trace.

Lemma startBulkSend_trace contacts ip ap msg rnd (s0 : Service) :
  isConnected s0 = true → isSending s0 = false → idle s0 = true →
  trace_inv (Arrays.shuffled_order rnd contacts) ip ap msg (length (tasks s0))
    (now s0) (attempted s0) (dispatched s0) (emitted s0) true []
    (fst (startBulkSend contacts ip ap msg rnd s0)).
Proof.
  intros Hconn Hsend Hidle'. unfold startBulkSend.
  pose proof (proj1 (idle_lookup s0) Hidle') as Hidle.
  rewrite Hconn, Hsend. cbn [negb fst].
  set (run := length (tasks s0)).
  set (c := mkCampaign contacts ip msg 0 0 (length contacts) (now s0)).
  apply (loop_test_trace _ _ _ _ _ _ _ _ _ true [] _ _
           [(Some run, CampaignStarted (length contacts) (now s0))] c);
    try done.
  - simpl. by rewrite shuffled_order_length.
  - simpl. by rewrite app_nil_r.
  - simpl. rewrite length_app. simpl. lia.
  - intros r t'. simpl. intros H.
    destruct (decide (r < length (tasks s0))) as [Hr|Hr].
    + rewrite lookup_app_l in H by done. by destruct (Hidle r t').
    + rewrite lookup_app_r in H by lia.
      destruct (r - length (tasks s0)); done.
  - unfold opening. by rewrite shuffled_order_length.
  - simpl. lia.
  - simpl. by rewrite app_nil_r.
Qed.

Lemma run_dispatches_elem ip ap msg ws L (d : Dispatch) :
  d ∈ run_dispatches ip ap msg ws L →
  ∃ w contact, w ∈ ws ∧ contact ∈ L
    ∧ d ∈ fst (sendMessage w contact ip ap msg).
Proof.
  unfold run_dispatches. revert L; induction ws as [|w ws IH]; intros [|c L];
    cbn [zip_with concat]; try (by intros ?%elem_of_nil).
  rewrite elem_of_app. intros [H|H].
  - exists w, c. split_and!; [left|left|done].
  - destruct (IH L H) as (w' & c' & ? & ? & ?).
    exists w', c'. split_and!; [by right|by right|done].
Qed.

Lemma loop_test_tasks_length run t (s : Service) :
  length (tasks (loop_test run t s)) = length (tasks s).
Proof.
  unfold loop_test, after_loop. destruct (_ && _); simpl;
    [by rewrite length_insert|].
  destruct (currentCampaign s); simpl; by rewrite length_insert.
Qed.

Lemma step_tasks_length (s : Service) (a : Action) :
  length (tasks s) ≤ length (tasks (step s a)).
Proof.
  destruct a as [cs ip ap msg rnd| | | open | r w d | r | ms]; cbn [step];
    try done.
  - unfold startBulkSend. destruct (isConnected s); [|done].
    destruct (isSending s); [done|]. cbn [negb fst].
    rewrite loop_test_tasks_length. simpl. rewrite length_app. lia.
  - unfold send_settled.
    destruct (tasks s !! r) as [[t|]|]; try done.
    destruct (at_ t); try done.
    destruct (shuffledContacts t !! i t) as [contact|]; try done.
    destruct (currentCampaign s) as [c|] eqn:Ec; try done.
    destruct (sendMessage _ _ _ _ _) as [out res].
    rewrite count_spec. destruct (_ && _).
    + simpl. by rewrite length_insert.
    + by rewrite loop_test_tasks_length.
  - unfold timer_fired.
    destruct (tasks s !! r) as [[t|]|]; try done.
    destruct (at_ t); try done. destruct (_ <=? _)%Z; try done.
    by rewrite loop_test_tasks_length.
Qed.

Lemma exec_tasks_length (s : Service) (schedule : list Action) run :
  run < length (tasks s) → run < length (tasks (exec s schedule)).
Proof.
  revert s; induction schedule as [|a schedule IH]; intros s H; [done|].
  cbn [exec fold_left]. apply IH. pose proof (step_tasks_length s a). lia.
Qed.

Lemma startBulkSend_tasks_length contacts ip ap msg rnd (s0 : Service) :
  isConnected s0 = true → isSending s0 = false →
  length (tasks s0)
  < length (tasks (fst (startBulkSend contacts ip ap msg rnd s0))).
Proof.
  intros Hconn Hsend. unfold startBulkSend. rewrite Hconn, Hsend.
  cbn [negb fst]. rewrite loop_test_tasks_length. simpl.
  rewrite length_app. simpl. lia.
Qed.

(** X7: the events of a run that starts when no earlier call of
    [startBulkSend] is still in progress, and during which [startBulkSend]
    is not called again, are, stop notices apart: the started event; one
    progress event
    for each attempt that has settled, on the contacts of the shuffled list
    in order, with the numbers of attempts resolved and rejected so far and
    the error of a rejection; and last, once the call has returned, the
    terminal event with these two numbers. *)
Theorem run_lifecycle contacts ip ap msg rnd (s0 : Service)
    (schedule : list Action) :
  isConnected s0 = true → isSending s0 = false → idle s0 = true →
  no_start schedule = true →
  let run := length (tasks s0) in
  let L := Arrays.shuffled_order rnd contacts in
  let s := exec (fst (startBulkSend contacts ip ap msg rnd s0)) schedule in
  ∃ ws evs fin,
    ws `sublist_of` settled_worlds run schedule
    ∧ length ws ≤ length contacts
    ∧ emitted s = emitted s0 ++ evs
    ∧ lifecycle evs
      = (Some run, CampaignStarted (length contacts) (now s0))
        :: progress_trail run (length contacts) 0 0 (run_results ip ap msg ws L)
        ++ fin
    ∧ ((fin = [] ∧ ∃ t, tasks s !! run = Some (Some t))
       ∨ (tasks s !! run = Some None ∧ isSending s = false
          ∧ ∃ endTime,
              fin = [(Some run,
                      CampaignFinished (sent_of (run_results ip ap msg ws L))
                        (failed_of (run_results ip ap msg ws L))
                        (length contacts) (duration_of endTime (now s0)))])).
Proof.
  intros Hconn Hsend Hidle Hns run L s.
  pose proof (startBulkSend_trace contacts ip ap msg rnd s0 Hconn Hsend Hidle)
    as Hinv.
  assert (run < length (tasks s)) as Hrun'.
  { apply exec_tasks_length, startBulkSend_tasks_length; done. }
  destruct (trace_inv_exec _ _ _ _ _ _ _ _ _ _ _ _ schedule Hns Hinv)
    as (ws & Hend & Hsub).
  fold s run L in Hend, Hsub. cbn [app] in Hend.
  destruct Hend as (evs & c & Hlog & Hc & Htot & Ht0 & Hsent & Hfailed & Hdisp
                    & Hle & Hst).
  assert (length L = length contacts) as HL by apply shuffled_order_length.
  destruct Hst as [(t & Hrun1 & _ & _ & _ & _ & _ & Hlife & _)
                  |(Hdead & Hs & (endTime & Hlife) & _)];
    unfold opening in Hlife; rewrite HL in *.
  - exists ws, evs, []. rewrite app_nil_r. split_and!; try done.
    left. eauto.
  - exists ws, evs. eexists. split_and!; try done. right.
    split_and!; [|done|by exists endTime].
    destruct (lookup_lt_is_Some_2 (tasks s) run Hrun') as [[t|] Ht]; [|done].
    by destruct (Hdead run t).
Qed.

(** X8: in a run that starts when no earlier call of [startBulkSend] is
    still in progress, and during which [startBulkSend] is not called
    again, the iterations begun are 0, 1, 2, ..., each once, at most one
    more than the attempts settled; what is handed to the socket
    is, in the shuffled order, what [sendMessage] hands over for each
    contact, and so goes to contacts of the list only. *)
Theorem run_hands_over contacts ip ap msg rnd (s0 : Service)
    (schedule : list Action) :
  isConnected s0 = true → isSending s0 = false → idle s0 = true →
  no_start schedule = true →
  let run := length (tasks s0) in
  let L := Arrays.shuffled_order rnd contacts in
  let s := exec (fst (startBulkSend contacts ip ap msg rnd s0)) schedule in
  ∃ ws k,
    ws `sublist_of` settled_worlds run schedule
    ∧ dispatched s = dispatched s0 ++ run_dispatches ip ap msg ws L
    ∧ attempted s = attempted s0 ++ iterations run k
    ∧ length ws ≤ k ≤ S (length ws) ∧ k ≤ length contacts
    ∧ L ≡ₚ contacts
    ∧ ∀ d, d ∈ run_dispatches ip ap msg ws L →
        ∃ contact, contact ∈ contacts ∧ jid d = address_of contact.
Proof.
  intros Hconn Hsend Hidle Hns run L s.
  pose proof (startBulkSend_trace contacts ip ap msg rnd s0 Hconn Hsend Hidle)
    as Hinv.
  destruct (trace_inv_exec _ _ _ _ _ _ _ _ _ _ _ _ schedule Hns Hinv)
    as (ws & Hend & Hsub).
  fold s run L in Hend, Hsub. cbn [app] in Hend.
  destruct Hend as (evs & c & Hlog & Hc & Htot & Ht0 & Hsent & Hfailed & Hdisp
                    & Hle & Hst).
  assert (length L = length contacts) as HL by apply shuffled_order_length.
  assert (L ≡ₚ contacts) as Hperm by apply ArraysFacts.permute_Permutation.
  assert (∃ k, attempted s = attempted s0 ++ iterations run k
               ∧ length ws ≤ k ≤ S (length ws) ∧ k ≤ length contacts)
    as (k & Hatt & Hk & Hk').
  { destruct Hst as [(t & _ & _ & _ & _ & _ & _ & _ & _ & Hph)
                    |(_ & _ & _ & Hatt & _)].
    - destruct (at_ t); destruct Hph as (Hi & Hlt & Hatt).
      + exists (S (length ws)). split; [done|]. lia.
      + exists (length ws). split; [done|]. lia.
    - exists (length ws). split; [done|]. lia. }
  exists ws, k. split_and!; try done; try lia.
  intros d (w & contact & _ & Hin & Hd)%run_dispatches_elem.
  exists contact. split; [by rewrite <- Hperm|].
  by apply SendLaws.sendMessage_elem in Hd as [? _].
Qed.

Lemma send_settled_attempted (s : Service) run w d :
  attempted (send_settled run w d s) = attempted s.
Proof.
  unfold send_settled.
  destruct (tasks s !! run) as [[t|]|]; try done.
  destruct (at_ t); try done.
  destruct (shuffledContacts t !! i t) as [contact|]; try done.
  destruct (currentCampaign s) as [c|] eqn:Ec; try done.
  destruct (sendMessage _ _ _ _ _) as [out res].
  rewrite count_spec.
  cbn [isSending emit set_currentCampaign hand_over].
  destruct (isSending s) eqn:Es; rewrite ?andb_true_r, ?andb_false_r.
  - destruct (Nat.ltb_spec (i t) (length (shuffledContacts t) - 1)); [done|].
    unfold loop_test. cbn [i next shuffledContacts].
    destruct (Nat.ltb_spec (S (i t)) (length (shuffledContacts t))); [lia|].
    cbn [andb]. unfold after_loop. simpl. done.
  - unfold loop_test. cbn [isSending emit set_currentCampaign hand_over].
    rewrite Es, andb_false_r. unfold after_loop. simpl. done.
Qed.

Lemma step_idle (s : Service) (a : Action) :
  is_start a = false → idle s = true →
  idle (step s a) = true ∧ attempted (step s a) = attempted s
  ∧ dispatched (step s a) = dispatched s.
Proof.
  intros Ha Hidle. pose proof (proj1 (idle_lookup s) Hidle) as Hdead.
  destruct a as [| | | open | r w d | r | ms]; try done; cbn [step].
  - unfold send_settled.
    destruct (tasks s !! r) as [[t|]|] eqn:Er; try done.
    by destruct (Hdead r t).
  - unfold timer_fired.
    destruct (tasks s !! r) as [[t|]|] eqn:Er; try done.
    by destruct (Hdead r t).
Qed.

Lemma exec_idle (s : Service) (schedule : list Action) :
  no_start schedule = true → idle s = true →
  attempted (exec s schedule) = attempted s
  ∧ dispatched (exec s schedule) = dispatched s.
Proof.
  revert s; induction schedule as [|a schedule IH]; intros s Hns Hidle; [done|].
  cbn in Hns. apply andb_true_iff in Hns as [Ha%negb_true_iff Hns].
  destruct (step_idle s a Ha Hidle) as (Hidle' & Hatt & Hdisp).
  cbn [exec fold_left]. rewrite <- Hatt, <- Hdisp. by apply IH.
Qed.

(** X9: in a run that starts when no earlier call of [startBulkSend] is
    still in progress: once an attempt has settled, nothing is attempted
    nor handed to the socket before the delay drawn for it has passed,
    whatever is called or fires meanwhile, [startBulkSend] apart. *)
Theorem attempts_are_paced contacts ip ap msg rnd (s0 : Service)
    (before after : list Action) k w d :
  isConnected s0 = true → isSending s0 = false → idle s0 = true →
  no_start before = true → no_start after = true →
  let run := length (tasks s0) in
  let s1 := exec (fst (startBulkSend contacts ip ap msg rnd s0)) before in
  let s2 := send_settled run w d s1 in
  attempting s1 run k →
  (now (exec s2 after) < now s1 + d)%Z →
  attempted (exec s2 after) = attempted s1
  ∧ dispatched (exec s2 after) = dispatched s2.
Proof.
  intros Hconn Hsend Hidle Hns1 Hns2 run s1 s2 (t & Hrun & Hat & Hk) Hnow.
  pose proof (startBulkSend_trace contacts ip ap msg rnd s0 Hconn Hsend Hidle)
    as Hinv.
  destruct (trace_inv_exec _ _ _ _ _ _ _ _ _ _ _ _ before Hns1 Hinv)
    as (ws1 & Hinv1 & _).
  fold s1 run in Hinv1. cbn [app] in Hinv1.
  destruct (trace_inv_step _ _ _ _ _ _ _ _ _ _ _ _ (SendSettled run w d)
              eq_refl Hinv1) as (ws' & Hinv2 & _).
  cbn [step] in Hinv2. fold s2 in Hinv2.
  rewrite <- (send_settled_attempted s1 run w d). fold s2.
  destruct (trace_inv_exec _ _ _ _ _ _ _ _ _ _ _ _ after Hns2 Hinv2)
    as (ws'' & Hinv3 & _).
  destruct Hinv1 as (evs1 & c1 & _ & Hc1 & _ & _ & _ & _ & _ & _ & Hst1).
  destruct Hst1 as [(t1 & Hrun1 & _ & HL1 & _ & _ & _ & _ & _ & Hph1)
                   |(Hdead & _)]; [|by destruct (Hdead run t)].
  rewrite Hrun in Hrun1. injection Hrun1 as <-.
  rewrite Hat in Hph1. destruct Hph1 as (_ & Hlt & _).
  destruct (lookup_lt_is_Some_2 (shuffledContacts t) (i t)) as [contact Hct];
    [by rewrite HL1|].
  pose proof (send_settled_spec s1 run t contact c1 w d Hrun Hat Hct Hc1) as Hs2.
  cbn zeta in Hs2. fold s2 in Hs2.
  assert (run < length (tasks s1)) as Hlen by (by eapply lookup_lt_Some).
  destruct ((i t <? length (shuffledContacts t) - 1) && isSending s1) eqn:Etest.
  - (* the call sleeps *)
    assert (tasks s2 !! run
            = Some (Some (suspend (InSleep (now s1 + d)) t))) as Hrun2.
    { rewrite Hs2. simpl. by apply list_lookup_insert_eq. }
    pose proof (exec_sleeping s2 after run _ (now s1 + d)%Z Hrun2 eq_refl Hnow)
      as Hrun3.
    destruct Hinv2 as (evs2 & c2 & _ & _ & _ & _ & _ & _ & Hdisp2 & _ & Hst2).
    destruct Hinv3 as (evs3 & c3 & _ & _ & _ & _ & _ & _ & Hdisp3 & _ & Hst3).
    destruct Hst2 as [(t2 & Hrun2' & _ & _ & _ & _ & _ & _ & _ & Hph2)
                     |(Hdead & _)];
      [|by destruct (Hdead run _ Hrun2)].
    destruct Hst3 as [(t3 & Hrun3' & _ & _ & _ & _ & _ & _ & _ & Hph3)
                     |(Hdead & _)];
      [|by destruct (Hdead run _ Hrun3)].
    rewrite Hrun2 in Hrun2'. injection Hrun2' as <-.
    rewrite Hrun3 in Hrun3'. injection Hrun3' as <-.
    cbn [at_ suspend i] in Hph2, Hph3.
    destruct Hph2 as (Hi2 & _ & Hatt2). destruct Hph3 as (Hi3 & _ & Hatt3).
    assert (ws'' = []) as ->.
    { apply length_zero_iff_nil. rewrite Hi2 in Hi3.
      rewrite (length_app _ ws'') in Hi3. lia. }
    rewrite app_nil_r in *. split; congruence.
  - (* the call returns *)
    assert (idle s2 = true) as Hidle2.
    { apply idle_lookup. intros r t' Hr.
      destruct Hinv2 as (evs2 & c2 & _ & _ & _ & _ & _ & _ & _ & _ & Hst2).
      destruct Hst2 as [(t2 & Hrun2 & _)|(Hdead & _)]; [|by destruct (Hdead r t')].
      revert Hrun2. rewrite Hs2. unfold loop_test.
      cbn [i next shuffledContacts isSending emit set_currentCampaign hand_over].
      destruct (isSending s1) eqn:Es; rewrite ?andb_true_r, ?andb_false_r in *.
      + apply Nat.ltb_ge in Etest.
        destruct (Nat.ltb_spec (S (i t)) (length (shuffledContacts t))); [lia|].
        unfold after_loop. simpl. by rewrite list_lookup_insert_eq.
      + unfold after_loop. simpl. by rewrite list_lookup_insert_eq. }
    by apply exec_idle.
Qed.

(** X10: a call asleep between two contacts goes on after [stopBulkSend]
    once [startBulkSend] has been called again before its timer fires: the
    two calls are then in an attempt at the same time, and the attempt of
    the first is counted in the campaign of the second. *)
Theorem overlapping_calls (s : Service) run t wake cs ip ap msg rnd ms w d :
  isConnected s = true →
  tasks s !! run = Some (Some t) → at_ t = InSleep wake →
  (wake ≤ now s + Z.of_N ms)%Z →
  S (i t) < length (shuffledContacts t) → cs ≠ [] →
  let run' := length (tasks s) in
  let s' := exec s [CallStop; CallStart cs ip ap msg rnd; Tick ms;
                    TimerFired run] in
  attempting s' run (S (i t)) ∧ attempting s' run' 0
  ∧ isSending s' = true
  ∧ attempted s' = attempted s ++ [(run', 0); (run, S (i t))]
  ∧ currentCampaign s' = Some (mkCampaign cs ip msg 0 0 (length cs) (now s))
  ∧ ∃ c, currentCampaign (send_settled run w d s') = Some c
         ∧ contacts c = cs ∧ total c = length cs ∧ sent c + failed c = 1.
Proof.
  intros Hconn Hrun Hat Hwake Hi Hcs run' s'.
  assert (run < length (tasks s)) as Hlt by (by eapply lookup_lt_Some).
  assert (0 < length (Arrays.shuffled_order rnd cs)) as Hlen.
  { rewrite shuffled_order_length. destruct cs; [done|simpl; lia]. }
  set (c := mkCampaign cs ip msg 0 0 (length cs) (now s)).
  set (t' := mkTask (Arrays.shuffled_order rnd cs) 0 ip ap msg InSend).
  set (sa := mkService true true (Some c) (now s + Z.of_N ms)
               (<[run' := Some t']> (tasks s ++ [None]))
               (emitted s ++ [(None, CampaignStopped)]
                ++ [(Some run', CampaignStarted (length cs) (now s))])
               (attempted s ++ [(run', 0)]) (dispatched s)).
  assert (exec s [CallStop; CallStart cs ip ap msg rnd; Tick ms] = sa) as Ha.
  { cbn [exec fold_left step]. unfold stopBulkSend, startBulkSend.
    cbn [isConnected isSending emit set_isSending]. rewrite Hconn.
    cbn [negb fst]. unfold loop_test.
    cbn [i shuffledContacts isSending emit set_currentCampaign set_isSending
           set_tasks tasks].
    destruct (Nat.ltb_spec 0 (length (Arrays.shuffled_order rnd cs))); [|lia].
    cbn [andb]. unfold sa, set_task, attempt, suspend, set_tasks. simpl.
    by rewrite Hconn, <- app_assoc. }
  assert (tasks sa !! run = Some (Some t)) as Hrun_a.
  { unfold sa. cbn [tasks]. rewrite list_lookup_insert_ne by (unfold run'; lia).
    by rewrite lookup_app_l. }
  assert (s' = set_task run (Some (suspend InSend (next t)))
                 (attempt run (S (i t)) sa)) as Hs'.
  { unfold s'.
    change [CallStop; CallStart cs ip ap msg rnd; Tick ms; TimerFired run]
      with ([CallStop; CallStart cs ip ap msg rnd; Tick ms] ++ [TimerFired run]).
    unfold exec. rewrite fold_left_app.
    fold (exec s [CallStop; CallStart cs ip ap msg rnd; Tick ms]). rewrite Ha.
    cbn [fold_left step]. unfold timer_fired. rewrite Hrun_a, Hat.
    destruct (Z.leb_spec wake (now sa)) as [_|Hn]; [|simpl in Hn; lia].
    unfold loop_test. cbn [i next shuffledContacts].
    destruct (Nat.ltb_spec (S (i t)) (length (shuffledContacts t))); [|lia].
    done. }
  assert (tasks s' !! run = Some (Some (suspend InSend (next t)))) as Hrun'.
  { rewrite Hs'. simpl. apply list_lookup_insert_eq.
    rewrite length_insert, length_app. lia. }
  split_and!.
  - eexists. split; [exact Hrun'|]. done.
  - exists t'. split; [|done]. rewrite Hs'. simpl.
    rewrite list_lookup_insert_ne by (unfold run'; lia).
    apply list_lookup_insert_eq. rewrite length_app. simpl. unfold run'. lia.
  - by rewrite Hs'.
  - rewrite Hs'. simpl. by rewrite <- app_assoc.
  - by rewrite Hs'.
  - destruct (lookup_lt_is_Some_2 (shuffledContacts t) (S (i t)) Hi)
      as [contact Hct].
    destruct (send_settled_outcome s' run (suspend InSend (next t)) contact c
                w d Hrun' eq_refl Hct) as (Hc' & _); [by rewrite Hs'|].
    eexists. split; [exact Hc'|]. by destruct (snd _).
Qed.

(** X11: up to 100 contacts, the percentage of a progress event is an
    integer from 0 to 100, within half a point of the exact percentage, and
    100 when every contact has been attempted. *)
Theorem progress_of_range (sent failed total : nat) :
  0 < total ≤ 100 → sent + failed ≤ total →
  ∃ z, progress_of sent failed total = RInt z
    ∧ (0 ≤ z ≤ 100)%Z
    ∧ (2 * Z.abs (z * Z.of_nat total - 100 * Z.of_nat (sent + failed))
       ≤ Z.of_nat total)%Z
    ∧ (sent + failed = total → z = 100%Z)
    ∧ (sent + failed = 0 → z = 0%Z).
Proof.
  intros Ht Hd. pose proof (progress_of_near total (sent + failed) Ht Hd) as H.
  unfold progress_near in H. rewrite <- progress_of_sum in H.
  destruct (progress_of sent failed total) as [| |z]; try done.
  apply andb_true_iff in H as [H%Z.leb_le _].
  exists z. split; [done|]. split_and!; [nia|nia|done|intros E; nia|intros E; nia].
Qed.

Lemma sublist_same_length {A} (l1 l2 : list A) :
  l1 `sublist_of` l2 → length l2 ≤ length l1 → l1 = l2.
Proof.
  induction 1 as [|x l1 l2 H IH|x l1 l2 H IH]; intros Hlen; [done| |].
  - f_equal. apply IH. simpl in Hlen. lia.
  - apply sublist_length in H. simpl in Hlen. lia.
Qed.

Lemma settled_worlds_full run (wds : list (World * Z)) :
  settled_worlds run (full_schedule run wds) = wds.*1.
Proof.
  unfold settled_worlds, full_schedule.
  induction wds as [|[w d] wds IH]; [done|].
  cbn. rewrite decide_True by done. f_equal. exact IH.
Qed.

Lemma lifecycle_id evs :
  Forall (λ e, is_stopped e = false) evs → lifecycle evs = evs.
Proof.
  induction 1 as [|e evs He _ IH]; [done|].
  unfold lifecycle, is_stopped in *. cbn [List.filter].
  destruct (e.2); try done; by rewrite IH.
Qed.

Lemma loop_test_unstopped run t (s : Service) :
  ∃ tail, emitted (loop_test run t s) = emitted s ++ tail
          ∧ Forall (λ e, is_stopped e = false) tail.
Proof.
  unfold loop_test, after_loop.
  destruct (_ && _); [exists []; by rewrite app_nil_r|].
  simpl. destruct (currentCampaign s); simpl.
  - eexists. split; [done|]. by repeat constructor.
  - exists []. by rewrite app_nil_r.
Qed.

Lemma step_unstopped (s : Service) (a : Action) :
  is_cancel a = false →
  ∃ tail, emitted (step s a) = emitted s ++ tail
          ∧ Forall (λ e, is_stopped e = false) tail.
Proof.
  intros Ha.
  assert (∃ tail, emitted s = emitted s ++ tail
                  ∧ Forall (λ e, is_stopped e = false) tail) as Hsame
    by (exists []; by rewrite app_nil_r).
  destruct a as [cs ip ap msg rnd| | | open | r w d | r | ms]; cbn [step];
    try done.
  - unfold startBulkSend. destruct (isConnected s); [|done].
    destruct (isSending s); [done|]. cbn [negb fst].
    match goal with
    | |- context [loop_test ?r ?t ?s1] =>
        destruct (loop_test_unstopped r t s1) as (tail & -> & Ht)
    end.
    simpl. eexists. rewrite <- app_assoc. split; [done|].
    apply Forall_app. split; [by repeat constructor|done].
  - unfold send_settled.
    destruct (tasks s !! r) as [[t|]|]; try done.
    destruct (at_ t); try done.
    destruct (shuffledContacts t !! i t) as [contact|]; try done.
    destruct (currentCampaign s) as [c|] eqn:Ec; try done.
    destruct (sendMessage _ _ _ _ _) as [out res].
    rewrite count_spec. destruct (_ && _).
    + simpl. eexists. split; [done|]. by repeat constructor.
    + match goal with
      | |- context [loop_test ?r ?t ?s1] =>
          destruct (loop_test_unstopped r t s1) as (tail & -> & Ht)
      end.
      simpl. eexists. rewrite <- app_assoc. split; [done|].
      apply Forall_app. split; [by repeat constructor|done].
  - unfold timer_fired.
    destruct (tasks s !! r) as [[t|]|]; try done.
    destruct (at_ t); try done. destruct (_ <=? _)%Z; try done.
    apply loop_test_unstopped.
Qed.

Lemma exec_unstopped (s : Service) (schedule : list Action) :
  no_cancel schedule = true →
  ∃ tail, emitted (exec s schedule) = emitted s ++ tail
          ∧ Forall (λ e, is_stopped e = false) tail.
Proof.
  revert s; induction schedule as [|a schedule IH]; intros s Hnc.
  - exists []. by rewrite app_nil_r.
  - cbn in Hnc. apply andb_true_iff in Hnc as [Ha%negb_true_iff Hnc].
    destruct (step_unstopped s a Ha) as (t1 & E1 & F1).
    destruct (IH (step s a) Hnc) as (t2 & E2 & F2).
    exists (t1 ++ t2). cbn [exec fold_left]. unfold exec in E2.
    rewrite E2, E1, <- app_assoc. split; [done|]. by apply Forall_app.
Qed.

Lemma progress_trail_finished run total sent failed rs :
  finished_counts (progress_trail run total sent failed rs) = [].
Proof.
  revert sent failed; induction rs as [|[c r] rs IH]; intros sent failed;
    [done|].
  cbn [progress_trail]. unfold finished_counts in *. cbn [omap list_omap].
  apply IH.
Qed.

Lemma finished_counts_lifecycle evs :
  finished_counts (lifecycle evs) = finished_counts evs.
Proof.
  unfold finished_counts, lifecycle.
  induction evs as [|[r e] evs IH]; [done|]. cbn [List.filter snd].
  destruct e; cbn [omap list_omap]; rewrite ?IH; done.
Qed.

(** X21: left alone, a run attempts every contact once, in the shuffled
    order, hands to the socket what [sendMessage] hands over for each,
    emits the started event, one progress event per contact and the
    terminal event, nothing else, and returns with [isSending] cleared,
    whatever the outcomes and the delays.  The campaign record is not
    cleared: [currentCampaign] keeps the final counters. *)
Theorem run_left_alone contacts ip ap msg rnd (s0 : Service)
    (wds : list (World * Z)) :
  isConnected s0 = true → isSending s0 = false → idle s0 = true →
  length wds = length contacts →
  let run := length (tasks s0) in
  let L := Arrays.shuffled_order rnd contacts in
  let s := exec (fst (startBulkSend contacts ip ap msg rnd s0))
             (full_schedule run wds) in
  let rs := run_results ip ap msg wds.*1 L in
  tasks s !! run = Some None ∧ isSending s = false
  ∧ attempted s = attempted s0 ++ iterations run (length contacts)
  ∧ dispatched s = dispatched s0 ++ run_dispatches ip ap msg wds.*1 L
  ∧ sent_of rs + failed_of rs = length contacts
  ∧ (∃ c, currentCampaign s = Some c
          ∧ sent c = sent_of rs ∧ failed c = failed_of rs
          ∧ total c = length contacts ∧ startTime c = now s0)
  ∧ ∃ endTime,
      emitted s
      = emitted s0
        ++ (Some run, CampaignStarted (length contacts) (now s0))
           :: progress_trail run (length contacts) 0 0 rs
        ++ [(Some run,
             CampaignFinished (sent_of rs) (failed_of rs) (length contacts)
               (duration_of endTime (now s0)))].
Proof.
  intros Hconn Hsend Hidle Hlen run L s rs.
  destruct (full_schedule_plain run wds) as [Hns Hnc].
  pose proof (startBulkSend_trace contacts ip ap msg rnd s0 Hconn Hsend Hidle)
    as Hinv.
  destruct (trace_inv_exec _ _ _ _ _ _ _ _ _ _ _ _ (full_schedule run wds)
              Hns Hinv) as (ws & Hend & Hsub).
  fold s run L in Hend, Hsub. cbn [app] in Hend. rewrite Hnc in Hend.
  rewrite settled_worlds_full in Hsub.
  assert (length L = length contacts) as HL by apply shuffled_order_length.
  destruct (run_completes contacts ip ap msg rnd s0 wds Hconn Hsend Hidle Hlen)
    as (evs' & sent' & failed' & Hlog' & Hfin' & _ & _).
  fold run s in Hlog'.
  destruct (exec_unstopped (fst (startBulkSend contacts ip ap msg rnd s0))
              (full_schedule run wds) Hnc) as (tail & Htail & Hun).
  fold s in Htail.
  destruct Hend as (evs & c & Hlog & Hc & Htot & Ht0 & Hsent & Hfailed & Hdisp
                    & Hle & Hst).
  assert (evs' = evs) as -> by (rewrite Hlog in Hlog'; by simplify_list_eq).
  destruct Hst as [(t & _ & _ & _ & _ & _ & _ & Hlife & _)
                  |(Hdead & Hs & (endTime & Hlife) & Hatt & Hq)].
  { exfalso. rewrite <- finished_counts_lifecycle, Hlife in Hfin'.
    cbn in Hfin'. unfold finished_counts in Hfin'. cbn in Hfin'.
    fold (finished_counts
            (progress_trail run (length L) 0 0 (run_results ip ap msg ws L)))
      in Hfin'.
    by rewrite progress_trail_finished in Hfin'. }
  assert (ws = wds.*1) as ->.
  { apply sublist_same_length; [done|].
    rewrite length_fmap, Hlen, <- HL, Hq; done. }
  fold rs in Hlife, Hsent, Hfailed.
  assert (run < length (tasks s)) as Hrun.
  { apply exec_tasks_length, startBulkSend_tasks_length; done. }
  split_and!.
  - destruct (lookup_lt_is_Some_2 (tasks s) run Hrun) as [[t|] Ht]; [|done].
    by destruct (Hdead run t).
  - done.
  - rewrite Hatt, length_fmap, Hlen. done.
  - done.
  - rewrite tally_length. unfold rs. rewrite run_results_length;
      rewrite length_fmap; lia.
  - exists c. split_and!; try done. by rewrite Htot.
  - exists endTime. rewrite Hlog. f_equal.
    (* no stop notice was emitted *)
    assert (Forall (λ e, is_stopped e = false) evs) as Hevs.
    { unfold startBulkSend in Htail. rewrite Hconn, Hsend in Htail.
      cbn [negb fst] in Htail.
      match type of Htail with
      | context [loop_test ?r ?t ?s1] =>
          destruct (loop_test_unstopped r t s1) as (tail0 & E0 & F0)
      end.
      rewrite E0 in Htail. simpl in Htail. rewrite Hlog in Htail.
      rewrite <- !app_assoc in Htail. apply app_inv_head in Htail as ->.
      apply Forall_app. split; [by repeat constructor|].
      by apply Forall_app. }
    rewrite <- (lifecycle_id evs Hevs), Hlife. unfold opening.
    by rewrite HL.
Qed.

(** What a run hands to the socket comes from attempts on contacts of
    its list, with its payload. *)
Lemma exec_dispatched_listed contacts ip ap msg rnd (s0 : Service)
    (schedule : list Action) :
  isConnected s0 = true → isSending s0 = false → idle s0 = true →
  no_start schedule = true →
  let s := exec (fst (startBulkSend contacts ip ap msg rnd s0)) schedule in
  ∃ out, dispatched s = dispatched s0 ++ out
    ∧ ∀ d, d ∈ out →
        ∃ w contact, contact ∈ contacts
          ∧ d ∈ fst (sendMessage w contact ip ap msg).
Proof.
  intros Hconn Hsend Hidle Hns s.
  pose proof (startBulkSend_trace contacts ip ap msg rnd s0 Hconn Hsend Hidle)
    as Hinv.
  destruct (trace_inv_exec _ _ _ _ _ _ _ _ _ _ _ _ schedule Hns Hinv)
    as (ws & Hend & _).
  fold s in Hend. cbn [app] in Hend.
  destruct Hend as (_ & _ & _ & _ & _ & _ & _ & _ & Hdisp & _).
  eexists. split; [exact Hdisp|].
  intros d (w & contact & _ & Hin & Hd)%run_dispatches_elem.
  exists w, contact. split; [|done].
  eapply elem_of_Permutation_proper; [|exact Hin].
  symmetry. apply ArraysFacts.permute_Permutation.
Qed.

(** ** On sample values *)

Lemma run_lifecycle_witness :
  let schedule := [SendSettled 0 all_well 30000; CallStop; Tick 30000;
                   TimerFired 0] in
  let s := exec (fst (startBulkSend [ana; bia] None None (Some (js "Oi")) zeros
                        connected)) schedule in
  lifecycle (emitted s)
  = [(Some 0, CampaignStarted 2 0);
     (Some 0, CampaignProgress 1 0 2 (number bia) None (Float64.RInt 50));
     (Some 0, CampaignFinished 1 0 2 (Float64.RInt 30))]
  ∧ ∃ ws evs fin,
      ws `sublist_of` settled_worlds 0 schedule
      ∧ length ws ≤ 2
      ∧ emitted s = emitted connected ++ evs
      ∧ lifecycle evs
        = (Some 0, CampaignStarted 2 0)
          :: progress_trail 0 2 0 0
               (run_results None None (Some (js "Oi")) ws
                  (Arrays.shuffled_order zeros [ana; bia]))
          ++ fin
      ∧ ((fin = [] ∧ ∃ t, tasks s !! 0 = Some (Some t))
         ∨ (tasks s !! 0 = Some None ∧ isSending s = false
            ∧ ∃ endTime,
                fin = [(Some 0,
                        CampaignFinished
                          (sent_of (run_results None None (Some (js "Oi")) ws
                                      (Arrays.shuffled_order zeros [ana; bia])))
                          (failed_of (run_results None None (Some (js "Oi")) ws
                                        (Arrays.shuffled_order zeros [ana; bia])))
                          2 (duration_of endTime 0))])).
Proof.
  intros schedule s. split; [vm_compute; reflexivity|].
  apply (RunFacts.run_lifecycle [ana; bia] None None (Some (js "Oi")) zeros
           connected schedule); reflexivity.
Defined.

Lemma run_hands_over_witness :
  let schedule := [SendSettled 0 all_well 30000; Tick 30000; TimerFired 0] in
  let s := exec (fst (startBulkSend [ana; bia] None None (Some (js "Oi")) zeros
                        connected)) schedule in
  attempted s = [(0, 0); (0, 1)]
  ∧ dispatched s = [text_dispatch bia (Some (js "Oi"))]
  ∧ ∃ ws k,
      ws `sublist_of` settled_worlds 0 schedule
      ∧ dispatched s
        = dispatched connected
          ++ run_dispatches None None (Some (js "Oi")) ws
               (Arrays.shuffled_order zeros [ana; bia])
      ∧ attempted s = attempted connected ++ iterations 0 k
      ∧ length ws ≤ k ≤ S (length ws) ∧ k ≤ 2
      ∧ Arrays.shuffled_order zeros [ana; bia] ≡ₚ [ana; bia]
      ∧ ∀ d, d ∈ run_dispatches None None (Some (js "Oi")) ws
                   (Arrays.shuffled_order zeros [ana; bia]) →
          ∃ contact, contact ∈ [ana; bia] ∧ jid d = address_of contact.
Proof.
  intros schedule s. split; [vm_compute; reflexivity|].
  split; [vm_compute; reflexivity|].
  apply (RunFacts.run_hands_over [ana; bia] None None (Some (js "Oi")) zeros
           connected schedule); reflexivity.
Defined.

Lemma attempts_are_paced_witness :
  let started := fst (startBulkSend [ana; bia] None None (Some (js "Oi")) zeros
                        connected) in
  let asleep := send_settled 0 all_well 30000 started in
  let later := exec asleep [Tick 29999; TimerFired 0; CallStop; TimerFired 0] in
  attempted later = attempted started ∧ dispatched later = dispatched asleep.
Proof.
  intros started asleep later.
  apply (RunFacts.attempts_are_paced [ana; bia] None None (Some (js "Oi")) zeros
           connected [] [Tick 29999; TimerFired 0; CallStop; TimerFired 0]
           0 all_well 30000%Z); try reflexivity.
  eexists. split; [reflexivity|]. split; reflexivity.
Defined.

Lemma overlapping_calls_witness :
  let asleep := exec connected
                  [CallStart [ana; bia] None None (Some (js "Oi")) zeros;
                   SendSettled 0 all_well 30000; Tick 30000] in
  let s' := exec asleep [CallStop;
                         CallStart [ana] None None (Some (js "Oi")) zeros;
                         Tick 0; TimerFired 0] in
  attempting s' 0 1 ∧ attempting s' 1 0 ∧ isSending s' = true
  ∧ attempted s' = attempted asleep ++ [(1, 0); (0, 1)]
  ∧ ∃ c, currentCampaign (send_settled 0 all_well 30000 s') = Some c
         ∧ contacts c = [ana] ∧ total c = 1 ∧ sent c + failed c = 1.
Proof.
  intros asleep s'.
  destruct (RunFacts.overlapping_calls asleep 0
              (mkTask [bia; ana] 0 None None (Some (js "Oi")) (InSleep 30000))
              30000%Z [ana] None None (Some (js "Oi")) zeros 0%N all_well
              30000%Z)
    as (H1 & H2 & H3 & H4 & _ & H6);
    [reflexivity|reflexivity|reflexivity|vm_compute; discriminate|simpl; lia
    |discriminate|].
  split; [exact H1|]. split; [exact H2|]. split; [exact H3|].
  split; [exact H4|exact H6].
Defined.

Lemma progress_of_range_witness :
  ∃ z, progress_of 23 0 40 = Float64.RInt z ∧ (0 ≤ z ≤ 100)%Z
       ∧ (2 * Z.abs (z * 40 - 100 * 23) ≤ 40)%Z.
Proof.
  destruct (RunFacts.progress_of_range 23 0 40) as (z & Hz & Hr & Hn & _);
    [lia|lia|].
  exists z. split; [exact Hz|]. split; [exact Hr|exact Hn].
Defined.

Lemma run_left_alone_witness :
  let s := exec (fst (startBulkSend [ana; bia] None None (Some (js "Oi")) zeros
                        connected))
             (full_schedule 0 [(all_well, 30000%Z); (nobody_there, 45000%Z)]) in
  attempted s = [(0, 0); (0, 1)]
  ∧ dispatched s = [text_dispatch bia (Some (js "Oi"))]
  ∧ tasks s !! 0 = Some None ∧ isSending s = false
  ∧ ∃ c, currentCampaign s = Some c ∧ sent c = 1 ∧ failed c = 1 ∧ total c = 2.
Proof.
  intros s.
  destruct (run_left_alone [ana; bia] None None (Some (js "Oi")) zeros connected
              [(all_well, 30000%Z); (nobody_there, 45000%Z)])
    as (H1 & H2 & H3 & H4 & _ & (c & Hc & Hs & Hf & Ht & _) & _);
    try reflexivity.
  split; [exact H3|]. split; [exact H4|]. split; [exact H1|].
  split; [exact H2|]. exists c.
  split; [exact Hc|]. split; [exact Hs|]. split; [exact Hf|exact Ht].
Defined.

End RunFacts.

(** * The connection side *)

Module SessionFacts.
Import CSVService WhatsAppService Session.

Section facts.
Variable loggedOut : Z.

Lemma retry_budget ms (s : Session) :
  retryCount s ≤ maxRetries s →
  maxRetries (retry ms s) = maxRetries s
  ∧ retryCount (retry ms s) ≤ maxRetries s
  ∧ length (timers (retry ms s)) + (maxRetries s - retryCount (retry ms s))
    = length (timers s) + (maxRetries s - retryCount s)
  ∧ length (timers s) ≤ length (timers (retry ms s)) ≤ S (length (timers s)).
Proof.
  intros H. unfold retry.
  destruct (Nat.ltb_spec (retryCount s) (maxRetries s)); simpl;
    rewrite ?length_app; simpl; lia.
Qed.

Lemma step_budget (s : Session) (a : Act) :
  retryCount s ≤ maxRetries s →
  maxRetries (Session.step loggedOut s a) = maxRetries s
  ∧ retryCount (Session.step loggedOut s a) ≤ maxRetries s
  ∧ length (timers (Session.step loggedOut s a)) + (maxRetries s - retryCount (Session.step loggedOut s a))
    ≤ length (timers s) + (maxRetries s - retryCount s)
      + maxRetries s * opened [a]
  ∧ length (timers (Session.step loggedOut s a))
    ≤ length (timers s) + retry_causes loggedOut [a].
Proof.
  intros H. destruct a as [|o|k|u q| |e]; cbn [Session.step].
  - simpl. lia.
  - unfold initialize_settled. destruct (pending s) as [|p]; [simpl; lia|].
    destruct o as [|made m]; [simpl; lia|].
    set (s1 := io_emit _ _).
    assert (retryCount s1 = retryCount s ∧ maxRetries s1 = maxRetries s
            ∧ timers s1 = timers s) as (E1 & E2 & E3)
      by (unfold s1; by destruct made).
    destruct (retry_budget 5000 s1) as (R1 & R2 & R3 & R4); [lia|].
    rewrite E1, E2, E3 in *. unfold opened, retry_causes. simpl. lia.
  - unfold retry_timer. destruct (timers s !! k) as [[due [|]]|]; try (simpl; lia).
    destruct (_ <=? _)%Z; simpl; rewrite ?length_insert; lia.
  - unfold on_connection_update, opened, retry_causes. cbn [List.filter].
    unfold retry_cause, opens, closes.
    set (s1 := if truthy_opt (qr u) then _ else s).
    assert (retryCount s1 = retryCount s ∧ maxRetries s1 = maxRetries s
            ∧ timers s1 = timers s) as (E1 & E2 & E3).
    { unfold s1. destruct (truthy_opt (qr u)); [|done]. by destruct q. }
    destruct (equals "close" (connection u)); cbn [negb andb].
    + destruct (boom u) as [code|]; [destruct (code =? loggedOut)%Z|];
        cbn [negb andb]; simpl; rewrite ?E1, ?E2, ?E3;
        try destruct (Nat.ltb_spec (retryCount s) (maxRetries s)); simpl;
        rewrite ?length_app, ?E3; simpl; lia.
    + destruct (equals "open" (connection u)); simpl;
        rewrite ?E1, ?E2, ?E3; nia.
  - unfold disconnect. destruct (0 <? sockets s); simpl; lia.
  - simpl. lia.
Qed.

Lemma step_timers_length (s : Session) (a : Act) :
  length (timers s) ≤ length (timers (Session.step loggedOut s a)).
Proof.
  destruct a as [|o|k|u q| |e]; cbn [Session.step]; try done.
  - unfold initialize_settled. destruct (pending s) as [|p]; [done|].
    destruct o as [|made m]; [done|]. unfold retry.
    destruct (_ <? _); simpl; rewrite ?length_app; destruct made; simpl; lia.
  - unfold retry_timer. destruct (timers s !! k) as [[due [|]]|]; try done.
    destruct (_ <=? _)%Z; simpl; rewrite ?length_insert; lia.
  - unfold on_connection_update.
    set (s1 := if truthy_opt (qr u) then _ else s).
    assert (timers s1 = timers s) as E3.
    { unfold s1. destruct (truthy_opt (qr u)); [|done]. by destruct q. }
    destruct (equals "close" (connection u)).
    + destruct (boom u) as [code|]; [destruct (code =? loggedOut)%Z|];
        cbn [negb andb]; try destruct (_ <? _); simpl;
        rewrite ?length_app, ?E3; simpl; lia.
    + destruct (equals "open" (connection u)); simpl; by rewrite E3.
  - unfold disconnect. by destruct (0 <? sockets s).
Qed.

Lemma exec_budget (s : Session) (schedule : list Act) :
  retryCount s ≤ maxRetries s →
  maxRetries (Session.exec loggedOut s schedule) = maxRetries s
  ∧ retryCount (Session.exec loggedOut s schedule) ≤ maxRetries s
  ∧ length (timers s) ≤ length (timers (Session.exec loggedOut s schedule))
  ∧ length (timers (Session.exec loggedOut s schedule))
      + (maxRetries s - retryCount (Session.exec loggedOut s schedule))
    ≤ length (timers s) + (maxRetries s - retryCount s)
      + maxRetries s * opened schedule
  ∧ length (timers (Session.exec loggedOut s schedule))
    ≤ length (timers s) + retry_causes loggedOut schedule.
Proof.
  revert s; induction schedule as [|a schedule IH]; intros s H.
  - unfold opened, retry_causes. simpl. lia.
  - cbn [Session.exec fold_left].
    destruct (step_budget s a H) as (M1 & R1 & P1 & C1).
    pose proof (step_timers_length s a) as T1.
    destruct (IH (Session.step loggedOut s a)) as (M2 & R2 & T2 & P2 & C2); [lia|].
    unfold Session.exec in *. rewrite M1 in *.
    assert (opened (a :: schedule) = opened [a] + opened schedule) as ->.
    { unfold opened. cbn [List.filter]. destruct a; try done.
      destruct (opens update); simpl; lia. }
    assert (retry_causes loggedOut (a :: schedule)
            = retry_causes loggedOut [a] + retry_causes loggedOut schedule) as ->.
    { unfold retry_causes. cbn [List.filter].
      destruct (retry_cause loggedOut a); simpl; lia. }
    split_and!; try lia.
Qed.

(** X12: [maxRetries] never changes and [retryCount] never exceeds it; the
    timers set to call [initialize] again are never more than the retries
    left plus [maxRetries] for each update that opened the connection, nor
    more than the failed calls of [initialize] and the closes that are not
    logouts. *)
Theorem retries_bounded (s : Session) (schedule : list Act) :
  retryCount s ≤ maxRetries s →
  let s' := Session.exec loggedOut s schedule in
  maxRetries s' = maxRetries s ∧ retryCount s' ≤ maxRetries s
  ∧ length (timers s) ≤ length (timers s')
  ∧ length (timers s')
    ≤ length (timers s) + (maxRetries s - retryCount s)
      + maxRetries s * opened schedule
  ∧ length (timers s')
    ≤ length (timers s) + retry_causes loggedOut schedule.
Proof.
  intros H s'. subst s'.
  destruct (exec_budget s schedule H) as (? & ? & ? & ? & ?).
  split_and!; try done. lia.
Qed.

Lemma engine_step_isConnected (s : Service) (a : Action) :
  (∀ b, a ≠ ConnectionUpdate b) →
  isConnected (WhatsAppService.step s a) = isConnected s.
Proof.
  intros Ha.
  destruct a as [cs ip ap msg rnd| | | open | r w d | r | ms];
    cbn [WhatsAppService.step]; try done.
  - unfold startBulkSend. destruct (isConnected s) eqn:E; [|done].
    destruct (isSending s); [done|]. cbn [negb fst].
    unfold loop_test, after_loop. destruct (_ && _); simpl; done.
  - by destruct (Ha open).
  - unfold send_settled.
    destruct (tasks s !! r) as [[t|]|]; try done.
    destruct (at_ t); try done.
    destruct (shuffledContacts t !! i t) as [contact|]; try done.
    destruct (currentCampaign s) as [c|] eqn:Ec; try done.
    destruct (sendMessage _ _ _ _ _) as [out res].
    rewrite EngineFacts.count_spec. destruct (_ && _); [done|].
    unfold loop_test, after_loop. destruct (_ && _); simpl; done.
  - unfold timer_fired.
    destruct (tasks s !! r) as [[t|]|]; try done.
    destruct (at_ t); try done. destruct (_ <=? _)%Z; try done.
    unfold loop_test, after_loop. destruct (_ && _); simpl; [done|].
    by destruct (currentCampaign s).
Qed.

Lemma step_quiet (s : Session) (a : Act) :
  quiet [a] = true →
  isConnected (service (Session.step loggedOut s a)) = isConnected (service s).
Proof.
  unfold quiet. cbn [forallb]. rewrite andb_true_r.
  destruct a as [|o|k|u q| |e]; cbn [Session.step]; try done.
  - intros _. unfold initialize_settled. destruct (pending s) as [|p]; [done|].
    destruct o as [|made m]; [done|]. unfold retry.
    destruct (_ <? _); destruct made; done.
  - intros _. unfold retry_timer.
    destruct (timers s !! k) as [[due [|]]|]; try done.
    by destruct (_ <=? _)%Z.
  - unfold closes, opens, on_connection_update.
    destruct (equals "close" (connection u)); [done|].
    destruct (equals "open" (connection u)); [done|]. intros _.
    destruct (truthy_opt (qr u)); [|done]. by destruct q.
  - intros _. unfold disconnect. by destruct (0 <? sockets s).
  - intros He. simpl. apply engine_step_isConnected. intros b ->. done.
Qed.

Lemma exec_quiet (s : Session) (schedule : list Act) :
  quiet schedule = true →
  isConnected (service (Session.exec loggedOut s schedule)) = isConnected (service s).
Proof.
  revert s; induction schedule as [|a schedule IH]; intros s Hq; [done|].
  cbn in Hq. apply andb_true_iff in Hq as [Ha Hq].
  cbn [Session.exec fold_left]. unfold Session.exec in IH. rewrite IH by done.
  apply step_quiet. unfold quiet. cbn [forallb]. by rewrite Ha.
Qed.

(** X13: [isConnected] is written by the connection handler only: it
    tells whether the last update that closed or opened the connection
    opened it, and nothing else that happens changes it. *)
Theorem isConnected_follows_updates (s : Session) :
  (∀ schedule, quiet schedule = true →
     isConnected (service (Session.exec loggedOut s schedule)) = isConnected (service s))
  ∧ (∀ before update qrImage after,
       closes update || opens update = true → quiet after = true →
       isConnected
         (service (Session.exec loggedOut s (before ++ OnConnectionUpdate update qrImage :: after)))
       = negb (closes update)).
Proof.
  split; [apply exec_quiet|].
  intros before u q after Hu Hq.
  unfold Session.exec. rewrite fold_left_app. cbn [fold_left].
  fold (Session.exec loggedOut s before).
  fold (Session.exec loggedOut (Session.step loggedOut (Session.exec loggedOut s before) (OnConnectionUpdate u q)) after).
  rewrite exec_quiet by done. cbn [Session.step].
  unfold on_connection_update, closes, opens in *.
  destruct (equals "close" (connection u)).
  - destruct (boom u) as [code|]; [destruct (code =? loggedOut)%Z|];
      cbn [negb andb]; try destruct (_ <? _); done.
  - cbn [negb andb orb] in Hu. rewrite Hu. done.
Qed.

Lemma step_engine_view (s : Session) (a : Act) :
  service (Session.step loggedOut s a) = WhatsAppService.exec (service s) (engine_view s a).
Proof.
  destruct a as [|o|k|u q| |e]; cbn [Session.step engine_view]; try done.
  - unfold initialize_settled. destruct (pending s) as [|p]; [done|].
    destruct o as [|made m]; [done|]. unfold retry.
    destruct (_ <? _); destruct made; done.
  - unfold retry_timer.
    destruct (timers s !! k) as [[due [|]]|]; try done.
    by destruct (_ <=? _)%Z.
  - unfold on_connection_update, closes, opens.
    assert (service (if truthy_opt (qr u)
                     then match q with
                          | Resolved image => io_emit (QrCode (Some image)) s
                          | Rejected _ => s
                          end
                     else s) = service s) as E.
    { destruct (truthy_opt (qr u)); [|done]. by destruct q. }
    destruct (equals "close" (connection u)).
    + destruct (boom u) as [code|]; [destruct (code =? loggedOut)%Z|];
        cbn [negb andb]; try destruct (_ <? _); simpl; by rewrite E.
    + cbn [negb andb]. destruct (equals "open" (connection u)); simpl;
        by rewrite E.
  - unfold disconnect. by destruct (0 <? sockets s).
Qed.

(** X14: for the campaign side, what the connection side does comes to
    writes of [isConnected] and, for [disconnect] with a socket, a clear of
    [isSending]: the service after a schedule is the engine's after the
    actions so read off it, with the same calls of [startBulkSend]. *)
Theorem session_refines_engine (s : Session) (schedule : list Act) :
  service (Session.exec loggedOut s schedule)
  = WhatsAppService.exec (service s) (engine_trace loggedOut s schedule)
  ∧ List.filter is_start (engine_trace loggedOut s schedule) = starts schedule.
Proof.
  revert s; induction schedule as [|a schedule IH]; intros s; [done|].
  cbn [Session.exec fold_left engine_trace].
  destruct (IH (Session.step loggedOut s a)) as [IH1 IH2]. unfold Session.exec in IH1. split.
  - rewrite IH1, step_engine_view. unfold WhatsAppService.exec.
    by rewrite fold_left_app.
  - rewrite List.filter_app, IH2. unfold starts. cbn [omap list_omap].
    destruct a as [|o|k|u q| |e]; cbn [engine_view]; try done.
    + by destruct (closes u), (opens u).
    + by destruct (0 <? sockets s).
    + cbn [List.filter]. by destruct (is_start e).
Qed.

End facts.
Lemma last_status_snoc evs e :
  last_status (evs ++ [e])
  = match e with
    | ConnectionStatus status => Some status
    | _ => last_status evs
    end.
Proof.
  unfold last_status. rewrite omap_app. cbn [omap list_omap].
  destruct e; rewrite ?app_nil_r; try done. apply last_snoc.
Qed.

Lemma step_announced loggedOut (s : Session) (a : Act) :
  handled [a] = true → announced s → announced (Session.step loggedOut s a).
Proof.
  unfold handled. cbn [forallb]. rewrite andb_true_r.
  intros Ha Hs.
  assert (∀ s', io s' = io s →
                isConnected (service s') = isConnected (service s) →
                announced s') as Hsame.
  { intros s' E1 E2. unfold announced. by rewrite E1, E2. }
  destruct a as [|o|k|u q| |e]; cbn [Session.step].
  - by apply Hsame.
  - unfold initialize_settled. destruct (pending s) as [|p]; [done|].
    destruct o as [|made m]; [by apply Hsame|].
    unfold retry, announced in *.
    destruct (_ <? _); destruct made; simpl;
      rewrite last_status_snoc; exact Hs.
  - unfold retry_timer. destruct (timers s !! k) as [[due [|]]|]; try done.
    destruct (_ <=? _)%Z; [by apply Hsame|done].
  - unfold on_connection_update.
    set (s1 := if truthy_opt (qr u) then _ else s).
    assert (announced s1) as Hs1.
    { unfold s1. destruct (truthy_opt (qr u)); [|done].
      destruct q; [|done]. unfold announced in *. simpl.
      by rewrite last_status_snoc. }
    clearbody s1.
    destruct (equals "close" (connection u)).
    + destruct (boom u) as [code|]; [destruct (code =? loggedOut)%Z|];
        cbn [negb andb]; try destruct (_ <? _); unfold announced; simpl;
        rewrite ?last_status_snoc; by right.
    + destruct (equals "open" (connection u)); [|done].
      unfold announced. simpl. by rewrite !last_status_snoc.
  - unfold disconnect. destruct (0 <? sockets s); [|done]. by apply Hsame.
  - apply Hsame; [done|]. simpl. apply engine_step_isConnected.
    intros b ->. done.
Qed.

(** X20: what the service last announced as its connection status is
    what [isConnected] says: 'connected' when it is true, and
    'disconnected', or nothing yet, when it is false. *)
Theorem status_announced loggedOut t0 (schedule : list Act) :
  handled schedule = true →
  let s := Session.exec loggedOut (Session.new t0) schedule in
  if isConnected (service s)
  then last_status (io s) = Some (js "connected")
  else last_status (io s) = None
       ∨ last_status (io s) = Some (js "disconnected").
Proof.
  intros H s. subst s.
  enough (∀ s0, announced s0 →
                announced (Session.exec loggedOut s0 schedule)) as Hall.
  { apply (Hall (Session.new t0)). by left. }
  induction schedule as [|a schedule IH]; intros s0 Hs0; [done|].
  cbn in H. apply andb_true_iff in H as [Ha H].
  cbn [Session.exec fold_left]. apply (IH H). apply step_announced; [|done].
  unfold handled. cbn [forallb]. by rewrite Ha.
Qed.

(** ** On sample values *)

Lemma retries_bounded_witness :
  let schedule := [Session.CallInitialize;
                   Session.InitializeSettled (Session.InitFailed false (js "x"));
                   Session.OnConnectionUpdate
                     (Session.mkUpdate (Some (js "close")) (Some 401%Z) None)
                     (Rejected [])] in
  let s' := Session.exec 401 (Session.new 0) schedule in
  length (Session.timers s') = 1
  ∧ length (Session.timers s') ≤ 0 + (3 - 0) + 3 * opened schedule
  ∧ length (Session.timers s') ≤ 0 + retry_causes 401 schedule.
Proof.
  intros schedule s'.
  destruct (SessionFacts.retries_bounded 401 (Session.new 0) schedule)
    as (_ & _ & _ & H1 & H2); [simpl; lia|].
  split; [reflexivity|]. split; [exact H1|exact H2].
Defined.

Lemma isConnected_follows_updates_witness :
  let close := Session.mkUpdate (Some (js "close")) None None in
  let open := Session.mkUpdate (Some (js "open")) None None in
  isConnected
    (Session.service
       (Session.exec 401 (Session.new 0)
          ([Session.OnConnectionUpdate close (Rejected [])]
           ++ Session.OnConnectionUpdate open (Rejected [])
              :: [Session.CallDisconnect; Session.Engine CallStop])))
  = true.
Proof.
  intros close open.
  destruct (SessionFacts.isConnected_follows_updates 401 (Session.new 0))
    as [_ H].
  apply (H [Session.OnConnectionUpdate close (Rejected [])] open (Rejected [])
           [Session.CallDisconnect; Session.Engine CallStop]); reflexivity.
Defined.

Lemma status_announced_witness :
  let schedule :=
    [CallInitialize; InitializeSettled SocketReady;
     OnConnectionUpdate (mkUpdate None None (Some (js "2@abc")))
       (Resolved (js "data:image/png;base64,AAAA"));
     OnConnectionUpdate (mkUpdate (Some (js "open")) None None) (Rejected [])] in
  let s := Session.exec 401 (Session.new 0) schedule in
  isConnected (service s) = true
  ∧ io s = [QrCode (Some (js "data:image/png;base64,AAAA"));
            ConnectionStatus (js "connected"); QrCode None]
  ∧ if isConnected (service s)
    then last_status (io s) = Some (js "connected")
    else last_status (io s) = None
         ∨ last_status (io s) = Some (js "disconnected").
Proof.
  intros schedule s. split; [reflexivity|]. split; [reflexivity|].
  apply (status_announced 401 0 schedule). reflexivity.
Defined.

End SessionFacts.

(** * The application *)

Module AppFacts.
Import CSVService WhatsAppService App EngineFacts.

Lemma loop_test_live run t (s : Service) r t' :
  tasks (loop_test run t s) !! r = Some (Some t') →
  (r = run ∧ t' = suspend InSend t) ∨ (r ≠ run ∧ tasks s !! r = Some (Some t')).
Proof.
  unfold loop_test, after_loop.
  destruct (_ && _); simpl; [|destruct (currentCampaign s); simpl];
    intros [(<- & H & _)|[? ?]]%list_lookup_insert_Some; try done;
    try (by right).
  left. split; [done|]. by injection H as <-.
Qed.

Lemma step_jobs (s : Service) (a : Action) :
  ∃ out,
    dispatched (WhatsAppService.step s a) = dispatched s ++ out
    ∧ (∀ d, d ∈ out →
         ∃ r t w contact,
           tasks s !! r = Some (Some t) ∧ contact ∈ shuffledContacts t
           ∧ d ∈ fst (sendMessage w contact (t_imagePath t) (t_audioPath t)
                        (t_message t)))
    ∧ (∀ r t', tasks (WhatsAppService.step s a) !! r = Some (Some t') →
         (∃ t, tasks s !! r = Some (Some t) ∧ same_job t' t)
         ∨ (∃ cs ip ap msg rnd,
              a = CallStart cs ip ap msg rnd
              ∧ shuffledContacts t' = Arrays.shuffled_order rnd cs
              ∧ t_imagePath t' = ip ∧ t_audioPath t' = ap ∧ t_message t' = msg)).
Proof.
  assert (∀ s' : Service,
    dispatched s' = dispatched s → tasks s' = tasks s →
    ∃ out, dispatched s' = dispatched s ++ out
      ∧ (∀ d, d ∈ out →
           ∃ r t w contact,
             tasks s !! r = Some (Some t) ∧ contact ∈ shuffledContacts t
             ∧ d ∈ fst (sendMessage w contact (t_imagePath t) (t_audioPath t)
                          (t_message t)))
      ∧ (∀ r t', tasks s' !! r = Some (Some t') →
           (∃ t, tasks s !! r = Some (Some t) ∧ same_job t' t)
           ∨ (∃ cs ip ap msg rnd,
                a = CallStart cs ip ap msg rnd
                ∧ shuffledContacts t' = Arrays.shuffled_order rnd cs
                ∧ t_imagePath t' = ip ∧ t_audioPath t' = ap
                ∧ t_message t' = msg))) as Hsame.
  { intros s' Hd Ht. exists []. rewrite app_nil_r. split; [done|].
    split; [by intros d ?%elem_of_nil|].
    intros r t'. rewrite Ht. intros H. left. by exists t'. }
  destruct a as [cs ip ap msg rnd| | | open | r w d | r | ms];
    cbn [WhatsAppService.step]; try (by apply Hsame).
  - unfold startBulkSend. destruct (isConnected s); [|by apply Hsame].
    destruct (isSending s); [by apply Hsame|]. cbn [negb fst].
    exists []. rewrite app_nil_r. split; [by rewrite loop_test_dispatched|].
    split; [by intros d ?%elem_of_nil|].
    intros r t' [[-> ->]|[Hne H]]%loop_test_live.
    + right. by exists cs, ip, ap, msg, rnd.
    + left. exists t'. split; [|done]. simpl in H.
      apply lookup_app_Some in H as [H|[_ H]]; [done|].
      by destruct (r - length (tasks s)) as [|[|?]].
  - unfold send_settled.
    destruct (tasks s !! r) as [[t|]|] eqn:Er; try (by apply Hsame).
    destruct (at_ t); try (by apply Hsame).
    destruct (shuffledContacts t !! i t) as [contact|] eqn:Ect;
      try (by apply Hsame).
    destruct (currentCampaign s) as [c|] eqn:Ec; try (by apply Hsame).
    destruct (sendMessage _ _ _ _ _) as [out res] eqn:Esm.
    rewrite count_spec. exists out. split.
    { destruct (_ && _); [done|]. by rewrite loop_test_dispatched. }
    split.
    { intros d0 Hd0. exists r, t, w, contact. split; [done|].
      split; [by eapply list_elem_of_lookup_2|]. by rewrite Esm. }
    intros r' t'. destruct (_ && _).
    + simpl. intros [(<- & H & _)|[? ?]]%list_lookup_insert_Some.
      * left. exists t. split; [done|]. by injection H as <-.
      * left. by exists t'.
    + intros [[-> ->]|[Hne H]]%loop_test_live; left.
      * by exists t.
      * by exists t'.
  - unfold timer_fired.
    destruct (tasks s !! r) as [[t|]|] eqn:Er; try (by apply Hsame).
    destruct (at_ t); try (by apply Hsame).
    destruct (_ <=? _)%Z; try (by apply Hsame).
    exists []. rewrite app_nil_r. split; [by rewrite loop_test_dispatched|].
    split; [by intros d ?%elem_of_nil|].
    intros r' t' [[-> ->]|[Hne H]]%loop_test_live; left.
    + by exists t.
    + by exists t'.
Qed.

Lemma service_inv_step (s : Service) (a : Action) :
  service_inv s →
  (∀ cs ip ap msg rnd, a = CallStart cs ip ap msg rnd →
     Forall validated cs ∧ msg = None) →
  service_inv (WhatsAppService.step s a).
Proof.
  intros [Htasks Hdisp] Hstart.
  destruct (step_jobs s a) as (out & Hout & Hnew & Hlive). split.
  - intros r t' [(t & Ht & Hj1 & _ & _ & Hj4)|(cs & ip & ap & msg & rnd & -> & Hj1 & _ & _ & Hj4)]%Hlive.
    + rewrite Hj1, Hj4. by apply (Htasks r).
    + destruct (Hstart _ _ _ _ _ eq_refl) as [Hv ->]. split; [|done].
      rewrite Hj1. unfold Arrays.shuffled_order.
      by rewrite ArraysFacts.permute_Permutation.
  - intros d. rewrite Hout, elem_of_app. intros [Hd|Hd]; [by apply Hdisp|].
    destruct (Hnew d Hd) as (r & t & w & contact & Ht & Hc & Hsm).
    destruct (Htasks r t Ht) as [Hv Hmsg]. rewrite Hmsg in Hsm.
    apply SendLaws.sendMessage_elem in Hsm as [Hjid Hcontent].
    split.
    + exists contact. split; [|done]. rewrite Forall_forall in Hv. by apply Hv.
    + unfold wordless. destruct (content d); [tauto|done|by destruct Hcontent].
Qed.

Lemma resume_requests_fields (st : State) :
  whatsappService (resume_requests st) = whatsappService st
  ∧ uploadedCSV (resume_requests st) = uploadedCSV st
  ∧ uploadedImage (resume_requests st) = uploadedImage st.
Proof.
  unfold resume_requests. generalize (waiting st). intros l.
  revert st; induction l as [|run l IH]; intros st; [done|].
  cbn [fold_left].
  destruct (tasks (whatsappService st) !! run) as [[t|]|];
    destruct (IH st) as (? & ? & ?); try done.
  match goal with |- context [fold_left _ l ?st1] => destruct (IH st1) as (-> & -> & ->) end.
  done.
Qed.

Lemma app_inv_service (st st' : State) (s : Service) :
  app_inv st → service_inv s →
  whatsappService st' = s → uploadedCSV st' = uploadedCSV st → app_inv st'.
Proof. intros [Hcsv _] Hs E1 E2. split; [by rewrite E2|by rewrite E1]. Qed.

Lemma app_inv_step type_error (st : State) (h : Happening) :
  app_inv st → app_inv (App.step type_error st h).
Proof.
  intros Hinv. pose proof Hinv as [Hcsv Hsvc].
  assert (∀ a, (∀ cs ip ap msg rnd, a ≠ CallStart cs ip ap msg rnd) →
    app_inv (resume_requests
               (set_whatsappService
                  (WhatsAppService.step (whatsappService st) a) st))) as Hbg.
  { intros a Ha.
    destruct (resume_requests_fields
                (set_whatsappService
                   (WhatsAppService.step (whatsappService st) a) st))
      as (E1 & E2 & _).
    apply (app_inv_service st _ _ Hinv (service_inv_step _ a Hsvc
             (λ cs ip ap msg rnd E, False_ind _ (Ha _ _ _ _ _ E))));
      [by rewrite E1|by rewrite E2]. }
  destruct h as [file fe rows fin|file|message rnd| |run w d|run|ms|open];
    cbn [App.step background]; try (by apply Hbg).
  - unfold upload_csv. destruct file as [f|]; [|done].
    destruct (parseCSV fe rows fin) as [[m|cs]|]; [done| |done].
    split; [|done]. simpl. intros csv [= <-]. simpl.
    rewrite (proj1 (CSVFacts.validateContacts_filter cs)).
    apply Forall_forall. intros c Hc%list_elem_of_In%List.filter_In. tauto.
  - unfold upload_image. by destruct file.
  - unfold start_campaign. destruct message as [message|]; [|done].
    destruct (uploadedCSV st) as [csv|] eqn:Ecsv; [|done].
    destruct (uploadedImage st) as [image|]; [|done].
    destruct message as [|text|[|]]; try done.
    destruct (_ || _); [done|]. destruct (negb _); [done|].
    destruct (startBulkSend _ _ _ _ _ _) as [svc [err|]] eqn:Es; [done|].
    destruct (resume_requests_fields
                (set_waiting (waiting st ++ [length (tasks (whatsappService st))])
                   (set_whatsappService svc st))) as (E1 & E2 & _).
    apply (app_inv_service st _ svc Hinv); [|by rewrite E1|by rewrite E2].
    replace svc with (WhatsAppService.step (whatsappService st)
                        (CallStart (App.contacts csv) (Some (image_path image))
                           (Some (trim text)) None rnd))
      by (cbn [WhatsAppService.step]; by rewrite Es).
    apply service_inv_step; [done|].
    intros cs ip ap msg rnd' [= <- _ _ <- _]. split; [|done]. by apply Hcsv.
  - unfold stop_campaign. split; [done|]. simpl.
    by apply (service_inv_step _ CallStop).
Qed.

Lemma app_inv_exec type_error (st : State) (schedule : list Happening) :
  app_inv st → app_inv (App.exec type_error st schedule).
Proof.
  revert st; induction schedule as [|h schedule IH]; intros st H; [done|].
  cbn [App.exec fold_left]. apply IH. by apply app_inv_step.
Qed.

Lemma app_inv_init t0 : app_inv (App.init t0).
Proof.
  split; [done|]. split.
  - intros r t. simpl. by rewrite lookup_nil.
  - intros d. simpl. by intros ?%elem_of_nil.
Qed.

(** X18: whatever is requested and whatever happens, every message the
    application hands to the socket is addressed to a number that passes
    the validator. *)
Theorem app_writes_to_validated type_error t0 (schedule : list Happening)
    (d : Dispatch) :
  d ∈ dispatched (whatsappService (App.exec type_error (App.init t0) schedule)) →
  ∃ number, jid d = number ++ js "@s.whatsapp.net"
    ∧ isValidBrazilianNumber number = true.
Proof.
  intros Hd.
  destruct (app_inv_exec type_error _ schedule (app_inv_init t0))
    as (_ & _ & Hdisp).
  destruct (Hdisp d Hd) as [(c & Hv & Hjid) _]. by exists (number c).
Qed.

(** X19: whatever is requested and whatever happens, the application
    hands the socket no text and no caption: every message is an image
    without caption or a voice note. *)
Theorem app_sends_no_text type_error t0 (schedule : list Happening)
    (d : Dispatch) :
  d ∈ dispatched (whatsappService (App.exec type_error (App.init t0) schedule)) →
  match content d with
  | ImageMessage _ caption _ => caption = None
  | AudioMessage _ _ _ => True
  | TextMessage _ => False
  end.
Proof.
  intros Hd.
  destruct (app_inv_exec type_error _ schedule (app_inv_init t0))
    as (_ & _ & Hdisp).
  by destruct (Hdisp d Hd) as [_ ?].
Qed.

Lemma step_keeps_task (s : Service) (a : Action) run :
  is_start a = false →
  (tasks s !! run = Some None →
   tasks (WhatsAppService.step s a) !! run = Some None)
  ∧ (is_Some (tasks s !! run) →
     is_Some (tasks (WhatsAppService.step s a) !! run)).
Proof.
  intros Ha.
  assert (is_Some (tasks s !! run) →
          is_Some (tasks (WhatsAppService.step s a) !! run)) as Hlen.
  { rewrite !lookup_lt_is_Some. pose proof (RunFacts.step_tasks_length s a). lia. }
  split; [|done]. intros Hnone.
  destruct (Hlen (ltac:(by eexists))) as [[t'|] Ht']; [|done].
  destruct (step_jobs s a) as (_ & _ & _ & Hlive).
  destruct (Hlive run t' Ht') as [(t & Ht & _)|(cs & ip & ap & msg & rnd & -> & _)];
    [congruence|done].
Qed.

Lemma start_answers_app rs1 rs2 :
  start_answers (rs1 ++ rs2) = start_answers rs1 ++ start_answers rs2.
Proof. apply List.filter_app. Qed.

Lemma resume_requests_awaiting run (st : State) replies0 new :
  replies st = replies0 ++ new →
  (waiting st = [run] ∧ is_Some (tasks (whatsappService st) !! run)
   ∧ start_answers new = []
   ∨ awaiting run st new ∧ waiting st = []) →
  ∃ new', replies (resume_requests st) = replies0 ++ new'
          ∧ awaiting run (resume_requests st) new'.
Proof.
  intros Hr [(Hw & [x Hx] & Hn)|[Ha Hw]]; unfold resume_requests; rewrite Hw;
    cbn [fold_left]; [|by exists new].
  rewrite Hx. destruct x as [t|].
  - exists new. split; [done|]. left. split_and!; try done. by exists t.
  - eexists. split; [simpl; by rewrite Hr, <- app_assoc|].
    right. simpl. split_and!; [done|by rewrite Hw; simpl; rewrite Nat.eqb_refl|].
    eexists. rewrite start_answers_app, Hn. done.
Qed.

Lemma step_awaiting type_error run (st : State) (h : Happening) replies0 new :
  no_start_request [h] = true →
  replies st = replies0 ++ new → awaiting run st new →
  ∃ new', replies (App.step type_error st h) = replies0 ++ new'
          ∧ awaiting run (App.step type_error st h) new'.
Proof.
  intros Hh Hr Ha.
  assert (∀ a, is_start a = false →
    ∃ new', replies (resume_requests
                       (set_whatsappService
                          (WhatsAppService.step (whatsappService st) a) st))
            = replies0 ++ new'
      ∧ awaiting run (resume_requests
                        (set_whatsappService
                           (WhatsAppService.step (whatsappService st) a) st))
          new') as Hbg.
  { intros a Hns. apply (resume_requests_awaiting run _ replies0 new); [done|].
    destruct (step_keeps_task (whatsappService st) a run Hns) as [Hnone Hsome].
    destruct Ha as [([t Ht] & Hw & Hn)|(Ht & Hw & Hn)].
    - left. split_and!; try done. apply Hsome. by eexists.
    - right. split; [|done]. right. split_and!; try done. by apply Hnone. }
  destruct h as [file fe rows fin|file|message rnd| |r w d|r|ms|open];
    cbn [App.step background]; try done; try (by apply Hbg).
  - unfold upload_csv. destruct file as [f|];
      [destruct (parseCSV fe rows fin) as [[m|cs]|]|];
      try (by exists new);
      (eexists; split; [simpl; by rewrite Hr, <- app_assoc|]);
      (destruct Ha as [(Ht & Hw & Hn)|(Ht & Hw & n & Hn)]; [left|right];
       split_and!; try done; try exists n; by rewrite start_answers_app, Hn).
  - unfold upload_image. destruct file as [f|];
      (eexists; split; [simpl; by rewrite Hr, <- app_assoc|]);
      (destruct Ha as [(Ht & Hw & Hn)|(Ht & Hw & n & Hn)]; [left|right];
       split_and!; try done; try exists n; by rewrite start_answers_app, Hn).
  - unfold stop_campaign.
    eexists; split; [simpl; by rewrite Hr, <- app_assoc|].
    destruct Ha as [(Ht & Hw & Hn)|(Ht & Hw & n & Hn)]; [left|right];
      split_and!; try done; try exists n; by rewrite start_answers_app, Hn.
Qed.

Lemma exec_awaiting type_error run (st : State) (schedule : list Happening)
    replies0 new :
  no_start_request schedule = true →
  replies st = replies0 ++ new → awaiting run st new →
  ∃ new', replies (App.exec type_error st schedule) = replies0 ++ new'
          ∧ awaiting run (App.exec type_error st schedule) new'.
Proof.
  revert st new; induction schedule as [|h schedule IH]; intros st new Hs Hr Ha.
  - by exists new.
  - cbn in Hs. apply andb_true_iff in Hs as [Hh Hs].
    destruct (step_awaiting type_error run st h replies0 new) as (new1 & Hr1 & Ha1);
      [unfold no_start_request; cbn; by rewrite Hh|done|done|].
    cbn [App.exec fold_left]. by apply (IH _ new1).
Qed.

Lemma exec_engine_of type_error (st : State) (schedule : list Happening) :
  no_start_request schedule = true →
  whatsappService (App.exec type_error st schedule)
  = WhatsAppService.exec (whatsappService st) (omap engine_of schedule)
  ∧ no_start (omap engine_of schedule) = true.
Proof.
  revert st; induction schedule as [|h schedule IH]; intros st Hs; [done|].
  cbn in Hs. apply andb_true_iff in Hs as [Hh Hs].
  cbn [App.exec fold_left]. destruct (IH (App.step type_error st h) Hs) as [E1 E2].
  unfold App.exec in E1. rewrite E1. cbn [omap list_omap].
  assert (∀ a, whatsappService
                 (resume_requests
                    (set_whatsappService
                       (WhatsAppService.step (whatsappService st) a) st))
               = WhatsAppService.step (whatsappService st) a) as Hbg.
  { intros a.
    by destruct (resume_requests_fields
                   (set_whatsappService
                      (WhatsAppService.step (whatsappService st) a) st))
      as (-> & _). }
  destruct h as [file fe rows fin|file|message rnd| |r w d|r|ms|open];
    cbn [App.step background engine_of]; try done; rewrite ?Hbg; try done.
  - unfold upload_csv. destruct file as [f|];
      [destruct (parseCSV fe rows fin) as [[m|cs]|]|]; done.
  - unfold upload_image. by destruct file.
Qed.

(** The service after a request that passes every test. *)
Lemma start_campaign_service type_error (st : State) csv image text rnd :
  uploadedCSV st = Some csv → uploadedImage st = Some image →
  trim text ≠ [] →
  isConnected (whatsappService st) = true →
  isSending (whatsappService st) = false →
  whatsappService (start_campaign type_error (Some (JString text)) rnd st)
  = fst (startBulkSend (App.contacts csv) (Some (image_path image))
           (Some (trim text)) None rnd (whatsappService st)).
Proof.
  intros Hcsv Himg Htrim Hconn Hsend. unfold start_campaign.
  rewrite Hcsv, Himg.
  assert (truthy text = true) as -> by (by destruct text).
  destruct (Nat.eqb_spec (length (trim text)) 0) as [E|_];
    [by apply length_zero_iff_nil in E|].
  rewrite Hconn. cbn [negb orb].
  unfold startBulkSend. rewrite Hconn, Hsend. cbn [negb fst].
  match goal with
  | |- whatsappService (resume_requests ?x) = _ =>
      destruct (resume_requests_fields x) as (-> & _)
  end.
  done.
Qed.

(** X16: [/start-campaign] starts a campaign exactly when the request has
    a body, a CSV and an image are uploaded, the message is a string that
    is not blank, the connection is open and [isSending] is false; the call
    is then [startBulkSend(contacts, image path, trimmed message)], which
    leaves the message parameter undefined.  Any other request is answered
    400 or 500 and changes nothing.  A request without body is answered
    500 whatever was uploaded; otherwise 500 comes only with both uploads
    there, for a message that is no string or while [isSending] is true. *)
Theorem start_campaign_guards type_error (st : State)
    (body : option Json) (rnd : nat → nat) :
  let st' := start_campaign type_error body rnd st in
  (∀ csv image text,
     uploadedCSV st = Some csv → uploadedImage st = Some image →
     body = Some (JString text) → trim text ≠ [] →
     isConnected (whatsappService st) = true →
     isSending (whatsappService st) = false →
     whatsappService st'
     = fst (startBulkSend (App.contacts csv) (Some (image_path image))
              (Some (trim text)) None rnd (whatsappService st)))
  ∧ (¬ ready st body →
     whatsappService st' = whatsappService st
     ∧ uploadedCSV st' = uploadedCSV st ∧ uploadedImage st' = uploadedImage st
     ∧ waiting st' = waiting st
     ∧ ∃ code error,
         replies st' = replies st ++ [(StartCampaign, mkResponse code (ErrorBody error))]
         ∧ (code = 400 ∨ code = 500)
         ∧ (body = None → code = 500 ∧ error = no_body type_error)
         ∧ (code = 500 →
            body = None
            ∨ (is_Some (uploadedCSV st) ∧ is_Some (uploadedImage st)
               ∧ (body = Some (JOther true)
                  ∨ isSending (whatsappService st) = true)))).
Proof.
  intros st'. subst st'. unfold start_campaign. split.
  - intros csv image text -> -> -> Htrim Hconn Hsend.
    assert (truthy text = true) as -> by (destruct text; [done|done]).
    destruct (Nat.eqb_spec (length (trim text)) 0) as [E|_];
      [by apply length_zero_iff_nil in E|].
    rewrite Hconn. cbn [negb orb].
    unfold startBulkSend. rewrite Hconn, Hsend. cbn [negb fst].
    match goal with
    | |- whatsappService (resume_requests ?x) = _ =>
        destruct (resume_requests_fields x) as (-> & _)
    end.
    done.
  - intros Hnot.
    destruct body as [message|];
      [|split_and!; try done; eexists _, _; split_and!;
        [done|by right|done|by left]].
    destruct (uploadedCSV st) as [csv|] eqn:Ecsv;
      [|split_and!; try done; eexists _, _; split_and!; [done|by left|done|done]].
    destruct (uploadedImage st) as [image|] eqn:Eimg;
      [|split_and!; try done; eexists _, _; split_and!; [done|by left|done|done]].
    destruct message as [|text|[|]];
      try (split_and!; try done; eexists _, _; split_and!;
           [done|by left|done|done]).
    + destruct (truthy text) eqn:Et; cbn [negb orb];
        [|split_and!; try done; eexists _, _; split_and!;
          [done|by left|done|done]].
      destruct (Nat.eqb_spec (length (trim text)) 0) as [E|Hne];
        [split_and!; try done; eexists _, _; split_and!;
         [done|by left|done|done]|].
      destruct (isConnected (whatsappService st)) eqn:Hconn; cbn [negb];
        [|split_and!; try done; eexists _, _; split_and!;
          [done|by left|done|done]].
      unfold startBulkSend. rewrite Hconn. cbn [negb].
      destruct (isSending (whatsappService st)) eqn:Hsend.
      * split_and!; try done. eexists _, _. split_and!; [done|by right|done|].
        intros _. right. split_and!; try done. by right.
      * destruct Hnot. exists csv, image, text. split_and!; try done.
        intros E. by rewrite E in Hne.
    + split_and!; try done. eexists _, _. split_and!; [done|by right|done|].
      intros _. right. split_and!; try done. by left.
Qed.

(** X15: [/upload-csv] touches the upload variable only, and only when the
    file parses: it then holds the contacts that pass the validator, in
    file order, with counts that add up, and the response shows the first
    five of them; a request without file is answered 400 and a file that
    does not parse 500, the last upload staying in place; while
    [parseCSV] is not settled nothing is answered and nothing changes. *)
Theorem upload_csv_outcome (st : State) (file : option File) (file_exists : bool)
    (rows : list Row) (fin : StreamEnd) :
  let st' := upload_csv file file_exists rows fin st in
  whatsappService st' = whatsappService st
  ∧ uploadedImage st' = uploadedImage st ∧ waiting st' = waiting st
  ∧ match file, parseCSV file_exists rows fin with
    | Some f, Some (inr parsed) =>
        ∃ csv message,
          uploadedCSV st' = Some csv
          ∧ App.contacts csv
            = List.filter (λ c, isValidBrazilianNumber (number c)) parsed
          ∧ csv_path csv = path f
          ∧ totalContacts csv = length parsed
          ∧ validContacts csv = length (App.contacts csv)
          ∧ validContacts csv + invalidContacts csv = totalContacts csv
          ∧ replies st'
            = replies st
              ++ [(UploadCsv,
                   mkResponse 200
                     (CsvBody message (validContacts csv) (invalidContacts csv)
                        (take 5 (App.contacts csv))))]
    | Some f, Some (inl error) =>
        uploadedCSV st' = uploadedCSV st
        ∧ replies st'
          = replies st ++ [(UploadCsv, mkResponse 500 (ErrorBody error))]
    | Some f, None =>
        uploadedCSV st' = uploadedCSV st ∧ replies st' = replies st
    | None, _ =>
        uploadedCSV st' = uploadedCSV st
        ∧ replies st'
          = replies st
            ++ [(UploadCsv,
                 mkResponse 400 (ErrorBody (js "Nenhum arquivo CSV enviado")))]
    end.
Proof.
  intros st'. subst st'. unfold upload_csv.
  destruct file as [f|]; [|done].
  destruct (parseCSV file_exists rows fin) as [[m|parsed]|]; [done| |done].
  split_and!; try done.
  destruct (CSVFacts.validateContacts_filter parsed) as (Hv & Hi).
  pose proof (CSVLaws.filter_split_length
                (λ c, isValidBrazilianNumber (number c)) parsed) as Hsum.
  rewrite <- Hv, <- Hi in Hsum.
  eexists _, _. cbn [uploadedCSV reply set_uploadedCSV App.contacts csv_path
    totalContacts validContacts invalidContacts].
  split_and!; try done.
Qed.

(** X17: a request of [/start-campaign] accepted when no call of
    [startBulkSend] is in progress and no earlier request awaits one is
    answered when its call of [startBulkSend] returns, as long as no other
    request of [/start-campaign] is made: while no terminal event has been
    emitted there is no response, and once it has there is exactly one,
    200 with "Campanha iniciada para ...". *)
Theorem start_campaign_answer type_error (st : State) csv image text rnd
    (schedule : list Happening) :
  uploadedCSV st = Some csv → uploadedImage st = Some image →
  trim text ≠ [] →
  isConnected (whatsappService st) = true →
  isSending (whatsappService st) = false →
  idle (whatsappService st) = true → waiting st = [] →
  no_start_request schedule = true →
  let st' :=
    App.exec type_error (start_campaign type_error (Some (JString text)) rnd st)
      schedule in
  ∃ evs new,
    emitted (whatsappService st') = emitted (whatsappService st) ++ evs
    ∧ replies st' = replies st ++ new
    ∧ ((finished_counts evs = [] ∧ start_answers new = [])
       ∨ (∃ sent failed n,
            finished_counts evs = [(sent, failed, length (App.contacts csv))]
            ∧ start_answers new
              = [(StartCampaign,
                  mkResponse 200
                    (SuccessBody
                       (js "Campanha iniciada para " ++ decimal n
                        ++ js " contatos v" ++ [225%N] ++ js "lidos")))])).
Proof.
  intros Hcsv Himg Htrim Hconn Hsend Hidle Hwait Hns st'.
  set (run := length (tasks (whatsappService st))).
  set (st1 := start_campaign type_error (Some (JString text)) rnd st) in *.
  set (svc1 := fst (startBulkSend (App.contacts csv) (Some (image_path image))
                      (Some (trim text)) None rnd (whatsappService st))).
  (* the state after the request *)
  assert (st1 = resume_requests
                  (set_waiting [run] (set_whatsappService svc1 st))) as Hst1.
  { unfold st1, start_campaign. rewrite Hcsv, Himg.
    assert (truthy text = true) as -> by (by destruct text).
    destruct (Nat.eqb_spec (length (trim text)) 0) as [E|_];
      [by apply length_zero_iff_nil in E|].
    rewrite Hconn. cbn [negb orb]. unfold svc1, startBulkSend.
    rewrite Hconn, Hsend. cbn [negb fst]. by rewrite Hwait. }
  assert (run < length (tasks svc1)) as Hrun
    by (by apply RunFacts.startBulkSend_tasks_length).
  destruct (resume_requests_awaiting run
              (set_waiting [run] (set_whatsappService svc1 st)) (replies st) [])
    as (new1 & Hr1 & Ha1).
  { simpl. by rewrite app_nil_r. }
  { left. split_and!; [done|by apply lookup_lt_is_Some|done]. }
  rewrite <- Hst1 in Hr1, Ha1.
  destruct (exec_awaiting type_error run st1 schedule (replies st) new1 Hns Hr1 Ha1)
    as (new & Hr & Ha). fold st' in Hr, Ha.
  (* the engine *)
  assert (whatsappService st1 = svc1) as Hsvc1.
  { rewrite Hst1.
    by destruct (resume_requests_fields
                   (set_waiting [run] (set_whatsappService svc1 st)))
      as (-> & _). }
  destruct (exec_engine_of type_error st1 schedule Hns) as [Hsvc Hns'].
  fold st' in Hsvc. rewrite Hsvc1 in Hsvc.
  pose proof (startBulkSend_run_inv (App.contacts csv) (Some (image_path image))
                (Some (trim text)) None rnd _ Hconn Hsend Hidle) as Hinv.
  fold svc1 run in Hinv.
  apply (run_inv_exec _ _ _ _ _ _ Hns') in Hinv. rewrite <- Hsvc in Hinv.
  destruct Hinv as (evs & c & Hlog & _ & _ & _ & _ & _ & Hst).
  exists evs, new. split; [done|]. split; [done|].
  destruct Hst as [(t & Ht & _ & _ & Hfin & _)|(Hdead & _ & Hfin & _)].
  - left. split; [done|].
    destruct Ha as [(_ & _ & Hn)|(Hnone & _)]; [done|congruence].
  - right. destruct Ha as [([t Ht] & _)|(_ & _ & n & Hn)];
      [by destruct (Hdead run t)|].
    by exists (sent c), (failed c), n.
Qed.

(** X22: a campaign keeps the contacts and the image of the time of its
    request: whatever is uploaded while it runs, what it hands to the
    socket comes from attempts on contacts of the list uploaded then, with
    the image path of then, the trimmed message as audio path and no
    message. *)
Theorem campaign_keeps_its_uploads type_error (st : State) csv image text rnd
    (schedule : list Happening) :
  uploadedCSV st = Some csv → uploadedImage st = Some image →
  trim text ≠ [] →
  isConnected (whatsappService st) = true →
  isSending (whatsappService st) = false →
  idle (whatsappService st) = true →
  no_start_request schedule = true →
  let st' :=
    App.exec type_error (start_campaign type_error (Some (JString text)) rnd st)
      schedule in
  ∃ out,
    dispatched (whatsappService st') = dispatched (whatsappService st) ++ out
    ∧ ∀ d, d ∈ out →
        ∃ w contact, contact ∈ App.contacts csv
          ∧ d ∈ fst (sendMessage w contact (Some (image_path image))
                       (Some (trim text)) None).
Proof.
  intros Hcsv Himg Htrim Hconn Hsend Hidle Hns st'.
  pose proof (start_campaign_service type_error st csv image text rnd
                Hcsv Himg Htrim Hconn Hsend) as Hsvc1.
  destruct (exec_engine_of type_error
              (start_campaign type_error (Some (JString text)) rnd st) schedule Hns)
    as [Hsvc Hns'].
  fold st' in Hsvc. rewrite Hsvc, Hsvc1.
  by apply RunFacts.exec_dispatched_listed.
Qed.

(** ** On sample values *)

Lemma app_writes_to_validated_witness :
  let d := mkDispatch (js "5511999999999@s.whatsapp.net")
             (ImageMessage [255; 216]%N None (js "image/png")) in
  ∃ number, jid d = number ++ js "@s.whatsapp.net"
    ∧ isValidBrazilianNumber number = true.
Proof.
  intros d.
  apply (AppFacts.app_writes_to_validated v8_errors 0
           (sample_session ++ [App.Settles 0 all_well 30000]) d).
  vm_compute. apply list_elem_of_here.
Defined.

Lemma app_sends_no_text_witness :
  let d := mkDispatch (js "5511999999999@s.whatsapp.net")
             (ImageMessage [255; 216]%N None (js "image/png")) in
  match content d with
  | ImageMessage _ caption _ => caption = None
  | AudioMessage _ _ _ => True
  | TextMessage _ => False
  end.
Proof.
  intros d.
  apply (AppFacts.app_sends_no_text v8_errors 0
           (sample_session ++ [App.Settles 0 all_well 30000]) d).
  vm_compute. apply list_elem_of_here.
Defined.

Lemma start_campaign_guards_witness :
  let st := App.exec v8_errors (App.init 0) (take 3 sample_session) in
  App.whatsappService (App.start_campaign v8_errors (Some (App.JString (js " Oi "))) zeros st)
  = fst (startBulkSend [sample_contact]
           (Some (js "uploads/2-promo.png")) (Some (js "Oi")) None zeros
           (App.whatsappService st))
  ∧ tasks (App.whatsappService
             (App.start_campaign v8_errors (Some (App.JString (js " Oi "))) zeros st)) !! 0
    = Some (Some (mkTask [sample_contact] 0 (Some (js "uploads/2-promo.png"))
                    (Some (js "Oi")) None InSend))
  ∧ ∃ code error,
      App.replies (App.start_campaign v8_errors None zeros (App.init 0))
      = [(App.StartCampaign, App.mkResponse code (App.ErrorBody error))]
      ∧ code = 500 ∧ error = App.no_body v8_errors.
Proof.
  intros st.
  destruct (AppFacts.start_campaign_guards v8_errors st
              (Some (App.JString (js " Oi "))) zeros) as [H _].
  destruct (AppFacts.start_campaign_guards v8_errors (App.init 0)
              None zeros) as [_ H'].
  split; [|split; [vm_compute; reflexivity|]].
  2: { destruct H' as (_ & _ & _ & _ & code & error & E & _ & Hb & _).
       - intros (csv & image & text & _ & _ & Hbody & _). discriminate Hbody.
       - exists code, error. split; [exact E|]. apply Hb. reflexivity. }
  rewrite (H (App.mkUploadedCSV (js "uploads/1-contatos.csv")
                [sample_contact]
                1 1 0)
             (App.mkUploadedImage (js "uploads/2-promo.png") (js "2-promo.png")
                2048 (js "image/png"))
             (js " Oi ")); try reflexivity; vm_compute; discriminate.
Defined.

Lemma start_campaign_answer_witness :
  let st := App.exec v8_errors (App.init 0) (take 3 sample_session) in
  let running := App.start_campaign v8_errors (Some (App.JString (js " Oi "))) zeros st in
  App.replies running = App.replies st
  ∧ start_answers
      (drop 2 (App.replies (App.exec v8_errors running [App.Settles 0 all_well 30000])))
    = [(App.StartCampaign,
        App.mkResponse 200
          (App.SuccessBody (js "Campanha iniciada para 1 contatos v" ++ [225%N]
                            ++ js "lidos")))]
  ∧ ∃ evs new,
      emitted (App.whatsappService
                 (App.exec v8_errors running [App.Settles 0 all_well 30000]))
      = emitted (App.whatsappService st) ++ evs
      ∧ App.replies (App.exec v8_errors running [App.Settles 0 all_well 30000])
        = App.replies st ++ new
      ∧ ((finished_counts evs = [] ∧ start_answers new = [])
         ∨ (∃ sent failed n,
              finished_counts evs = [(sent, failed, 1)]
              ∧ start_answers new
                = [(App.StartCampaign,
                    App.mkResponse 200
                      (App.SuccessBody
                         (js "Campanha iniciada para " ++ App.decimal n
                          ++ js " contatos v" ++ [225%N] ++ js "lidos")))])).
Proof.
  intros st running.
  split; [vm_compute; reflexivity|]. split; [vm_compute; reflexivity|].
  apply (AppFacts.start_campaign_answer v8_errors st
           (App.mkUploadedCSV (js "uploads/1-contatos.csv")
              [sample_contact]
              1 1 0)
           (App.mkUploadedImage (js "uploads/2-promo.png") (js "2-promo.png")
              2048 (js "image/png"))
           (js " Oi ") zeros [App.Settles 0 all_well 30000]);
    try reflexivity.
  vm_compute. discriminate.
Defined.

Lemma campaign_keeps_its_uploads_witness :
  let st := App.exec v8_errors (App.init 0) (take 3 sample_session) in
  let other : Row := {[ js "number" := js "21 98888-7777" ]} in
  let st' :=
    App.exec v8_errors (App.start_campaign v8_errors (Some (App.JString (js " Oi "))) zeros st)
      [App.PostUploadCsv (Some sample_csv) true [other] StreamEnded;
       App.Settles 0 all_well 30000] in
  dispatched (App.whatsappService st')
  = [mkDispatch (js "5511999999999@s.whatsapp.net")
       (ImageMessage [255; 216]%N None (js "image/png"));
     mkDispatch (js "5511999999999@s.whatsapp.net")
       (AudioMessage [255; 216]%N (js "audio/mp4") true)]
  ∧ ∃ out,
      dispatched (App.whatsappService st')
      = dispatched (App.whatsappService st) ++ out
      ∧ ∀ d, d ∈ out →
          ∃ w contact, contact ∈ [sample_contact]
            ∧ d ∈ fst (sendMessage w contact (Some (js "uploads/2-promo.png"))
                         (Some (js "Oi")) None).
Proof.
  intros st other st'. split; [vm_compute; reflexivity|].
  apply (AppFacts.campaign_keeps_its_uploads v8_errors st
           (App.mkUploadedCSV (js "uploads/1-contatos.csv") [sample_contact]
              1 1 0)
           (App.mkUploadedImage (js "uploads/2-promo.png") (js "2-promo.png")
              2048 (js "image/png"))
           (js " Oi ") zeros); try reflexivity.
  vm_compute. discriminate.
Defined.

End AppFacts.
